(** * Simplex tableau engine of the LP solver screens

    Shallow embedding of the tableau arithmetic found in the solver screens
    of the application:

    - [SolutionPage] (single phase, maximise)         src/unnamed/part_002
    - [Phase1]       (two-phase method, minimise W)   src/app/(tabs)/Phase1.tsx
    - [Phase2]       (two-phase method, maximise Z)   src/app/(tabs)/Phase2.tsx
    - [Legacy]       (earlier single-phase screen)    src/unnamed/part_003

    Modelling conventions.

    - A JavaScript [number] is modelled by a rational [Q].  The sums,
      products and quotients that fill the tableau are exact, and the
      thresholds [1e-10] and [1e-12] are the rationals 10^-10 and 10^-12.
      The ratio test is the one place where the row chosen depends on the
      rounding of a single operation ([ratio < minRatio - 1e-10]): there
      the quotient and the difference are rounded to the nearest double
      ([roundDouble]).  Overflow and NaN of IEEE doubles are outside the
      model; on finite inputs the source never divides by zero (every
      divisor is tested against a threshold first).
    - [-Infinity] / [+Infinity], which the source only obtains from
      [Math.max()] / [Math.min()] of an empty array and from the initial
      [minRatio], are modelled by [None] in an [option Q].
    - [indexOf] returning [-1] and [leavingIdx === -1] are modelled by
      [None] in an [option nat].
    - An array is a [list]; [a[i]] is [nth i a d].  The default [d] is only
      reached where JavaScript would read [undefined]; for the read
      [cjRow[idx] ?? 0] the default [0] is exactly what the source does.
      Statements that depend on in-range reads carry the shape invariant of
      the tableau ([wf_tableau]) as a hypothesis.
    - React state is a record; a handler is a function from the state of the
      render it closes over to the state committed after all its [setX]
      calls.
    - [setTimeout(f, 100)] puts a call on a queue of pending timers.  A
      screen in time is the committed state together with that queue; an
      event is a press of one of the three buttons or the firing of the
      oldest pending timer (all timers have the same delay, so they fire in
      the order they were set, and nothing cancels them).  [solve] and
      [handleSolveToOptimal], as single functions, are the run in which the
      timers of one press all fire before anything else is pressed. *)

From Stdlib Require Import String Ascii Bool Arith Lia DecimalString DecimalNat.
From Stdlib Require Import ZArith QArith Qabs Qminmax Qpower Qround Lqa FinFun List.
From Equations Require Import Equations.
Import ListNotations.

Local Open Scope Q_scope.

(** ** JavaScript primitives *)

Definition Tableau := list (list Q).

Definition eps10 : Q := 1 # 10000000000.
Definition eps12 : Q := 1 # 1000000000000.

(** [x < y] and [x <= y] on numbers. *)
Definition Qltb (x y : Q) : bool := negb (Qle_bool y x).
Definition Qleb (x y : Q) : bool := Qle_bool x y.

(** The integer nearest to [q], ties to the even one. *)
Definition roundHalfEven (q : Q) : Z :=
  let f := Qfloor q in
  match Qcompare (q - inject_Z f) (1 # 2) with
  | Lt => f
  | Gt => (f + 1)%Z
  | Eq => if Z.even f then f else (f + 1)%Z
  end.

(** [floor (log2 |q|)] for [q <> 0]. *)
Definition binade (q : Q) : Z :=
  let e0 := (Z.log2 (Z.abs (Qnum q)) - Z.log2 (Z.pos (Qden q)))%Z in
  if Qleb (2 ^ e0) (Qabs q) then e0 else (e0 - 1)%Z.

(** Exponent of the unit in the last place of the doubles around [q]:
    53 significant bits, subnormal below [2^-1022]. *)
Definition ulpExponent (q : Q) : Z := (Z.max (binade q) (-1022) - 52)%Z.

(** The double nearest to [q], ties to even: the value of one IEEE-754
    operation whose exact result is [q], and of a decimal literal [q].
    (A result beyond the largest double would be an infinity.) *)
Definition roundDouble (q : Q) : Q :=
  if Qeq_bool q 0 then 0
  else Qred (inject_Z (roundHalfEven (q / 2 ^ ulpExponent q)) * 2 ^ ulpExponent q).

(** [t[i][j]]. *)
Definition cell (t : Tableau) (i j : nat) : Q := nth j (nth i t []) 0.

(** [row[row.length - 1]]. *)
Definition lastOf (row : list Q) : Q := nth (length row - 1) row 0.

(** [a[i] = v] for an index inside the array. *)
Fixpoint setAt {A : Type} (l : list A) (i : nat) (v : A) : list A :=
  match l, i with
  | [], _ => []
  | _ :: r, O => v :: r
  | x :: r, S i' => x :: setAt r i' v
  end.

(** [Math.max(...xs)]; [None] is [-Infinity]. *)
Definition mathMax (xs : list Q) : option Q :=
  match xs with
  | [] => None
  | x :: r => Some (fold_left Qmax r x)
  end.

(** [Math.min(...xs)]; [None] is [+Infinity]. *)
Definition mathMin (xs : list Q) : option Q :=
  match xs with
  | [] => None
  | x :: r => Some (fold_left Qmin r x)
  end.

(** [xs.indexOf(v)] on numbers (strict equality of values). *)
Fixpoint indexOfNum (v : Q) (xs : list Q) : option nat :=
  match xs with
  | [] => None
  | x :: r => if Qeq_bool x v then Some O else option_map S (indexOfNum v r)
  end.

(** [xs.indexOf(s)] on strings. *)
Fixpoint indexOf (s : string) (xs : list string) : option nat :=
  match xs with
  | [] => None
  | x :: r => if String.eqb x s then Some O else option_map S (indexOf s r)
  end.

(** [s.startsWith(p)]. *)
Definition startsWith (p s : string) : bool := String.prefix p s.

(** [`${n}`] for a non-negative integer [n]. *)
Definition numberToString (n : nat) : string :=
  NilEmpty.string_of_uint (Nat.to_uint n).

(** [Array(n).fill(0).map((_, i) => `${prefix}${i + 1}`)]. *)
Definition numberedNames (prefix : string) (n : nat) : list string :=
  map (fun i => (prefix ++ numberToString (i + 1))%string) (seq 0 n).

(** A counter incremented inside [xs.forEach] whenever [p] holds. *)
Definition countIf {A : Type} (p : A -> bool) (xs : list A) : nat :=
  length (filter p xs).

(** [xs.find(p)]. *)
Definition jsFind {A : Type} (p : A -> bool) (xs : list A) : option A := find p xs.

(** ** Shape invariant of a tableau (data model)

    Constraint rows followed by the Zj row and the Cj-Zj row; every row has
    one entry per variable plus the right-hand side; one basis entry per
    constraint row; one objective coefficient per variable. *)

Definition wf_tableaub (t : Tableau) (basicVars : list string) (cjRow : list Q)
  (allVars : list string) : bool :=
  (2 <=? length t)%nat
  && forallb (fun row => (length row =? S (length allVars))%nat) t
  && (length basicVars =? length t - 2)%nat
  && (length cjRow =? length allVars)%nat.

Definition wf_tableau (t : Tableau) (basicVars : list string) (cjRow : list Q)
  (allVars : list string) : Prop :=
  wf_tableaub t basicVars cjRow allVars = true.

(** Every row as long as the first one. *)
Definition rectangular (t : Tableau) : Prop :=
  forallb (fun row => (length row =? length (nth 0 t []))%nat) t = true.

(** ** Engine code shared verbatim by the three screens *)

Module Engine.

(** Result object [{ table, enteringVar, leavingVar }]. *)
Record Computed := mkComputed {
  table : Tableau;
  enteringVar : option string;
  leavingVar : option string
}.

(** [cb] entry of one basis name:
    [idx = allVars.indexOf(b); if (idx === -1) return 0; return cjRow[idx] ?? 0]. *)
Definition cbOf (allVars : list string) (cjRow : list Q) (b : string) : Q :=
  match indexOf b allVars with
  | None => 0
  | Some idx => nth idx cjRow 0
  end.

Definition cbValues (basicVars : list string) (cjRow : list Q) (allVars : list string)
  : list Q :=
  map (cbOf allVars cjRow) basicVars.

(** Inner loop [sum += cb[i] * table[i][j]] over the constraint rows. *)
Definition zjSum (t : Tableau) (cb : list Q) (rowsCount j : nat) : Q :=
  fold_left (fun sum i => sum + nth i cb 0 * cell t i j) (seq 0 rowsCount) 0.

Definition zjRowRaw (t : Tableau) (cb : list Q) (rowsCount cols : nat) : list Q :=
  map (zjSum t cb rowsCount) (seq 0 cols).

(** [cjZjRow[j] = j < cjRow.length ? cjRow[j] - zjRow[j] : 0]. *)
Definition cjZjRowRaw (cjRow zjRow : list Q) (cols : nat) : list Q :=
  map (fun j => if (j <? length cjRow)%nat then nth j cjRow 0 - nth j zjRow 0 else 0)
      (seq 0 cols).

(** [if (Math.abs(x) < 1e-10) x = 0]. *)
Definition clean10 (x : Q) : Q := if Qltb (Qabs x) eps10 then 0 else x.

(** [if (Math.abs(x) < 1e-12) x = 0]. *)
Definition clean12 (x : Q) : Q := if Qltb (Qabs x) eps12 then 0 else x.

Definition zjRow (t : Tableau) (basicVars : list string) (cjRow : list Q)
  (allVars : list string) : list Q :=
  map clean10
    (zjRowRaw t (cbValues basicVars cjRow allVars) (length t - 2) (length (nth 0 t []))).

Definition cjZjRow (t : Tableau) (basicVars : list string) (cjRow : list Q)
  (allVars : list string) : list Q :=
  map clean10
    (cjZjRowRaw cjRow
       (zjRowRaw t (cbValues basicVars cjRow allVars) (length t - 2) (length (nth 0 t [])))
       (length (nth 0 t []))).

(** [newTable]: copies of the constraint rows, then the two derived rows. *)
Definition derivedTable (t : Tableau) (basicVars : list string) (cjRow : list Q)
  (allVars : list string) : Tableau :=
  map (fun r => r) (firstn (length t - 2) t)
    ++ [zjRow t basicVars cjRow allVars; cjZjRow t basicVars cjRow allVars].

(** [ratio < minRatio - 1e-10], with [minRatio] possibly [Infinity]; the
    difference of the doubles [minRatio] and [1e-10] is a double. *)
Definition belowMin (ratio : Q) (minRatio : option Q) : bool :=
  match minRatio with
  | None => true
  | Some m => Qltb ratio (roundDouble (m - roundDouble eps10))
  end.

(** One turn of the ratio-test loop; the state is [(minRatio, leavingIdx)].
    [rhsOf] is the way the caller reads the right-hand side of a row. *)
Definition ratioStep (t : Tableau) (rhsOf : list Q -> Q) (enteringIndex : nat)
  (st : option Q * option nat) (i : nat) : option Q * option nat :=
  let colVal := cell t i enteringIndex in
  let rhsVal := rhsOf (nth i t []) in
  if Qltb eps10 colVal then
    let ratio := roundDouble (rhsVal / colVal) in
    if Qleb (- eps10) ratio && belowMin ratio (fst st) then (Some ratio, Some i)
    else st
  else st.

Definition ratioLoop (t : Tableau) (rhsOf : list Q -> Q) (rowsCount enteringIndex : nat)
  : option Q * option nat :=
  fold_left (ratioStep t rhsOf enteringIndex) (seq 0 rowsCount) (None, None).

Definition ratioTest (t : Tableau) (rhsOf : list Q -> Q) (rowsCount enteringIndex : nat)
  : option nat :=
  snd (ratioLoop t rhsOf rowsCount enteringIndex).

(** Entering column, maximise screens:
    [maxVal = Math.max(...cjZjVars); if (maxVal <= 1e-10) optimal;
     enteringIndex = cjZjVars.indexOf(maxVal)].
    The outer [None] is "optimal"; the inner option is the result of
    [indexOf]. *)
Definition enteringMax (cjZjVars : list Q) : option (option nat) :=
  match mathMax cjZjVars with
  | None => None
  | Some maxVal =>
      if Qleb maxVal eps10 then None else Some (indexOfNum maxVal cjZjVars)
  end.

(** Entering column, Phase 1:
    [minVal = Math.min(...cjZjVars); if (minVal >= -1e-10) optimal;
     enteringIndex = cjZjVars.indexOf(minVal)]. *)
Definition enteringMin (cjZjVars : list Q) : option (option nat) :=
  match mathMin cjZjVars with
  | None => None
  | Some minVal =>
      if Qleb (- eps10) minVal then None else Some (indexOfNum minVal cjZjVars)
  end.

(** Body of [computeZjAndCjMinusZj], with the entering rule of the screen as
    a parameter (the only place where the three copies differ). *)
Definition computeWith (entering : list Q -> option (option nat))
  (t : Tableau) (basicVars : list string) (cjRow : list Q) (allVars : list string)
  : Computed :=
  if (length t <? 2)%nat then mkComputed t None None
  else
    let rowsCount := (length t - 2)%nat in
    let newTable := derivedTable t basicVars cjRow allVars in
    let cjZjVars := firstn (length allVars) (cjZjRow t basicVars cjRow allVars) in
    match entering cjZjVars with
    | None => mkComputed newTable None None
    | Some None =>
        (* indexOf gave -1: allVars[-1] and every newTable[i][-1] are undefined *)
        mkComputed newTable None None
    | Some (Some enteringIndex) =>
        let leavingIdx := ratioTest newTable lastOf rowsCount enteringIndex in
        mkComputed newTable
          (nth_error allVars enteringIndex)
          (match leavingIdx with
           | None => None
           | Some i => nth_error basicVars i
           end)
    end.

(** Normalised pivot row: [row[j] = row[j] / pivotVal], cleaned, for [j < cols]. *)
Definition normalizeRow (cols : nat) (pivotVal : Q) (row : list Q) : list Q :=
  map (fun j => clean12 (nth j row 0 / pivotVal)) (seq 0 cols) ++ skipn cols row.

(** Eliminated row: [row[j] = row[j] - factor * pivotRow[j]], cleaned, for [j < cols]. *)
Definition eliminateRow (cols : nat) (factor : Q) (pivotRow row : list Q) : list Q :=
  map (fun j => clean12 (nth j row 0 - factor * nth j pivotRow 0)) (seq 0 cols)
    ++ skipn cols row.

(** One turn of the elimination loop over the constraint rows. *)
Definition eliminateStep (cols pivotRowIdx pivotColIdx : nat) (t : Tableau) (i : nat)
  : Tableau :=
  if (i =? pivotRowIdx)%nat then t
  else
    let factor := cell t i pivotColIdx in
    if Qltb (Qabs factor) eps12 then t
    else setAt t i (eliminateRow cols factor (nth pivotRowIdx t []) (nth i t [])).

Definition pivotError : string := "Pivot value is too close to zero.".

(** [performPivot]: [inl msg] is [throw new Error(msg)]. *)
Definition performPivot (currentTable : Tableau) (pivotRowIdx pivotColIdx : nat)
  : string + Tableau :=
  let t := map (fun r => r) currentTable in
  let rowsCount := (length t - 2)%nat in
  let cols := length (nth 0 t []) in
  let pivotVal := cell t pivotRowIdx pivotColIdx in
  if Qltb (Qabs pivotVal) eps12 then inl pivotError
  else
    let t1 := setAt t pivotRowIdx (normalizeRow cols pivotVal (nth pivotRowIdx t [])) in
    inr (fold_left (eliminateStep cols pivotRowIdx pivotColIdx) (seq 0 rowsCount) t1).

End Engine.

(** ** The two maximise screens

    [SolutionPage] and [Phase2] hold the same state hooks and the same
    handlers; only the two status strings differ, so the handlers are written
    once over these strings. *)

Module MaxScreen.

(** State hooks of the screen. *)
Record Session := mkSession {
  simplexTable : Tableau;
  variables : list string;
  cj : list Q;
  basicVariables : list string;
  enteringVar : option string;
  leavingVar : option string;
  iteration : nat;
  message : option string
}.

Definition setMessage (m : option string) (s : Session) : Session :=
  mkSession (simplexTable s) (variables s) (cj s) (basicVariables s)
            (enteringVar s) (leavingVar s) (iteration s) m.

(** [setEnteringVar(e); setLeavingVar(l); setMessage(m)]. *)
Definition setPivotInfo (e l m : option string) (s : Session) : Session :=
  mkSession (simplexTable s) (variables s) (cj s) (basicVariables s)
            e l (iteration s) m.

Definition computeZjAndCjMinusZj := Engine.computeWith Engine.enteringMax.

(** [row[cols - 1]]: the right-hand side as the handlers read it. *)
Definition rhsAt (cols : nat) (row : list Q) : Q := nth (cols - 1) row 0.

(** [a ?? b]. *)
Definition orElse {A : Type} (a b : option A) : option A :=
  match a with
  | Some _ => a
  | None => b
  end.

(** [Math.max(...row.slice(0, n)) <= 1e-10]. *)
Definition maxAtMostEps (cjZjVars : list Q) : bool :=
  match mathMax cjZjVars with
  | None => true
  | Some maxVal => Qleb maxVal eps10
  end.

Definition maxIterations : nat := 100.

(** Calls of [solve] still allowed before [currentIteration > maxIterations]. *)
Definition remaining (currentIteration : nat) : nat :=
  (S maxIterations - currentIteration)%nat.
#[global] Arguments remaining : simpl never.

Definition limitMessage : string := "Stopped: reached maximum automatic iterations limit.".

(** What one call of the inner [solve] decides: stop with the committed
    state, or schedule [solve(computed.table, newBasics, currentIteration + 1)]. *)
Inductive SolveTurn :=
| Stop (s : Session)
| Continue (s : Session) (nextTable : Tableau) (nextBasics : list string).

Section Handlers.

Variables msgOptimal msgUnbounded : string.

(** The [try { ... } catch (err) { ... }] block of [handleNextIteration]. *)
Definition tryPivot (s : Session) (leavingRowIdx enteringIndex : nat) : Session :=
  match Engine.performPivot (simplexTable s) leavingRowIdx enteringIndex with
  | inl err => setMessage (Some ("Error during pivot: " ++ err)%string) s
  | inr newTable =>
      let newBasics :=
        setAt (basicVariables s) leavingRowIdx (nth enteringIndex (variables s) ""%string) in
      let computed := computeZjAndCjMinusZj newTable newBasics (cj s) (variables s) in
      let cjZjNow :=
        firstn (length (variables s))
               (nth (length (Engine.table computed) - 1) (Engine.table computed) []) in
      let e := orElse (Engine.enteringVar computed) (nth_error (variables s) enteringIndex) in
      let l := orElse (Engine.leavingVar computed) (nth_error (basicVariables s) leavingRowIdx) in
      if maxAtMostEps cjZjNow then
        mkSession (Engine.table computed) (variables s) (cj s) newBasics
                  None None (S (iteration s)) (Some msgOptimal)
      else
        mkSession (Engine.table computed) (variables s) (cj s) newBasics
                  e l (S (iteration s)) None
  end.

Definition handleNextIteration (s : Session) : Session :=
  let t := simplexTable s in
  if (length t <? 2)%nat then setMessage None s
  else
    let rowsCount := (length t - 2)%nat in
    let cols := length (nth 0 t []) in
    let cjZjRow := nth (length t - 1) t [] in
    let cjZjVars := firstn (length (variables s)) cjZjRow in
    match Engine.enteringMax cjZjVars with
    | None => setPivotInfo None None (Some msgOptimal) s
    | Some None => setPivotInfo None None (Some msgUnbounded) s
    | Some (Some enteringIndex) =>
        match Engine.ratioTest t (rhsAt cols) rowsCount enteringIndex with
        | None =>
            setPivotInfo (nth_error (variables s) enteringIndex) None (Some msgUnbounded) s
        | Some leavingRowIdx => tryPivot s leavingRowIdx enteringIndex
        end
    end.

(** Body of the inner [solve] after the iteration-limit test. *)
Definition solveTurn (st : Session) (currentTable : Tableau) (currentBasics : list string)
  (currentIteration : nat) : SolveTurn :=
  let lastRow := nth (length currentTable - 1) currentTable [] in
  let cjZjVars := firstn (length (variables st)) lastRow in
  match Engine.enteringMax cjZjVars with
  | None => Stop (setPivotInfo None None (Some msgOptimal) st)
  | Some None => Stop (setPivotInfo None None (Some msgUnbounded) st)
  | Some (Some enteringIndex) =>
      let rowsCount := (length currentTable - 2)%nat in
      let cols := length (nth 0 currentTable []) in
      match Engine.ratioTest currentTable (rhsAt cols) rowsCount enteringIndex with
      | None =>
          Stop (setPivotInfo (nth_error (variables st) enteringIndex) None
                             (Some msgUnbounded) st)
      | Some leavingRowIdx =>
          match Engine.performPivot currentTable leavingRowIdx enteringIndex with
          | inl err =>
              Stop (setMessage (Some ("Error during automatic pivot: " ++ err)%string) st)
          | inr newTable =>
              let newBasics :=
                setAt currentBasics leavingRowIdx
                      (nth enteringIndex (variables st) ""%string) in
              let computed :=
                computeZjAndCjMinusZj newTable newBasics (cj st) (variables st) in
              Continue
                (mkSession (Engine.table computed) (variables st) (cj st) newBasics
                           (enteringVar st) (leavingVar st) (S currentIteration)
                           (message st))
                (Engine.table computed) newBasics
          end
      end
  end.

(** The inner [solve], re-invoked through [setTimeout] after every pivot.
    The second component of the result is a ghost counter: the number of
    calls of [performPivot] that returned a table. *)
Equations? solve (st : Session) (currentTable : Tableau) (currentBasics : list string)
  (currentIteration : nat) : Session * nat by wf (remaining currentIteration) lt :=
solve st currentTable currentBasics currentIteration
  with le_lt_dec currentIteration maxIterations => {
  | right _ => (setMessage (Some limitMessage) st, O)
  | left _ with solveTurn st currentTable currentBasics currentIteration => {
    | Stop s' => (s', O)
    | Continue s' nextTable nextBasics =>
        let r := solve s' nextTable nextBasics (S currentIteration) in
        (fst r, S (snd r)) } }.
Proof. unfold remaining, maxIterations in *. lia. Qed.

Definition handleSolveToOptimal (s : Session) : Session * nat :=
  solve (setMessage None s) (simplexTable s) (basicVariables s) (iteration s).

End Handlers.

(** The [initialState] hook ([equations], a list of display strings, is
    left out here as it is in [Session]). *)
Module Initial.

Record State := mkState {
  table : Tableau;
  vars : list string;
  cj : list Q;
  basics : list string;
  iteration : nat
}.

End Initial.

(** [handleReset]; [None] is the [initialState] hook before creation. *)
Definition handleReset (initialState : option Initial.State) (s : Session) : Session :=
  match initialState with
  | None => s
  | Some init =>
      let computed :=
        computeZjAndCjMinusZj (Initial.table init) (Initial.basics init)
                              (Initial.cj init) (Initial.vars init) in
      mkSession (Engine.table computed) (Initial.vars init) (Initial.cj init)
                (Initial.basics init)
                (Engine.enteringVar computed) (Engine.leavingVar computed) 1 None
  end.

(** *** The screen in time *)

(** What can happen to a screen. *)
Inductive Event :=
| PressNextIteration
| PressSolveToOptimal
| PressReset
| TimerFires.

(** A pending [setTimeout(() => solve(computed.table, newBasics,
    currentIteration + 1), 100)]: the arguments of the call, and the
    [variables] and [cj] hooks of the render in which "Solve to Optimal" was
    pressed, which the closure [solve] reads. *)
Record Timer := mkTimer {
  closureVariables : list string;
  closureCj : list Q;
  argTable : Tableau;
  argBasics : list string;
  argIteration : nat
}.

Record Screen := mkScreen {
  shown : Session;
  timers : list Timer
}.

(** The state [s] as a closure sees it that captured other [variables] and
    [cj] hooks. *)
Definition withNames (vars : list string) (cjRow : list Q) (s : Session) : Session :=
  mkSession (simplexTable s) vars cjRow (basicVariables s)
            (enteringVar s) (leavingVar s) (iteration s) (message s).

(** [timers.push(tm)] when a timer was set. *)
Definition schedule (pending : list Timer) (tm : option Timer) : list Timer :=
  match tm with
  | Some x => pending ++ [x]
  | None => pending
  end.

Section Timed.

Variables msgOptimal msgUnbounded : string.
Variable initialState : option Initial.State.

(** One call [solve(currentTable, currentBasics, currentIteration)] made
    while the committed state is [cur]: the state committed by its [setX]
    calls and the timer it sets, if any.  The hooks it does not set keep
    their committed value. *)
Definition solveCall (vars : list string) (cjRow : list Q) (cur : Session)
  (currentTable : Tableau) (currentBasics : list string) (currentIteration : nat)
  : Session * option Timer :=
  if (currentIteration <=? maxIterations)%nat then
    match solveTurn msgOptimal msgUnbounded (withNames vars cjRow cur)
                    currentTable currentBasics currentIteration with
    | Stop s' => (withNames (variables cur) (cj cur) s', None)
    | Continue s' nextTable nextBasics =>
        (withNames (variables cur) (cj cur) s',
         Some (mkTimer vars cjRow nextTable nextBasics (S currentIteration)))
    end
  else (setMessage (Some limitMessage) cur, None).

(** The effect of one event.  "Solve to Optimal" clears the message and
    makes the first call of [solve] at once; a firing timer makes the call
    it holds. *)
Definition step (sc : Screen) (ev : Event) : Screen :=
  let cur := shown sc in
  match ev with
  | PressNextIteration =>
      mkScreen (handleNextIteration msgOptimal msgUnbounded cur) (timers sc)
  | PressSolveToOptimal =>
      let r := solveCall (variables cur) (cj cur) (setMessage None cur)
                         (simplexTable cur) (basicVariables cur) (iteration cur) in
      mkScreen (fst r) (schedule (timers sc) (snd r))
  | PressReset => mkScreen (handleReset initialState cur) (timers sc)
  | TimerFires =>
      match timers sc with
      | [] => sc
      | tm :: rest =>
          let r := solveCall (closureVariables tm) (closureCj tm) cur
                             (argTable tm) (argBasics tm) (argIteration tm) in
          mkScreen (fst r) (schedule rest (snd r))
      end
  end.

Definition run (events : list Event) (sc : Screen) : Screen :=
  fold_left step events sc.

End Timed.

End MaxScreen.

(** ** Single-phase screen (src/unnamed/part_002) *)

Module SolutionPage.

Definition msgOptimal : string := "Optimal solution reached.".
Definition msgUnbounded : string := "Problem is unbounded (no valid leaving variable).".

Definition computeZjAndCjMinusZj := MaxScreen.computeZjAndCjMinusZj.
Definition performPivot := Engine.performPivot.
Definition handleNextIteration := MaxScreen.handleNextIteration msgOptimal msgUnbounded.
Definition handleSolveToOptimal := MaxScreen.handleSolveToOptimal msgOptimal msgUnbounded.
Definition handleReset := MaxScreen.handleReset.
Definition run := MaxScreen.run msgOptimal msgUnbounded.

(** Constraint row [i] as laid out by [createInitialSimplexTable]:
    [[...constraints[i], ...unit vector i, rhsValues[i]]]. *)
Definition initialRow (constraints : list (list Q)) (rhsValues : list Q)
  (numConstraints i : nat) : list Q :=
  (nth i constraints []
   ++ map (fun j => if (i =? j)%nat then 1 else 0) (seq 0 numConstraints)
   ++ [nth i rhsValues 0])%list.

(** The table pushed before the derived rows are computed. *)
Definition initialTable (obj : list Q) (constraints : list (list Q)) (rhsValues : list Q)
  : Tableau :=
  let numVars := length obj in
  let numConstraints := length constraints in
  let cols := (numVars + numConstraints + 1)%nat in
  (map (initialRow constraints rhsValues numConstraints) (seq 0 numConstraints)
   ++ [repeat 0 cols; repeat 0 cols])%list.

(** [createInitialSimplexTable]: the committed session and the stored
    [initialState]. *)
Definition createInitialSimplexTable (obj : list Q) (constraints : list (list Q))
  (rhsValues : list Q) : MaxScreen.Session * MaxScreen.Initial.State :=
  let numVars := length obj in
  let numConstraints := length constraints in
  let newCj := (obj ++ repeat 0 numConstraints)%list in
  let newVariables := (numberedNames "x" numVars ++ numberedNames "s" numConstraints)%list in
  let newBasicVariables := numberedNames "s" numConstraints in
  let computed :=
    computeZjAndCjMinusZj (initialTable obj constraints rhsValues)
                          newBasicVariables newCj newVariables in
  (MaxScreen.mkSession (Engine.table computed) newVariables newCj newBasicVariables
                       (Engine.enteringVar computed) (Engine.leavingVar computed) 1 None,
   MaxScreen.Initial.mkState (Engine.table computed) newVariables newCj
                             newBasicVariables 1).

(** The effect run when the screen receives its route parameters:
    [adjustedObjective = optType === "Minimize" ? objective.map(v => -v) : objective]. *)
Definition onParams (objective : list Q) (constraintsMatrix : list (list Q))
  (rhs : list Q) (optType : string) : MaxScreen.Session * MaxScreen.Initial.State :=
  createInitialSimplexTable
    (if String.eqb optType "Minimize" then map Qopp objective else objective)
    constraintsMatrix rhs.

End SolutionPage.

(** ** Route parameters handed from Phase 1 to Phase 2 *)

Record Phase2Params := mkPhase2Params {
  originalObjective : list Q;
  phase1Table : Tableau;
  phase1Variables : list string;
  phase1BasicVariables : list string;
  optType : string
}.

(** ** Phase 1 screen (src/app/(tabs)/Phase1.tsx) *)

Module Phase1.

Record Session := mkSession {
  simplexTable : Tableau;
  variables : list string;
  cj : list Q;
  basicVariables : list string;
  enteringVar : option string;
  leavingVar : option string;
  iteration : nat;
  message : option string;
  phase1Complete : bool
}.

Definition msgFeasible : string :=
  "Phase 1 complete. Feasible solution found. Ready for Phase 2.".
Definition msgInfeasible : string :=
  "Phase 1 complete. Original problem is infeasible.".
Definition msgUnbounded : string := "Phase 1 problem is unbounded.".

Definition setMessage (m : option string) (s : Session) : Session :=
  mkSession (simplexTable s) (variables s) (cj s) (basicVariables s)
            (enteringVar s) (leavingVar s) (iteration s) m (phase1Complete s).

Definition setPivotInfo (e l m : option string) (s : Session) : Session :=
  mkSession (simplexTable s) (variables s) (cj s) (basicVariables s)
            e l (iteration s) m (phase1Complete s).

Definition computeZjAndCjMinusZj := Engine.computeWith Engine.enteringMin.
Definition performPivot := Engine.performPivot.

(** [Math.min(...row.slice(0, n)) >= -1e-10]. *)
Definition minAtLeastNegEps (cjZjVars : list Q) : bool :=
  match mathMin cjZjVars with
  | None => true
  | Some minVal => Qleb (- eps10) minVal
  end.

(** [objectiveValue = t[t.length - 2][cols - 1]]: the Zj entry under RHS. *)
Definition objectiveValue (t : Tableau) (cols : nat) : Q :=
  cell t (length t - 2) (cols - 1).

(** The feasibility test made once Phase 1 is optimal:
    [if (Math.abs(objectiveValue) < 1e-10) { setMessage(feasible);
     setPhase1Complete(true) } else setMessage(infeasible);
     setEnteringVar(null); setLeavingVar(null)]. *)
Definition concludePhase1 (value : Q) (s : Session) : Session :=
  if Qltb (Qabs value) eps10 then
    mkSession (simplexTable s) (variables s) (cj s) (basicVariables s)
              None None (iteration s) (Some msgFeasible) true
  else
    mkSession (simplexTable s) (variables s) (cj s) (basicVariables s)
              None None (iteration s) (Some msgInfeasible) (phase1Complete s).

Definition tryPivot (s : Session) (leavingRowIdx enteringIndex : nat) : Session :=
  match performPivot (simplexTable s) leavingRowIdx enteringIndex with
  | inl err => setMessage (Some ("Error during pivot: " ++ err)%string) s
  | inr newTable =>
      let newBasics :=
        setAt (basicVariables s) leavingRowIdx (nth enteringIndex (variables s) ""%string) in
      let computed := computeZjAndCjMinusZj newTable newBasics (cj s) (variables s) in
      let ct := Engine.table computed in
      let cjZjNow := firstn (length (variables s)) (nth (length ct - 1) ct []) in
      let e := MaxScreen.orElse (Engine.enteringVar computed)
                                (nth_error (variables s) enteringIndex) in
      let l := MaxScreen.orElse (Engine.leavingVar computed)
                                (nth_error (basicVariables s) leavingRowIdx) in
      let s1 := mkSession ct (variables s) (cj s) newBasics e l (S (iteration s)) None
                          (phase1Complete s) in
      if minAtLeastNegEps cjZjNow then
        concludePhase1 (objectiveValue ct (length (nth 0 ct []))) s1
      else s1
  end.

Definition handleNextIteration (s : Session) : Session :=
  let t := simplexTable s in
  if (length t <? 2)%nat then setMessage None s
  else
    let rowsCount := (length t - 2)%nat in
    let cols := length (nth 0 t []) in
    let cjZjRow := nth (length t - 1) t [] in
    let cjZjVars := firstn (length (variables s)) cjZjRow in
    match Engine.enteringMin cjZjVars with
    | None => concludePhase1 (objectiveValue t cols) (setMessage None s)
    | Some None => setPivotInfo None None (Some msgUnbounded) s
    | Some (Some enteringIndex) =>
        match Engine.ratioTest t (MaxScreen.rhsAt cols) rowsCount enteringIndex with
        | None =>
            setPivotInfo (nth_error (variables s) enteringIndex) None (Some msgUnbounded) s
        | Some leavingRowIdx => tryPivot s leavingRowIdx enteringIndex
        end
    end.

Inductive SolveTurn :=
| Stop (s : Session)
| Continue (s : Session) (nextTable : Tableau) (nextBasics : list string).

Definition solveTurn (st : Session) (currentTable : Tableau) (currentBasics : list string)
  (currentIteration : nat) : SolveTurn :=
  let lastRow := nth (length currentTable - 1) currentTable [] in
  let cjZjVars := firstn (length (variables st)) lastRow in
  match Engine.enteringMin cjZjVars with
  | None =>
      Stop (concludePhase1
              (objectiveValue currentTable (length (nth 0 currentTable []))) st)
  | Some None => Stop (setPivotInfo None None (Some msgUnbounded) st)
  | Some (Some enteringIndex) =>
      let rowsCount := (length currentTable - 2)%nat in
      let cols := length (nth 0 currentTable []) in
      match Engine.ratioTest currentTable (MaxScreen.rhsAt cols) rowsCount enteringIndex with
      | None =>
          Stop (setPivotInfo (nth_error (variables st) enteringIndex) None
                             (Some msgUnbounded) st)
      | Some leavingRowIdx =>
          match performPivot currentTable leavingRowIdx enteringIndex with
          | inl err =>
              Stop (setMessage (Some ("Error during automatic pivot: " ++ err)%string) st)
          | inr newTable =>
              let newBasics :=
                setAt currentBasics leavingRowIdx
                      (nth enteringIndex (variables st) ""%string) in
              let computed :=
                computeZjAndCjMinusZj newTable newBasics (cj st) (variables st) in
              Continue
                (mkSession (Engine.table computed) (variables st) (cj st) newBasics
                           (enteringVar st) (leavingVar st) (S currentIteration)
                           (message st) (phase1Complete st))
                (Engine.table computed) newBasics
          end
      end
  end.

Equations? solve (st : Session) (currentTable : Tableau) (currentBasics : list string)
  (currentIteration : nat) : Session * nat
  by wf (MaxScreen.remaining currentIteration) lt :=
solve st currentTable currentBasics currentIteration
  with le_lt_dec currentIteration MaxScreen.maxIterations => {
  | right _ => (setMessage (Some MaxScreen.limitMessage) st, O)
  | left _ with solveTurn st currentTable currentBasics currentIteration => {
    | Stop s' => (s', O)
    | Continue s' nextTable nextBasics =>
        let r := solve s' nextTable nextBasics (S currentIteration) in
        (fst r, S (snd r)) } }.
Proof. unfold MaxScreen.remaining, MaxScreen.maxIterations in *. lia. Qed.

Definition handleSolveToOptimal (s : Session) : Session * nat :=
  solve (setMessage None s) (simplexTable s) (basicVariables s) (iteration s).

(** [handleProceedToPhase2]: [None] when the handler returns without
    navigating, otherwise the parameters of the Phase 2 route.
    [objective] and [optType] are the props of the Phase 1 screen. *)
Definition handleProceedToPhase2 (objective : list Q) (optType : string) (s : Session)
  : option Phase2Params :=
  if negb (phase1Complete s) then None
  else Some (mkPhase2Params objective (simplexTable s) (variables s)
                            (basicVariables s) optType).

Definition isLe (ty : string) : bool := String.eqb ty "≤".
Definition isGe (ty : string) : bool := String.eqb ty "≥".
Definition isEq (ty : string) : bool := String.eqb ty "=".

(** State of the loop that builds the constraint rows and the basis. *)
Record Build := mkBuild {
  newConstraintsMatrix : list (list Q);
  newBasicVariables : list string;
  slackIndex : nat;
  surplusIndex : nat;
  artificialIndex : nat
}.

(** Row [i] with its slack, surplus and artificial columns. *)
Definition augmentedRow (constraintsMatrix : list (list Q)) (ty : string)
  (slackCount surplusCount artificialCount : nat) (st : Build) (i : nat) : list Q :=
  (nth i constraintsMatrix []
   ++ map (fun j => if (isLe ty && (j =? slackIndex st)%nat)%bool then 1 else 0)
          (seq 0 slackCount)
   ++ map (fun j => if (isGe ty && (j =? surplusIndex st)%nat)%bool then - (1) else 0)
          (seq 0 surplusCount)
   ++ map (fun j => if ((isGe ty || isEq ty) && (j =? artificialIndex st)%nat)%bool
                    then 1 else 0)
          (seq 0 artificialCount))%list.

(** One turn of the [for (i < numConstraints)] loop. *)
Definition buildStep (constraintsMatrix : list (list Q)) (constraintTypes : list string)
  (slackCount surplusCount artificialCount : nat) (st : Build) (i : nat) : Build :=
  let ty := nth i constraintTypes ""%string in
  let row := augmentedRow constraintsMatrix ty slackCount surplusCount artificialCount st i in
  let rows := (newConstraintsMatrix st ++ [row])%list in
  if isLe ty then
    mkBuild rows
            (newBasicVariables st ++ [("s" ++ numberToString (slackIndex st + 1))%string])
            (S (slackIndex st)) (surplusIndex st) (artificialIndex st)
  else if isGe ty then
    mkBuild rows
            (newBasicVariables st ++ [("a" ++ numberToString (artificialIndex st + 1))%string])
            (slackIndex st) (S (surplusIndex st)) (S (artificialIndex st))
  else if isEq ty then
    mkBuild rows
            (newBasicVariables st ++ [("a" ++ numberToString (artificialIndex st + 1))%string])
            (slackIndex st) (surplusIndex st) (S (artificialIndex st))
  else
    mkBuild rows (newBasicVariables st)
            (slackIndex st) (surplusIndex st) (artificialIndex st).

Definition slackCountOf (constraintTypes : list string) : nat := countIf isLe constraintTypes.
Definition surplusCountOf (constraintTypes : list string) : nat := countIf isGe constraintTypes.
Definition artificialCountOf (constraintTypes : list string) : nat :=
  (countIf isGe constraintTypes + countIf isEq constraintTypes)%nat.

Definition build (constraintsMatrix : list (list Q)) (constraintTypes : list string)
  (upTo : nat) : Build :=
  fold_left (buildStep constraintsMatrix constraintTypes
                       (slackCountOf constraintTypes) (surplusCountOf constraintTypes)
                       (artificialCountOf constraintTypes))
            (seq 0 upTo) (mkBuild [] [] 0 0 0).

Definition allVarsOf (objective : list Q) (constraintTypes : list string) : list string :=
  (numberedNames "x" (length objective)
   ++ numberedNames "s" (slackCountOf constraintTypes)
   ++ numberedNames "e" (surplusCountOf constraintTypes)
   ++ numberedNames "a" (artificialCountOf constraintTypes))%list.

(** Phase 1 objective: 0 on decision, slack and surplus variables, 1 on
    artificial variables. *)
Definition phase1Objective (objective : list Q) (constraintTypes : list string) : list Q :=
  (repeat 0 (length objective)
   ++ repeat 0 (slackCountOf constraintTypes + surplusCountOf constraintTypes)
   ++ repeat 1 (artificialCountOf constraintTypes))%list.

(** The table pushed before the derived rows are computed. *)
Definition initialTable (objective : list Q) (constraintsMatrix : list (list Q))
  (rhs : list Q) (constraintTypes : list string) : Tableau :=
  let numConstraints := length constraintsMatrix in
  let b := build constraintsMatrix constraintTypes numConstraints in
  let cols := S (length (allVarsOf objective constraintTypes)) in
  (map (fun i => nth i (newConstraintsMatrix b) [] ++ [nth i rhs 0]) (seq 0 numConstraints)
   ++ [repeat 0 cols; repeat 0 cols])%list.

(** [createInitialPhase1Table], from the props of the screen: the committed
    session and the stored [initialState]. *)
Definition createInitialPhase1Table (objective : list Q)
  (constraintsMatrix : list (list Q)) (rhs : list Q) (constraintTypes : list string)
  : Session * MaxScreen.Initial.State :=
  let allVars := allVarsOf objective constraintTypes in
  let cjRow := phase1Objective objective constraintTypes in
  let basics :=
    newBasicVariables (build constraintsMatrix constraintTypes (length constraintsMatrix)) in
  let computed :=
    computeZjAndCjMinusZj (initialTable objective constraintsMatrix rhs constraintTypes)
                          basics cjRow allVars in
  (mkSession (Engine.table computed) allVars cjRow basics
             (Engine.enteringVar computed) (Engine.leavingVar computed) 1 None false,
   MaxScreen.Initial.mkState (Engine.table computed) allVars cjRow basics 1).

(** [handleReset]. *)
Definition handleReset (initialState : option MaxScreen.Initial.State) (s : Session)
  : Session :=
  match initialState with
  | None => s
  | Some init =>
      let computed :=
        computeZjAndCjMinusZj (MaxScreen.Initial.table init) (MaxScreen.Initial.basics init)
                              (MaxScreen.Initial.cj init) (MaxScreen.Initial.vars init) in
      mkSession (Engine.table computed) (MaxScreen.Initial.vars init)
                (MaxScreen.Initial.cj init) (MaxScreen.Initial.basics init)
                (Engine.enteringVar computed) (Engine.leavingVar computed) 1 None false
  end.

(** *** The screen in time *)

Record Screen := mkScreen {
  shown : Session;
  timers : list MaxScreen.Timer
}.

Definition withNames (vars : list string) (cjRow : list Q) (s : Session) : Session :=
  mkSession (simplexTable s) vars cjRow (basicVariables s)
            (enteringVar s) (leavingVar s) (iteration s) (message s) (phase1Complete s).

(** One call of the inner [solve] of [handleSolveToOptimal] made while the
    committed state is [cur]. *)
Definition solveCall (vars : list string) (cjRow : list Q) (cur : Session)
  (currentTable : Tableau) (currentBasics : list string) (currentIteration : nat)
  : Session * option MaxScreen.Timer :=
  if (currentIteration <=? MaxScreen.maxIterations)%nat then
    match solveTurn (withNames vars cjRow cur)
                    currentTable currentBasics currentIteration with
    | Stop s' => (withNames (variables cur) (cj cur) s', None)
    | Continue s' nextTable nextBasics =>
        (withNames (variables cur) (cj cur) s',
         Some (MaxScreen.mkTimer vars cjRow nextTable nextBasics (S currentIteration)))
    end
  else (setMessage (Some MaxScreen.limitMessage) cur, None).

Definition step (initialState : option MaxScreen.Initial.State) (sc : Screen)
  (ev : MaxScreen.Event) : Screen :=
  let cur := shown sc in
  match ev with
  | MaxScreen.PressNextIteration => mkScreen (handleNextIteration cur) (timers sc)
  | MaxScreen.PressSolveToOptimal =>
      let r := solveCall (variables cur) (cj cur) (setMessage None cur)
                         (simplexTable cur) (basicVariables cur) (iteration cur) in
      mkScreen (fst r) (MaxScreen.schedule (timers sc) (snd r))
  | MaxScreen.PressReset => mkScreen (handleReset initialState cur) (timers sc)
  | MaxScreen.TimerFires =>
      match timers sc with
      | [] => sc
      | tm :: rest =>
          let r := solveCall (MaxScreen.closureVariables tm) (MaxScreen.closureCj tm) cur
                             (MaxScreen.argTable tm) (MaxScreen.argBasics tm)
                             (MaxScreen.argIteration tm) in
          mkScreen (fst r) (MaxScreen.schedule rest (snd r))
      end
  end.

Definition run (initialState : option MaxScreen.Initial.State)
  (events : list MaxScreen.Event) (sc : Screen) : Screen :=
  fold_left (step initialState) events sc.

End Phase1.

(** ** Phase 2 screen (src/app/(tabs)/Phase2.tsx) *)

Module Phase2.

Definition msgOptimal : string := "Phase 2 complete. Optimal solution found.".
Definition msgUnbounded : string := "Phase 2 problem is unbounded.".

Definition computeZjAndCjMinusZj := MaxScreen.computeZjAndCjMinusZj.
Definition performPivot := Engine.performPivot.
Definition handleNextIteration := MaxScreen.handleNextIteration msgOptimal msgUnbounded.
Definition handleSolveToOptimal := MaxScreen.handleSolveToOptimal msgOptimal msgUnbounded.

Definition isArtificial (varName : string) : bool := startsWith "a" varName.

(** [filteredVariables]: the names pushed by the [forEach] else-branch. *)
Definition filteredVariables (phase1Variables : list string) : list string :=
  filter (fun v => negb (isArtificial v)) phase1Variables.

(** [artificialIndices]: the indices pushed by the [forEach] then-branch. *)
Definition artificialIndices (phase1Variables : list string) : list nat :=
  filter (fun j => isArtificial (nth j phase1Variables ""%string))
         (seq 0 (length phase1Variables)).

(** [xs.includes(j)]. *)
Definition includes (xs : list nat) (j : nat) : bool := existsb (Nat.eqb j) xs.

(** [optType === "Minimize" ? -c : c]. *)
Definition adjustedCoeff (optType : string) (c : Q) : Q :=
  if String.eqb optType "Minimize" then - c else c.

(** The loop that fills [phase2Objective]; [originalIndex] is its counter. *)
Fixpoint phase2ObjectiveFrom (optType : string) (originalObjective : list Q)
  (originalIndex : nat) (vars : list string) : list Q :=
  match vars with
  | [] => []
  | varName :: rest =>
      if startsWith "x" varName then
        if (originalIndex <? length originalObjective)%nat then
          adjustedCoeff optType (nth originalIndex originalObjective 0)
            :: phase2ObjectiveFrom optType originalObjective (S originalIndex) rest
        else 0 :: phase2ObjectiveFrom optType originalObjective originalIndex rest
      else 0 :: phase2ObjectiveFrom optType originalObjective originalIndex rest
  end.

Definition phase2Objective (p : Phase2Params) : list Q :=
  phase2ObjectiveFrom (optType p) (originalObjective p) 0
                      (filteredVariables (phase1Variables p)).

(** One constraint row without the artificial columns, RHS re-appended. *)
Definition phase2Row (phase1Variables : list string) (row : list Q) : list Q :=
  map (fun j => nth j row 0)
      (filter (fun j => negb (includes (artificialIndices phase1Variables) j))
              (seq 0 (length phase1Variables)))
    ++ (if (0 <? length row)%nat then [lastOf row] else []).

(** [phase2Table] before the placeholder rows are pushed. *)
Definition phase2Rows (p : Phase2Params) : Tableau :=
  map (phase2Row (phase1Variables p))
      (firstn (length (phase1Table p) - 2) (phase1Table p)).

(** [availableSlack || 's1'] for a basis entry that starts with 'a'. *)
Definition newBasicVariables (p : Phase2Params) : list string :=
  map (fun b =>
         if isArtificial b then
           match jsFind (startsWith "s") (filteredVariables (phase1Variables p)) with
           | Some availableSlack => availableSlack
           | None => "s1"%string
           end
         else b)
      (phase1BasicVariables p).

Definition createPhase2Table (p : Phase2Params) : MaxScreen.Session :=
  let vars := filteredVariables (phase1Variables p) in
  let cols := S (length vars) in
  let phase2Table := phase2Rows p ++ [repeat 0 cols; repeat 0 cols] in
  let computed :=
    computeZjAndCjMinusZj phase2Table (newBasicVariables p) (phase2Objective p) vars in
  MaxScreen.mkSession (Engine.table computed) vars (phase2Objective p)
                      (newBasicVariables p)
                      (Engine.enteringVar computed) (Engine.leavingVar computed)
                      1 None.

(** The [initialState] stored at the end of [createPhase2Table]. *)
Definition createdInitialState (p : Phase2Params) : MaxScreen.Initial.State :=
  let s := createPhase2Table p in
  MaxScreen.Initial.mkState (MaxScreen.simplexTable s) (MaxScreen.variables s)
                            (MaxScreen.cj s) (MaxScreen.basicVariables s) 1.

Definition handleReset := MaxScreen.handleReset.
Definition run := MaxScreen.run msgOptimal msgUnbounded.

End Phase2.

(** ** Earlier single-phase screen (src/unnamed/part_003)

    Same state hooks as [SolutionPage].  The thresholds are exact zeros, the
    ratio test uses [1e-9] and nothing is snapped.  Its "Solve to Optimal"
    is a synchronous [while (true)] loop guarded by a [safety] counter. *)

Module Legacy.

Definition eps9 : Q := 1 # 1000000000.

Definition msgOptimal : string := "Optimal solution reached.".
Definition msgUnbounded : string := "Problem is unbounded (no valid leaving variable).".

(** [ratio < minRatio - 1e-9], the difference being a double. *)
Definition belowMin (ratio : Q) (minRatio : option Q) : bool :=
  match minRatio with
  | None => true
  | Some m => Qltb ratio (roundDouble (m - roundDouble eps9))
  end.

Definition ratioStep (t : Tableau) (rhsOf : list Q -> Q) (enteringIndex : nat)
  (st : option Q * option nat) (i : nat) : option Q * option nat :=
  let colVal := cell t i enteringIndex in
  let rhsVal := rhsOf (nth i t []) in
  if Qltb 0 colVal then
    let ratio := roundDouble (rhsVal / colVal) in
    if belowMin ratio (fst st) then (Some ratio, Some i) else st
  else st.

Definition ratioTest (t : Tableau) (rhsOf : list Q -> Q) (rowsCount enteringIndex : nat)
  : option nat :=
  snd (fold_left (ratioStep t rhsOf enteringIndex) (seq 0 rowsCount) (None, None)).

(** [maxVal <= 0] is "optimal". *)
Definition enteringMax (cjZjVars : list Q) : option (option nat) :=
  match mathMax cjZjVars with
  | None => None
  | Some maxVal => if Qleb maxVal 0 then None else Some (indexOfNum maxVal cjZjVars)
  end.

Definition computeZjAndCjMinusZj (t : Tableau) (basicVars : list string)
  (cjRow : list Q) (allVars : list string) : Engine.Computed :=
  if (length t <? 2)%nat then Engine.mkComputed t None None
  else
    let rowsCount := (length t - 2)%nat in
    let cols := length (nth 0 t []) in
    let zjRow :=
      Engine.zjRowRaw t (Engine.cbValues basicVars cjRow allVars) rowsCount cols in
    let cjZjRow := Engine.cjZjRowRaw cjRow zjRow cols in
    let newTable := (map (fun r => r) (firstn rowsCount t) ++ [zjRow; cjZjRow])%list in
    let cjZjVars := firstn (length allVars) cjZjRow in
    match enteringMax cjZjVars with
    | None => Engine.mkComputed newTable None None
    | Some None => Engine.mkComputed newTable None None
    | Some (Some enteringIndex) =>
        Engine.mkComputed newTable
          (nth_error allVars enteringIndex)
          (match ratioTest newTable lastOf rowsCount enteringIndex with
           | None => None
           | Some i => nth_error basicVars i
           end)
    end.

Definition normalizeRow (cols : nat) (pivotVal : Q) (row : list Q) : list Q :=
  (map (fun j => nth j row 0 / pivotVal) (seq 0 cols) ++ skipn cols row)%list.

Definition eliminateRow (cols : nat) (factor : Q) (pivotRow row : list Q) : list Q :=
  (map (fun j => nth j row 0 - factor * nth j pivotRow 0) (seq 0 cols)
     ++ skipn cols row)%list.

Definition eliminateStep (cols pivotRowIdx pivotColIdx : nat) (t : Tableau) (i : nat)
  : Tableau :=
  if (i =? pivotRowIdx)%nat then t
  else
    let factor := cell t i pivotColIdx in
    if Qltb (Qabs factor) eps12 then t
    else setAt t i (eliminateRow cols factor (nth pivotRowIdx t []) (nth i t [])).

(** [if (pivotVal === 0) throw new Error("Pivot value is zero.")]. *)
Definition performPivot (currentTable : Tableau) (pivotRowIdx pivotColIdx : nat)
  : string + Tableau :=
  let t := map (fun r => r) currentTable in
  let rowsCount := (length t - 2)%nat in
  let cols := length (nth 0 t []) in
  let pivotVal := cell t pivotRowIdx pivotColIdx in
  if Qeq_bool pivotVal 0 then inl "Pivot value is zero."%string
  else
    let t1 := setAt t pivotRowIdx (normalizeRow cols pivotVal (nth pivotRowIdx t [])) in
    inr (fold_left (eliminateStep cols pivotRowIdx pivotColIdx) (seq 0 rowsCount) t1).

(** What one turn of the loop body does: [break] before any pivot, [break]
    from the [catch] after the pivot was committed, or [continue]. *)
Inductive LoopTurn :=
| Break (s : MaxScreen.Session)
| BreakAfterPivot (s : MaxScreen.Session)
| Continue (s : MaxScreen.Session) (nextTable : Tableau) (nextBasics : list string).

Section Loop.

(** The loop body ends by assigning to the [const] bindings [simplexTable]
    and [basicVariables] of the component (the type error is silenced with
    [@ts-ignore]).  Under ECMAScript such an assignment throws a TypeError,
    which the surrounding [catch] reports; an engine or transpiler that lets
    the assignment through carries on with the local copies.
    [mirrorError = Some msg]: the assignment throws an error with message
    [msg]; [mirrorError = None]: it goes through. *)
Variable mirrorError : option string.

(** One turn of the [while (true)] body after the [safety] test; [st] is
    the state committed so far, [simplexTable] and [basicVariables] are the
    bindings the loop reads. *)
Definition loopTurn (st : MaxScreen.Session) (simplexTable : Tableau)
  (basicVariables : list string) : LoopTurn :=
  let lastRow := nth (length simplexTable - 1) simplexTable [] in
  let cjZjVars := firstn (length (MaxScreen.variables st)) lastRow in
  match enteringMax cjZjVars with
  | None => Break (MaxScreen.setPivotInfo None None (Some msgOptimal) st)
  | Some None => Break (MaxScreen.setPivotInfo None None (Some msgUnbounded) st)
  | Some (Some enteringIndex) =>
      let rowsCount := (length simplexTable - 2)%nat in
      let cols := length (nth 0 simplexTable []) in
      match ratioTest simplexTable (MaxScreen.rhsAt cols) rowsCount enteringIndex with
      | None =>
          Break (MaxScreen.setPivotInfo (nth_error (MaxScreen.variables st) enteringIndex)
                                        None (Some msgUnbounded) st)
      | Some leavingRowIdx =>
          match performPivot simplexTable leavingRowIdx enteringIndex with
          | inl err =>
              Break (MaxScreen.setMessage
                       (Some ("Error during automatic pivot: " ++ err)%string) st)
          | inr newTable =>
              let newBasics :=
                setAt basicVariables leavingRowIdx
                      (nth enteringIndex (MaxScreen.variables st) ""%string) in
              let computed :=
                computeZjAndCjMinusZj newTable newBasics (MaxScreen.cj st)
                                      (MaxScreen.variables st) in
              let st' :=
                MaxScreen.mkSession (Engine.table computed) (MaxScreen.variables st)
                                    (MaxScreen.cj st) newBasics
                                    (MaxScreen.enteringVar st) (MaxScreen.leavingVar st)
                                    (S (MaxScreen.iteration st)) (MaxScreen.message st) in
              match mirrorError with
              | Some err =>
                  BreakAfterPivot
                    (MaxScreen.setMessage
                       (Some ("Error during automatic pivot: " ++ err)%string) st')
              | None => Continue st' (Engine.table computed) newBasics
              end
          end
      end
  end.

(** The [while (true)] loop; [safety] is the counter before [safety++].
    The second component of the result is the ghost count of pivots. *)
Equations? loop (st : MaxScreen.Session) (simplexTable : Tableau)
  (basicVariables : list string) (safety : nat) : MaxScreen.Session * nat
  by wf (MaxScreen.remaining (S safety)) lt :=
loop st simplexTable basicVariables safety
  with le_lt_dec (S safety) MaxScreen.maxIterations => {
  | right _ => (MaxScreen.setMessage (Some MaxScreen.limitMessage) st, O)
  | left _ with loopTurn st simplexTable basicVariables => {
    | Break s' => (s', O)
    | BreakAfterPivot s' => (s', 1%nat)
    | Continue s' nextTable nextBasics =>
        let r := loop s' nextTable nextBasics (S safety) in
        (fst r, S (snd r)) } }.
Proof. unfold MaxScreen.remaining, MaxScreen.maxIterations in *. lia. Qed.

Definition handleSolveToOptimal (s : MaxScreen.Session) : MaxScreen.Session * nat :=
  loop (MaxScreen.setMessage None s) (MaxScreen.simplexTable s)
       (MaxScreen.basicVariables s) 0.

End Loop.

End Legacy.

(** ** Vocabulary of the statements *)

(** Entry [j] of the Cj-Zj row (last row) of a computed table. *)
Definition cjZjOf (c : Engine.Computed) (j : nat) : Q :=
  cell (Engine.table c) (length (Engine.table c) - 1) j.

(** Entry [j] of the Zj row (last but one row) of a computed table. *)
Definition zjOf (c : Engine.Computed) (j : nat) : Q :=
  cell (Engine.table c) (length (Engine.table c) - 2) j.

(** Ratio [RHS / coefficient] of constraint row [i] for entering column
    [e], as a double. *)
Definition ratioOf (t : Tableau) (rhsOf : list Q -> Q) (e i : nat) : Q :=
  roundDouble (rhsOf (nth i t []) / cell t i e).

(** The double [ratio - eps] that a later ratio has to be below to take the
    place of a row with ratio [ratio]. *)
Definition thresholdBelow (eps ratio : Q) : Q := roundDouble (ratio - roundDouble eps).

(** Rounding on the grid of the multiples of [2^E]. *)
Definition roundAt (E : Z) (q : Q) : Q := inject_Z (roundHalfEven (q / 2 ^ E)) * 2 ^ E.

(** Row [i] takes part in the ratio test: coefficient above [1e-10] and
    ratio at least [-1e-10]. *)
Definition qualifies (t : Tableau) (rhsOf : list Q -> Q) (e i : nat) : Prop :=
  eps10 < cell t i e /\ - eps10 <= ratioOf t rhsOf e i.


(** [f 0 + f 1 + ... + f (n-1)]. *)
Fixpoint sumRows (f : nat -> Q) (n : nat) : Q :=
  match n with
  | O => 0
  | S k => sumRows f k + f k
  end.

(** Sum over the constraint rows of the objective coefficient of the row's
    basic variable times the row's entry in column [col]. *)
Definition weightedColumn (t : Tableau) (basicVars : list string) (cjRow : list Q)
  (allVars : list string) (col : nat) : Q :=
  sumRows (fun i => Engine.cbOf allVars cjRow (nth i basicVars ""%string) * cell t i col)
          (length t - 2).

(** The objective coefficient of the variable [name], read off the variable
    list and the Cj row side by side: the coefficient at the first position
    where the name stands, 0 when the name is not in the list or the Cj row
    ends before it. *)
Fixpoint objectiveCoefficient (allVars : list string) (cjRow : list Q) (name : string)
  : Q :=
  match allVars, cjRow with
  | v :: vs, c :: cs => if String.eqb v name then c else objectiveCoefficient vs cs name
  | _, _ => 0
  end.

(** The sum over the constraint rows of (objective coefficient of the row's
    basic variable) x (entry of the row in column [col]). *)
Definition zjFormula (t : Tableau) (basicVars : list string) (cjRow : list Q)
  (allVars : list string) (col : nat) : Q :=
  sumRows (fun i => objectiveCoefficient allVars cjRow (nth i basicVars ""%string)
                    * cell t i col)
          (length t - 2).

(** Shape of the Phase 1 state handed over: a table with its two derived
    rows, rows of one entry per Phase 1 variable plus RHS, one basis entry
    per constraint row. *)
Definition params_shapeb (p : Phase2Params) : bool :=
  (2 <=? length (phase1Table p))%nat
  && forallb (fun row => (length row =? S (length (phase1Variables p)))%nat)
             (phase1Table p)
  && (length (phase1BasicVariables p) =? length (phase1Table p) - 2)%nat.

Definition params_shape (p : Phase2Params) : Prop := params_shapeb p = true.

(** Positions of the variables that are not artificial, in column order. *)
Definition keptColumns (vars : list string) : list nat :=
  filter (fun j => negb (startsWith "a" (nth j vars ""%string))) (seq 0 (length vars)).

(** Number of decision variables among the first [k] names. *)
Definition xRank (vars : list string) (k : nat) : nat :=
  length (filter (startsWith "x") (firstn k vars)).

(** Phase 1 optimality of a stored table: the minimum of the Cj-Zj entries
    of the variable columns is at least [-1e-10]. *)
Definition phase1Optimal (vars : list string) (t : Tableau) : bool :=
  Phase1.minAtLeastNegEps (firstn (length vars) (nth (length t - 1) t [])).

(** The Zj entry under the RHS column: the Phase 1 objective value. *)
Definition zjUnderRhs (t : Tableau) : Q :=
  cell t (length t - 2) (length (nth 0 t []) - 1).

(** The outcome [s'] of a Phase 1 handler started from [s]: a handler that
    starts on an optimal table leaves it in place; if the committed table is
    optimal, the verdict was drawn from its Zj entry under RHS; otherwise
    [phase1Complete] is untouched. *)
Definition verdict_drawn (s s' : Phase1.Session) : Prop :=
  Phase1.variables s' = Phase1.variables s /\
  (phase1Optimal (Phase1.variables s) (Phase1.simplexTable s) = true ->
   Phase1.simplexTable s' = Phase1.simplexTable s) /\
  (phase1Optimal (Phase1.variables s') (Phase1.simplexTable s') = false ->
   Phase1.phase1Complete s' = Phase1.phase1Complete s) /\
  (phase1Optimal (Phase1.variables s') (Phase1.simplexTable s') = true ->
   (Qabs (zjUnderRhs (Phase1.simplexTable s')) < eps10 ->
    Phase1.message s' = Some Phase1.msgFeasible /\ Phase1.phase1Complete s' = true) /\
   (~ Qabs (zjUnderRhs (Phase1.simplexTable s')) < eps10 ->
    Phase1.message s' = Some Phase1.msgInfeasible /\
    Phase1.phase1Complete s' = Phase1.phase1Complete s)).

(** The shape invariant, on the state hooks of a session. *)
Definition wf_session (s : MaxScreen.Session) : Prop :=
  wf_tableau (MaxScreen.simplexTable s) (MaxScreen.basicVariables s)
             (MaxScreen.cj s) (MaxScreen.variables s).

Definition wf_session1 (s : Phase1.Session) : Prop :=
  wf_tableau (Phase1.simplexTable s) (Phase1.basicVariables s)
             (Phase1.cj s) (Phase1.variables s).

(** Every basis entry names a variable of the list. *)
Definition basis_in_variables (basics vars : list string) : Prop :=
  forall i, (i < length basics)%nat -> In (nth i basics ""%string) vars.

(** A committed session that fits the names [vars] and the Cj row [cjRow]:
    it is well-formed, its basis entries name variables, its [variables] and
    [cj] hooks are the given ones and its iteration counter is at least 1. *)
Definition session_ok (vars : list string) (cjRow : list Q) (s : MaxScreen.Session)
  : Prop :=
  wf_session s /\
  basis_in_variables (MaxScreen.basicVariables s) (MaxScreen.variables s) /\
  MaxScreen.variables s = vars /\
  MaxScreen.cj s = cjRow /\
  (1 <= MaxScreen.iteration s)%nat.

Definition session1_ok (vars : list string) (cjRow : list Q) (s : Phase1.Session)
  : Prop :=
  wf_session1 s /\
  basis_in_variables (Phase1.basicVariables s) (Phase1.variables s) /\
  Phase1.variables s = vars /\
  Phase1.cj s = cjRow /\
  (1 <= Phase1.iteration s)%nat.

(** A pending call of [solve] that fits the names [vars] and the Cj row
    [cjRow]: its closure holds them, the table and the basis it will be
    called with are well-formed for them, and its counter is at least 1. *)
Definition timer_ok (vars : list string) (cjRow : list Q) (tm : MaxScreen.Timer) : Prop :=
  MaxScreen.closureVariables tm = vars /\
  MaxScreen.closureCj tm = cjRow /\
  wf_tableau (MaxScreen.argTable tm) (MaxScreen.argBasics tm) cjRow vars /\
  basis_in_variables (MaxScreen.argBasics tm) vars /\
  (1 <= MaxScreen.argIteration tm)%nat.

(** Shape of a problem instance: every constraint row has one coefficient
    per objective coefficient, and there is one right-hand side per row. *)
Definition problem_shapeb (objective : list Q) (constraintsMatrix : list (list Q))
  (rhs : list Q) : bool :=
  forallb (fun row => (length row =? length objective)%nat) constraintsMatrix
  && (length rhs =? length constraintsMatrix)%nat.

Definition problem_shape (objective : list Q) (constraintsMatrix : list (list Q))
  (rhs : list Q) : Prop :=
  problem_shapeb objective constraintsMatrix rhs = true.

(** One relational operator per constraint row, each of them one of the
    three values the picker offers. *)
Definition types_validb (constraintsMatrix : list (list Q)) (constraintTypes : list string)
  : bool :=
  (length constraintTypes =? length constraintsMatrix)%nat
  && forallb (fun ty => Phase1.isLe ty || Phase1.isGe ty || Phase1.isEq ty) constraintTypes.

Definition types_valid (constraintsMatrix : list (list Q)) (constraintTypes : list string)
  : Prop :=
  types_validb constraintsMatrix constraintTypes = true.

(** Value of a counter of the Phase 1 build loop when turn [i] starts:
    the number of earlier rows whose type satisfies [p]. *)
Definition typeRank (p : string -> bool) (constraintTypes : list string) (i : nat) : nat :=
  countIf p (firstn i constraintTypes).

(** A row that gets an artificial variable. *)
Definition needsArtificial (ty : string) : bool := Phase1.isGe ty || Phase1.isEq ty.

(** A row whose type is one of the three operators. *)
Definition supportedType (ty : string) : bool :=
  Phase1.isLe ty || Phase1.isGe ty || Phase1.isEq ty.

(** Column of the variable that [createInitialPhase1Table] makes basic in
    row [i]: its slack variable for a [≤] row, its artificial variable
    otherwise; [n] is the number of decision variables. *)
Definition basisColumn (n : nat) (constraintTypes : list string) (i : nat) : nat :=
  if Phase1.isLe (nth i constraintTypes ""%string)
  then (n + typeRank Phase1.isLe constraintTypes i)%nat
  else (n + Phase1.slackCountOf constraintTypes + Phase1.surplusCountOf constraintTypes
        + typeRank needsArtificial constraintTypes i)%nat.

(** Column of the surplus variable of a [≥] row. *)
Definition surplusColumn (n : nat) (constraintTypes : list string) (i : nat) : nat :=
  (n + Phase1.slackCountOf constraintTypes + typeRank Phase1.isGe constraintTypes i)%nat.

(** [x] satisfies the equation of a table row: the coefficients times the
    entries of [x], summed over the variable columns, give the entry under
    RHS. *)
Definition rowHolds (x : list Q) (row : list Q) : Prop :=
  sumRows (fun j => nth j row 0 * nth j x 0) (length row - 1) == lastOf row.

(** [x] satisfies the equations of all constraint rows of [t]. *)
Definition solves (x : list Q) (t : Tableau) : Prop :=
  forall i, (i < length t - 2)%nat -> rowHolds x (nth i t []).

(** Two sessions that agree on the hooks the simplex steps read and write:
    table, variable names, Cj, basis and iteration counter (they may differ
    in the message and in the highlighted entering and leaving variables). *)
Definition sameCore (s1 s2 : MaxScreen.Session) : Prop :=
  MaxScreen.simplexTable s1 = MaxScreen.simplexTable s2 /\
  MaxScreen.variables s1 = MaxScreen.variables s2 /\
  MaxScreen.cj s1 = MaxScreen.cj s2 /\
  MaxScreen.basicVariables s1 = MaxScreen.basicVariables s2 /\
  MaxScreen.iteration s1 = MaxScreen.iteration s2.

(** The same for Phase 1 sessions; [phase1Complete] is left out as well. *)
Definition sameCore1 (s1 s2 : Phase1.Session) : Prop :=
  Phase1.simplexTable s1 = Phase1.simplexTable s2 /\
  Phase1.variables s1 = Phase1.variables s2 /\
  Phase1.cj s1 = Phase1.cj s2 /\
  Phase1.basicVariables s1 = Phase1.basicVariables s2 /\
  Phase1.iteration s1 = Phase1.iteration s2.


(** What the loop has established after rows [0 .. n-1]. *)
Definition ratioInv (t : Tableau) (rhsOf : list Q -> Q) (e n : nat)
  (st : option Q * option nat) : Prop :=
  match snd st with
  | None => fst st = None /\ forall i, (i < n)%nat -> ~ qualifies t rhsOf e i
  | Some r =>
      (r < n)%nat /\ qualifies t rhsOf e r /\ fst st = Some (ratioOf t rhsOf e r) /\
      (forall i, (i < r)%nat -> qualifies t rhsOf e i ->
                 ratioOf t rhsOf e r < ratioOf t rhsOf e i) /\
      (forall i, (r < i < n)%nat -> qualifies t rhsOf e i ->
                 thresholdBelow eps10 (ratioOf t rhsOf e r) <= ratioOf t rhsOf e i)
  end.


(** ** Sample sessions

    Scenario A: maximise 3 x1 + 5 x2 subject to x1 <= 4, 2 x2 <= 12,
    3 x1 + 2 x2 <= 18, as [createInitialSimplexTable] lays it out before
    the derived rows are filled. *)

Module ScenarioA.

Definition table0 : Tableau :=
  [[1; 0; 1; 0; 0; 4];
   [0; 2; 0; 1; 0; 12];
   [3; 2; 0; 0; 1; 18];
   [0; 0; 0; 0; 0; 0];
   [0; 0; 0; 0; 0; 0]].

Definition vars : list string := ["x1"; "x2"; "s1"; "s2"; "s3"]%string.
Definition basics : list string := ["s1"; "s2"; "s3"]%string.
Definition cjRow : list Q := [3; 5; 0; 0; 0].

Definition computed : Engine.Computed :=
  SolutionPage.computeZjAndCjMinusZj table0 basics cjRow vars.

(** The session committed by [createInitialSimplexTable]. *)
Definition session : MaxScreen.Session :=
  MaxScreen.mkSession (Engine.table computed) vars cjRow basics
                      (Engine.enteringVar computed) (Engine.leavingVar computed)
                      1 None.

(** The same problem on the earlier screen (part_003). *)
Definition legacyComputed : Engine.Computed :=
  Legacy.computeZjAndCjMinusZj table0 basics cjRow vars.

Definition legacySession : MaxScreen.Session :=
  MaxScreen.mkSession (Engine.table legacyComputed) vars cjRow basics
                      (Engine.enteringVar legacyComputed)
                      (Engine.leavingVar legacyComputed)
                      1 None.

End ScenarioA.

(** Scenario D: maximise x1 subject to x1 - x2 <= 1.  After one pivot the
    entering column x2 has no positive coefficient. *)

Module ScenarioD.

Definition table0 : Tableau :=
  [[1; -1; 1; 1];
   [0; 0; 0; 0];
   [0; 0; 0; 0]].

Definition vars : list string := ["x1"; "x2"; "s1"]%string.
Definition basics : list string := ["s1"]%string.
Definition cjRow : list Q := [1; 0; 0].

Definition computed : Engine.Computed :=
  SolutionPage.computeZjAndCjMinusZj table0 basics cjRow vars.

Definition session : MaxScreen.Session :=
  MaxScreen.mkSession (Engine.table computed) vars cjRow basics
                      (Engine.enteringVar computed) (Engine.leavingVar computed)
                      1 None.

(** The session after the first press of "Next Iteration". *)
Definition session1 : MaxScreen.Session := SolutionPage.handleNextIteration session.

End ScenarioD.

(** Near tie in the ratio test: maximise x1 subject to x1 <= 1 and
    x1 <= 0.99999999995. *)

Module ScenarioTie.

Definition table0 : Tableau :=
  [[1; 1; 0; 1];
   [1; 0; 1; 99999999995 # 100000000000];
   [0; 0; 0; 0];
   [0; 0; 0; 0]].

Definition vars : list string := ["x1"; "s1"; "s2"]%string.
Definition basics : list string := ["s1"; "s2"]%string.
Definition cjRow : list Q := [1; 0; 0].

Definition computed : Engine.Computed :=
  SolutionPage.computeZjAndCjMinusZj table0 basics cjRow vars.

End ScenarioTie.

(** A redundant equality constraint, 0 x1 = 0: Phase 1 is optimal at once
    with the artificial variable a1 still basic, and there is no slack
    variable to take its place in Phase 2. *)

Module ScenarioFallback.

Definition params : Phase2Params :=
  mkPhase2Params [1] [[0; 1; 0]; [0; 1; 0]; [0; 0; 0]]
                 ["x1"; "a1"]%string ["a1"]%string "Maximize"%string.

Definition session : MaxScreen.Session := Phase2.createPhase2Table params.

End ScenarioFallback.

(** Scenario B: minimise x1 + x2 subject to 2 x1 + x2 = 4, x1 + 2 x2 = 3,
    as [createInitialPhase1Table] lays it out. *)

Module ScenarioB.

Definition objective : list Q := [1; 1].

Definition table0 : Tableau :=
  [[2; 1; 1; 0; 4];
   [1; 2; 0; 1; 3];
   [0; 0; 0; 0; 0];
   [0; 0; 0; 0; 0]].

Definition vars : list string := ["x1"; "x2"; "a1"; "a2"]%string.
Definition basics : list string := ["a1"; "a2"]%string.
Definition cjRow : list Q := [0; 0; 1; 1].

Definition computed : Engine.Computed :=
  Phase1.computeZjAndCjMinusZj table0 basics cjRow vars.

Definition session : Phase1.Session :=
  Phase1.mkSession (Engine.table computed) vars cjRow basics
                   (Engine.enteringVar computed) (Engine.leavingVar computed)
                   1 None false.

(** Phase 1 after "Solve to Optimal". *)
Definition phase1Final : Phase1.Session := fst (Phase1.handleSolveToOptimal session).

(** Phase 2 as created from the route parameters, then solved. *)
Definition phase2Start : option MaxScreen.Session :=
  option_map Phase2.createPhase2Table
             (Phase1.handleProceedToPhase2 objective "Minimize" phase1Final).

Definition phase2Final : option MaxScreen.Session :=
  option_map (fun s => fst (Phase2.handleSolveToOptimal s)) phase2Start.

(** The route parameters that "Proceed to Phase 2" hands over. *)
Definition params : Phase2Params :=
  mkPhase2Params objective (Phase1.simplexTable phase1Final)
                 (Phase1.variables phase1Final) (Phase1.basicVariables phase1Final)
                 "Minimize"%string.

(** The screen after "Solve to Optimal" and one firing of its timer: both
    pivots are committed, the timer of the third call of [solve] is pending. *)
Definition pending : Phase1.Screen :=
  Phase1.run None [MaxScreen.PressSolveToOptimal; MaxScreen.TimerFires]
             (Phase1.mkScreen session []).

End ScenarioB.

(** Scenario C: x1 + x2 <= 2 and x1 + x2 >= 5. *)

Module ScenarioC.

Definition objective : list Q := [1; 1].

Definition table0 : Tableau :=
  [[1; 1; 1; 0; 0; 2];
   [1; 1; 0; -1; 1; 5];
   [0; 0; 0; 0; 0; 0];
   [0; 0; 0; 0; 0; 0]].

Definition vars : list string := ["x1"; "x2"; "s1"; "e1"; "a1"]%string.
Definition basics : list string := ["s1"; "a1"]%string.
Definition cjRow : list Q := [0; 0; 0; 0; 1].

Definition computed : Engine.Computed :=
  Phase1.computeZjAndCjMinusZj table0 basics cjRow vars.

Definition session : Phase1.Session :=
  Phase1.mkSession (Engine.table computed) vars cjRow basics
                   (Engine.enteringVar computed) (Engine.leavingVar computed)
                   1 None false.

(** The session after the first press of "Next Iteration". *)
Definition session1 : Phase1.Session := Phase1.handleNextIteration session.

End ScenarioC.

(** Scenario E: a hundred decision variables with the constraints
    x_i = 1: Phase 1 needs one pivot per row. *)

Module ScenarioE.

Definition size : nat := 100.

Definition objective : list Q := repeat 1 size.

Definition constraintsMatrix : list (list Q) :=
  map (fun i => map (fun j => if (i =? j)%nat then 1 else 0) (seq 0 size)) (seq 0 size).

Definition rhs : list Q := repeat 1 size.

Definition constraintTypes : list string := repeat "="%string size.

Definition created : Phase1.Session * MaxScreen.Initial.State :=
  Phase1.createInitialPhase1Table objective constraintsMatrix rhs constraintTypes.

(** "Solve to Optimal", then its timers one after the other. *)
Definition events : list MaxScreen.Event :=
  MaxScreen.PressSolveToOptimal :: repeat MaxScreen.TimerFires size.

Definition final : Phase1.Screen :=
  Phase1.run (Some (snd created)) events (Phase1.mkScreen (fst created) []).

End ScenarioE.

(** * Properties *)

(** ** Comparisons and array primitives *)

Lemma Qltb_lt (x y : Q) : Qltb x y = true <-> x < y.
Proof.
  unfold Qltb. rewrite negb_true_iff. split; intro H.
  - apply Qnot_le_lt. intro Hle. apply Qle_bool_iff in Hle. congruence.
  - destruct (Qle_bool y x) eqn:E; [|reflexivity].
    apply Qle_bool_iff in E. exfalso. exact (Qlt_not_le _ _ H E).
Qed.

Lemma Qltb_ge (x y : Q) : Qltb x y = false <-> y <= x.
Proof.
  unfold Qltb. rewrite negb_false_iff. apply Qle_bool_iff.
Qed.

Lemma Qleb_le (x y : Q) : Qleb x y = true <-> x <= y.
Proof. apply Qle_bool_iff. Qed.

Lemma Qleb_gt (x y : Q) : Qleb x y = false <-> y < x.
Proof.
  unfold Qleb. split; intro H.
  - apply Qnot_le_lt. intro Hle. apply Qle_bool_iff in Hle. congruence.
  - destruct (Qle_bool x y) eqn:E; [|reflexivity].
    apply Qle_bool_iff in E. exfalso. exact (Qlt_not_le _ _ H E).
Qed.

Lemma fold_Qmax_upper (r : list Q) (x : Q) :
  x <= fold_left Qmax r x /\ forall y, In y r -> y <= fold_left Qmax r x.
Proof.
  revert x. induction r as [|a r IH]; intro x; simpl.
  - split; [apply Qle_refl | tauto].
  - destruct (IH (Qmax x a)) as [H1 H2]. split.
    + eapply Qle_trans; [apply Q.le_max_l | exact H1].
    + intros y [<- | Hy]; [|auto].
      eapply Qle_trans; [apply Q.le_max_r | exact H1].
Qed.

Lemma fold_Qmax_attained (r : list Q) (x : Q) :
  exists y, In y (x :: r) /\ y == fold_left Qmax r x.
Proof.
  revert x. induction r as [|a r IH]; intro x; simpl.
  - exists x. split; [auto | reflexivity].
  - destruct (IH (Qmax x a)) as [y [[Hy | Hy] Hm]].
    + subst y. destruct (Q.max_spec x a) as [[_ E] | [_ E]].
      * exists a. split; [auto|]. rewrite <- Hm. symmetry. exact E.
      * exists x. split; [auto|]. rewrite <- Hm. symmetry. exact E.
    + exists y. split; [auto | exact Hm].
Qed.

Lemma fold_Qmin_lower (r : list Q) (x : Q) :
  fold_left Qmin r x <= x /\ forall y, In y r -> fold_left Qmin r x <= y.
Proof.
  revert x. induction r as [|a r IH]; intro x; simpl.
  - split; [apply Qle_refl | tauto].
  - destruct (IH (Qmin x a)) as [H1 H2]. split.
    + eapply Qle_trans; [exact H1 | apply Q.le_min_l].
    + intros y [<- | Hy]; [|auto].
      eapply Qle_trans; [exact H1 | apply Q.le_min_r].
Qed.

Lemma fold_Qmin_attained (r : list Q) (x : Q) :
  exists y, In y (x :: r) /\ y == fold_left Qmin r x.
Proof.
  revert x. induction r as [|a r IH]; intro x; simpl.
  - exists x. split; [auto | reflexivity].
  - destruct (IH (Qmin x a)) as [y [[Hy | Hy] Hm]].
    + subst y. destruct (Q.min_spec x a) as [[_ E] | [_ E]].
      * exists x. split; [auto|]. rewrite <- Hm. symmetry. exact E.
      * exists a. split; [auto|]. rewrite <- Hm. symmetry. exact E.
    + exists y. split; [auto | exact Hm].
Qed.

(** [Math.max] returns an upper bound that occurs in the array. *)
Lemma mathMax_spec (xs : list Q) (m : Q) :
  mathMax xs = Some m ->
  (forall y, In y xs -> y <= m) /\ exists y, In y xs /\ y == m.
Proof.
  destruct xs as [|x r]; simpl; [discriminate|].
  intros [= <-]. split.
  - destruct (fold_Qmax_upper r x) as [H1 H2].
    intros y [<- | Hy]; [exact H1 | exact (H2 y Hy)].
  - apply fold_Qmax_attained.
Qed.

Lemma mathMin_spec (xs : list Q) (m : Q) :
  mathMin xs = Some m ->
  (forall y, In y xs -> m <= y) /\ exists y, In y xs /\ y == m.
Proof.
  destruct xs as [|x r]; simpl; [discriminate|].
  intros [= <-]. split.
  - destruct (fold_Qmin_lower r x) as [H1 H2].
    intros y [<- | Hy]; [exact H1 | exact (H2 y Hy)].
  - apply fold_Qmin_attained.
Qed.

(** [indexOf] finds the first position holding the value. *)
Lemma indexOfNum_Some (v : Q) (xs : list Q) (k : nat) :
  indexOfNum v xs = Some k ->
  (k < length xs)%nat /\ nth k xs 0 == v /\
  forall j, (j < k)%nat -> ~ nth j xs 0 == v.
Proof.
  revert k. induction xs as [|x r IH]; intro k; simpl; [discriminate|].
  destruct (Qeq_bool x v) eqn:E.
  - intros [= <-]. apply Qeq_bool_iff in E. repeat split; [lia | exact E | lia].
  - destruct (indexOfNum v r) as [k'|]; simpl; [|discriminate].
    intros [= <-]. destruct (IH k' eq_refl) as [H1 [H2 H3]].
    repeat split; [lia | exact H2 |].
    intros [|j] Hj.
    + intro Hx. apply Qeq_bool_iff in Hx. congruence.
    + apply H3. lia.
Qed.

Lemma indexOfNum_found (v : Q) (xs : list Q) :
  (exists y, In y xs /\ y == v) -> indexOfNum v xs <> None.
Proof.
  induction xs as [|x r IH]; intros [y [Hin Hy]]; simpl; [destruct Hin|].
  destruct (Qeq_bool x v) eqn:E; [discriminate|].
  destruct Hin as [<- | Hin].
  - apply Qeq_bool_iff in Hy. congruence.
  - destruct (indexOfNum v r); simpl; [discriminate|].
    exfalso. apply IH; [exists y; auto | reflexivity].
Qed.

Lemma indexOf_None (s : string) (xs : list string) :
  ~ In s xs -> indexOf s xs = None.
Proof.
  induction xs as [|x r IH]; intro H; simpl; [reflexivity|].
  destruct (String.eqb x s) eqn:E.
  - apply String.eqb_eq in E. exfalso. apply H. left. exact E.
  - rewrite IH; [reflexivity|]. intro Hin. apply H. right. exact Hin.
Qed.

Lemma setAt_length {A : Type} (l : list A) (i : nat) (v : A) :
  length (setAt l i v) = length l.
Proof.
  revert i. induction l as [|x r IH]; intros [|i]; simpl; auto.
Qed.

Lemma nth_setAt_eq {A : Type} (l : list A) (i : nat) (v d : A) :
  (i < length l)%nat -> nth i (setAt l i v) d = v.
Proof.
  revert i. induction l as [|x r IH]; intros [|i] H; simpl in *; try lia; auto.
  apply IH. lia.
Qed.

Lemma nth_setAt_neq {A : Type} (l : list A) (i j : nat) (v d : A) :
  i <> j -> nth j (setAt l i v) d = nth j l d.
Proof.
  revert i j. induction l as [|x r IH]; intros [|i] [|j] H; simpl; auto; try lia.
Qed.

Lemma wf_tableau_inv (t : Tableau) (basicVars : list string) (cjRow : list Q)
  (allVars : list string) :
  wf_tableau t basicVars cjRow allVars ->
  (2 <= length t)%nat /\
  (forall i, (i < length t)%nat -> length (nth i t []) = S (length allVars)) /\
  length basicVars = (length t - 2)%nat /\
  length cjRow = length allVars.
Proof.
  unfold wf_tableau, wf_tableaub. intro H.
  apply andb_prop in H as [H H4]. apply andb_prop in H as [H H3].
  apply andb_prop in H as [H1 H2].
  apply Nat.leb_le in H1. apply Nat.eqb_eq in H3, H4.
  rewrite forallb_forall in H2.
  repeat split; auto.
  intros i Hi. apply Nat.eqb_eq. apply H2. apply nth_In. exact Hi.
Qed.

(** ** Entering-variable selection *)

Lemma enteringMax_spec (V : list Q) :
  match Engine.enteringMax V with
  | None => forall y, In y V -> y <= eps10
  | Some None => False
  | Some (Some k) =>
      (k < length V)%nat /\ eps10 < nth k V 0 /\
      (forall j, (j < length V)%nat -> nth j V 0 <= nth k V 0) /\
      (forall j, (j < k)%nat -> nth j V 0 < nth k V 0)
  end.
Proof.
  unfold Engine.enteringMax.
  destruct (mathMax V) as [m|] eqn:Em.
  - destruct (mathMax_spec V m Em) as [Hub Hat].
    destruct (Qleb m eps10) eqn:El.
    + apply Qleb_le in El. intros y Hy.
      eapply Qle_trans; [apply Hub; exact Hy | exact El].
    + apply Qleb_gt in El.
      destruct (indexOfNum m V) as [k|] eqn:Ek.
      * destruct (indexOfNum_Some m V k Ek) as [Hk [Hv Hfirst]].
        repeat split.
        -- exact Hk.
        -- rewrite Hv. exact El.
        -- intros j Hj. rewrite Hv. apply Hub. apply nth_In. exact Hj.
        -- intros j Hj. rewrite Hv.
           assert (Hle : nth j V 0 <= m) by (apply Hub; apply nth_In; lia).
           apply Qle_lteq in Hle. destruct Hle as [Hlt | Heq]; [exact Hlt|].
           exfalso. exact (Hfirst j Hj Heq).
      * exact (indexOfNum_found m V Hat Ek).
  - destruct V; [intros y []|discriminate].
Qed.

Lemma enteringMin_spec (V : list Q) :
  match Engine.enteringMin V with
  | None => forall y, In y V -> - eps10 <= y
  | Some None => False
  | Some (Some k) =>
      (k < length V)%nat /\ nth k V 0 < - eps10 /\
      (forall j, (j < length V)%nat -> nth k V 0 <= nth j V 0) /\
      (forall j, (j < k)%nat -> nth k V 0 < nth j V 0)
  end.
Proof.
  unfold Engine.enteringMin.
  destruct (mathMin V) as [m|] eqn:Em.
  - destruct (mathMin_spec V m Em) as [Hlb Hat].
    destruct (Qleb (- eps10) m) eqn:El.
    + apply Qleb_le in El. intros y Hy.
      eapply Qle_trans; [exact El | apply Hlb; exact Hy].
    + apply Qleb_gt in El.
      destruct (indexOfNum m V) as [k|] eqn:Ek.
      * destruct (indexOfNum_Some m V k Ek) as [Hk [Hv Hfirst]].
        repeat split.
        -- exact Hk.
        -- rewrite Hv. exact El.
        -- intros j Hj. rewrite Hv. apply Hlb. apply nth_In. exact Hj.
        -- intros j Hj. rewrite Hv.
           assert (Hle : m <= nth j V 0) by (apply Hlb; apply nth_In; lia).
           apply Qle_lteq in Hle. destruct Hle as [Hlt | Heq]; [exact Hlt|].
           exfalso. apply (Hfirst j Hj). symmetry. exact Heq.
      * exact (indexOfNum_found m V Hat Ek).
  - destruct V; [intros y []|discriminate].
Qed.

(** ** Shape of the computed table *)

Lemma derivedTable_length (t : Tableau) b c v :
  (2 <= length t)%nat -> length (Engine.derivedTable t b c v) = length t.
Proof.
  intro H. unfold Engine.derivedTable.
  rewrite length_app, length_map, length_firstn. simpl. lia.
Qed.

Lemma derivedTable_row (t : Tableau) b c v (i : nat) :
  (i < length t - 2)%nat -> nth i (Engine.derivedTable t b c v) [] = nth i t [].
Proof.
  intro H. unfold Engine.derivedTable. rewrite map_id.
  rewrite app_nth1 by (rewrite length_firstn; lia).
  rewrite nth_firstn. apply Nat.ltb_lt in H. rewrite H. reflexivity.
Qed.

Lemma derivedTable_zj (t : Tableau) b c v :
  (2 <= length t)%nat ->
  nth (length t - 2) (Engine.derivedTable t b c v) [] = Engine.zjRow t b c v.
Proof.
  intro H. unfold Engine.derivedTable. rewrite map_id.
  rewrite app_nth2 by (rewrite length_firstn; lia).
  rewrite length_firstn.
  replace (length t - 2 - Nat.min (length t - 2) (length t))%nat with O by lia.
  reflexivity.
Qed.

Lemma derivedTable_cjZj (t : Tableau) b c v :
  (2 <= length t)%nat ->
  nth (length t - 1) (Engine.derivedTable t b c v) [] = Engine.cjZjRow t b c v.
Proof.
  intro H. unfold Engine.derivedTable. rewrite map_id.
  rewrite app_nth2 by (rewrite length_firstn; lia).
  rewrite length_firstn.
  replace (length t - 1 - Nat.min (length t - 2) (length t))%nat with 1%nat by lia.
  reflexivity.
Qed.

Lemma cjZjRow_length (t : Tableau) b c v :
  length (Engine.cjZjRow t b c v) = length (nth 0 t []).
Proof.
  unfold Engine.cjZjRow, Engine.cjZjRowRaw.
  rewrite !length_map, length_seq. reflexivity.
Qed.

Lemma zjRow_length (t : Tableau) b c v :
  length (Engine.zjRow t b c v) = length (nth 0 t []).
Proof.
  unfold Engine.zjRow, Engine.zjRowRaw.
  rewrite !length_map, length_seq. reflexivity.
Qed.

(** The three outcomes of [computeZjAndCjMinusZj] on a table with its two
    derived rows in place. *)
Lemma computeWith_cases (entering : list Q -> option (option nat))
  (t : Tableau) b c v :
  (2 <= length t)%nat ->
  let r := Engine.computeWith entering t b c v in
  Engine.table r = Engine.derivedTable t b c v /\
  match entering (firstn (length v) (Engine.cjZjRow t b c v)) with
  | Some (Some k) =>
      Engine.enteringVar r = nth_error v k /\
      Engine.leavingVar r =
        match Engine.ratioTest (Engine.derivedTable t b c v) lastOf (length t - 2) k with
        | None => None
        | Some i => nth_error b i
        end
  | _ => Engine.enteringVar r = None /\ Engine.leavingVar r = None
  end.
Proof.
  intros H r. subst r. unfold Engine.computeWith.
  destruct (length t <? 2)%nat eqn:E; [apply Nat.ltb_lt in E; lia|].
  destruct (entering _) as [[k|]|]; simpl; auto.
Qed.

Lemma cjZjOf_computeWith entering (t : Tableau) b c v (j : nat) :
  (2 <= length t)%nat ->
  cjZjOf (Engine.computeWith entering t b c v) j = nth j (Engine.cjZjRow t b c v) 0.
Proof.
  intro H. unfold cjZjOf, cell.
  destruct (computeWith_cases entering t b c v H) as [-> _].
  rewrite derivedTable_length by exact H.
  rewrite derivedTable_cjZj by exact H. reflexivity.
Qed.

Lemma zjOf_computeWith entering (t : Tableau) b c v (j : nat) :
  (2 <= length t)%nat ->
  zjOf (Engine.computeWith entering t b c v) j = nth j (Engine.zjRow t b c v) 0.
Proof.
  intro H. unfold zjOf, cell.
  destruct (computeWith_cases entering t b c v H) as [-> _].
  rewrite derivedTable_length by exact H.
  rewrite derivedTable_zj by exact H. reflexivity.
Qed.





(** ** Rounding to the nearest double *)

Lemma roundHalfEven_cases (q : Q) :
  roundHalfEven q = Qfloor q \/ roundHalfEven q = (Qfloor q + 1)%Z.
Proof.
  unfold roundHalfEven.
  destruct (Qcompare (q - inject_Z (Qfloor q)) (1 # 2)); [destruct (Z.even _)| |]; auto.
Qed.

Lemma roundHalfEven_inject (q : Q) (z : Z) : q == inject_Z z -> roundHalfEven q = z.
Proof.
  intro H. unfold roundHalfEven.
  assert (Hf : Qfloor q = z) by (rewrite H; apply Qfloor_Z).
  rewrite Hf.
  assert (Hc : Qcompare (q - inject_Z z) (1 # 2) = Lt).
  { rewrite <- Qlt_alt. rewrite H. lra. }
  rewrite Hc. reflexivity.
Qed.

Lemma roundHalfEven_mono (a b : Q) : a <= b -> (roundHalfEven a <= roundHalfEven b)%Z.
Proof.
  intro Hab.
  pose proof (Qfloor_resp_le a b Hab) as Hf.
  destruct (Z.eq_dec (Qfloor a) (Qfloor b)) as [E | Hne].
  - unfold roundHalfEven. rewrite <- E.
    destruct (Qcompare (a - inject_Z (Qfloor a)) (1 # 2)) eqn:Ca;
      destruct (Qcompare (b - inject_Z (Qfloor a)) (1 # 2)) eqn:Cb;
      try (destruct (Z.even (Qfloor a))); try lia;
      try (rewrite <- Qeq_alt in Ca); try (rewrite <- Qlt_alt in Ca);
      try (rewrite <- Qgt_alt in Ca);
      try (rewrite <- Qeq_alt in Cb); try (rewrite <- Qlt_alt in Cb);
      try (rewrite <- Qgt_alt in Cb); exfalso; lra.
  - destruct (roundHalfEven_cases a) as [-> | ->];
      destruct (roundHalfEven_cases b) as [-> | ->]; lia.
Qed.

Lemma roundHalfEven_le (a : Q) (z : Z) : a <= inject_Z z -> (roundHalfEven a <= z)%Z.
Proof.
  intro H. rewrite <- (roundHalfEven_inject (inject_Z z) z) by reflexivity.
  apply roundHalfEven_mono. exact H.
Qed.

Lemma roundHalfEven_ge (a : Q) (z : Z) : inject_Z z <= a -> (z <= roundHalfEven a)%Z.
Proof.
  intro H. rewrite <- (roundHalfEven_inject (inject_Z z) z) by reflexivity.
  apply roundHalfEven_mono. exact H.
Qed.

Lemma pow2_pos (e : Z) : 0 < 2 ^ e.
Proof. apply Qpower_0_lt. reflexivity. Qed.

Lemma pow2_plus (a b : Z) : 2 ^ (a + b) == 2 ^ a * 2 ^ b.
Proof. apply Qpower_plus. discriminate. Qed.

Lemma pow2_le (a b : Z) : (a <= b)%Z -> 2 ^ a <= 2 ^ b.
Proof. intro H. apply Qpower_le_compat_l; [exact H | discriminate]. Qed.

Lemma pow2_lt_inv (a b : Z) : 2 ^ a < 2 ^ b -> (a < b)%Z.
Proof. intro H. apply (Qpower_lt_compat_l_inv 2); [exact H | reflexivity]. Qed.

Lemma pow2_Z (k : Z) : (0 <= k)%Z -> 2 ^ k == inject_Z (2 ^ k).
Proof. intro H. rewrite (Zpower_Qpower 2 k H). reflexivity. Qed.

Lemma inject_Z_pos (z : Z) : (0 < z)%Z -> 0 < inject_Z z.
Proof. intro H. change (inject_Z 0 < inject_Z z). rewrite <- Zlt_Qlt. exact H. Qed.

Lemma Qabs_fraction (q : Q) :
  Qabs q == inject_Z (Z.abs (Qnum q)) / inject_Z (Z.pos (Qden q)).
Proof.
  destruct q as [n d]. simpl. unfold Qabs. simpl. apply Qmake_Qdiv.
Qed.

Lemma binade_spec (q : Q) :
  ~ q == 0 -> 2 ^ binade q <= Qabs q /\ Qabs q < 2 ^ (binade q + 1).
Proof.
  intro Hq.
  set (N := Z.abs (Qnum q)). set (D := Z.pos (Qden q)).
  assert (HN : (0 < N)%Z).
  { unfold N. destruct q as [n d]. unfold Qeq in Hq. simpl in *. lia. }
  assert (HD : (0 < D)%Z) by (unfold D; lia).
  pose proof (Z.log2_spec N HN) as [Ha1 Ha2].
  pose proof (Z.log2_spec D HD) as [Hb1 Hb2].
  pose proof (Z.log2_nonneg N) as Ha0.
  pose proof (Z.log2_nonneg D) as Hb0.
  set (a := Z.log2 N) in *. set (b := Z.log2 D) in *.
  assert (Habs : Qabs q == inject_Z N / inject_Z D) by apply Qabs_fraction.
  assert (HDq : 0 < inject_Z D) by (apply inject_Z_pos; exact HD).
  assert (Hup : Qabs q < 2 ^ (a - b + 1)).
  { replace (a - b + 1)%Z with ((a + 1) - b)%Z by lia.
    rewrite Qpower_minus by discriminate.
    rewrite (pow2_Z (a + 1)), (pow2_Z b) by lia. rewrite Habs.
    assert (HB : 0 < inject_Z (2 ^ b)) by (apply inject_Z_pos; lia).
    apply Qlt_shift_div_l; [exact HB|].
    unfold Qdiv. rewrite <- Qmult_assoc, (Qmult_comm (/ inject_Z D)), Qmult_assoc.
    apply Qlt_shift_div_r; [exact HDq|].
    rewrite <- !inject_Z_mult. rewrite <- Zlt_Qlt.
    replace (Z.succ a) with (a + 1)%Z in Ha2 by lia. nia. }
  assert (Hlow : 2 ^ (a - b - 1) <= Qabs q).
  { replace (a - b - 1)%Z with (a - (b + 1))%Z by lia.
    rewrite Qpower_minus by discriminate.
    rewrite (pow2_Z a), (pow2_Z (b + 1)) by lia. rewrite Habs.
    assert (HB : 0 < inject_Z (2 ^ (b + 1))) by (apply inject_Z_pos; lia).
    apply Qle_shift_div_r; [exact HB|].
    unfold Qdiv. rewrite <- Qmult_assoc, (Qmult_comm (/ inject_Z D)), Qmult_assoc.
    apply Qle_shift_div_l; [exact HDq|].
    rewrite <- !inject_Z_mult. rewrite <- Zle_Qle.
    replace (Z.succ b) with (b + 1)%Z in Hb2 by lia. nia. }
  unfold binade. fold N D a b.
  destruct (Qleb (2 ^ (a - b)) (Qabs q)) eqn:E.
  - unfold Qleb in E. apply Qle_bool_iff in E. split; [exact E | exact Hup].
  - assert (Hlt : Qabs q < 2 ^ (a - b)).
    { apply Qnot_le_lt. intro H. apply Qle_bool_iff in H. unfold Qleb in E. congruence. }
    split; [exact Hlow|]. replace (a - b - 1 + 1)%Z with (a - b)%Z by lia. exact Hlt.
Qed.

Lemma binade_unique (q : Q) (e : Z) :
  ~ q == 0 -> 2 ^ e <= Qabs q -> Qabs q < 2 ^ (e + 1) -> binade q = e.
Proof.
  intros Hq H1 H2. destruct (binade_spec q Hq) as [S1 S2].
  assert (A : (binade q < e + 1)%Z) by (apply pow2_lt_inv; lra).
  assert (B : (e < binade q + 1)%Z) by (apply pow2_lt_inv; lra).
  lia.
Qed.

Lemma binade_mono (q q' : Q) :
  ~ q == 0 -> ~ q' == 0 -> Qabs q <= Qabs q' -> (binade q <= binade q')%Z.
Proof.
  intros Hq Hq' H. destruct (binade_spec q Hq) as [S1 _].
  destruct (binade_spec q' Hq') as [_ S2'].
  assert (A : (binade q < binade q' + 1)%Z) by (apply pow2_lt_inv; lra).
  lia.
Qed.

Lemma binade_below (q : Q) (e : Z) :
  ~ q == 0 -> Qabs q < 2 ^ e -> (binade q < e)%Z.
Proof.
  intros Hq H. destruct (binade_spec q Hq) as [S1 _]. apply pow2_lt_inv. lra.
Qed.

Lemma roundDouble_zero (q : Q) : q == 0 -> roundDouble q = 0.
Proof.
  intro H. unfold roundDouble.
  rewrite (proj2 (Qeq_bool_iff q 0) H). reflexivity.
Qed.

Lemma roundDouble_roundAt (q : Q) :
  ~ q == 0 -> roundDouble q == roundAt (ulpExponent q) q.
Proof.
  intro H. unfold roundDouble.
  destruct (Qeq_bool q 0) eqn:E; [apply Qeq_bool_iff in E; contradiction|].
  apply Qred_correct.
Qed.

Lemma roundAt_le_grid (E : Z) (a : Q) (m : Z) :
  a <= inject_Z m * 2 ^ E -> roundAt E a <= inject_Z m * 2 ^ E.
Proof.
  intro H. pose proof (pow2_pos E) as HP. unfold roundAt.
  apply Qmult_le_compat_r; [|lra].
  rewrite <- Zle_Qle. apply roundHalfEven_le.
  apply Qle_shift_div_r; [exact HP | exact H].
Qed.

Lemma roundAt_ge_grid (E : Z) (a : Q) (m : Z) :
  inject_Z m * 2 ^ E <= a -> inject_Z m * 2 ^ E <= roundAt E a.
Proof.
  intro H. pose proof (pow2_pos E) as HP. unfold roundAt.
  apply Qmult_le_compat_r; [|lra].
  rewrite <- Zle_Qle. apply roundHalfEven_ge.
  apply Qle_shift_div_l; [exact HP | exact H].
Qed.

Lemma roundDouble_nonpos (q : Q) : q <= 0 -> roundDouble q <= 0.
Proof.
  intro H. destruct (Qeq_dec q 0) as [E | Hne].
  - rewrite (roundDouble_zero q E). lra.
  - rewrite (roundDouble_roundAt q Hne).
    assert (Z0 : inject_Z 0 * 2 ^ ulpExponent q == 0) by apply Qmult_0_l.
    assert (G : roundAt (ulpExponent q) q <= inject_Z 0 * 2 ^ ulpExponent q)
      by (apply roundAt_le_grid; rewrite Z0; exact H).
    rewrite Z0 in G. exact G.
Qed.

Lemma roundDouble_nonneg (q : Q) : 0 <= q -> 0 <= roundDouble q.
Proof.
  intro H. destruct (Qeq_dec q 0) as [E | Hne].
  - rewrite (roundDouble_zero q E). lra.
  - rewrite (roundDouble_roundAt q Hne).
    assert (Z0 : inject_Z 0 * 2 ^ ulpExponent q == 0) by apply Qmult_0_l.
    assert (G : inject_Z 0 * 2 ^ ulpExponent q <= roundAt (ulpExponent q) q)
      by (apply roundAt_ge_grid; rewrite Z0; exact H).
    rewrite Z0 in G. exact G.
Qed.

Lemma ulpExponent_mono (q q' : Q) :
  ~ q == 0 -> ~ q' == 0 -> Qabs q <= Qabs q' -> (ulpExponent q <= ulpExponent q')%Z.
Proof.
  intros Hq Hq' H. pose proof (binade_mono q q' Hq Hq' H). unfold ulpExponent. lia.
Qed.

Lemma pow2_shift (k e : Z) : (0 <= k)%Z -> 2 ^ (e + k) == inject_Z (2 ^ k) * 2 ^ e.
Proof.
  intro H. rewrite pow2_plus, (pow2_Z k H). ring.
Qed.

(** A double is a multiple of the unit of every grid not coarser than its own. *)
Lemma roundDouble_on_grid (a : Q) (E' : Z) :
  ~ roundDouble a == 0 -> (E' <= ulpExponent (roundDouble a))%Z ->
  exists m : Z, roundDouble a == inject_Z m * 2 ^ E'.
Proof.
  intros Hx HE'.
  assert (Ha : ~ a == 0).
  { intro E. apply Hx. rewrite (roundDouble_zero a E). reflexivity. }
  set (E := ulpExponent a).
  set (k := roundHalfEven (a / 2 ^ E)).
  assert (Hxk : roundDouble a == inject_Z k * 2 ^ E) by (apply roundDouble_roundAt; exact Ha).
  pose proof (pow2_pos E) as HP.
  destruct (binade_spec a Ha) as [_ Hup].
  assert (HE : (binade a + 1 <= E + 53)%Z) by (unfold E, ulpExponent; lia).
  assert (HEmin : (-1074 <= E)%Z) by (unfold E, ulpExponent; lia).
  assert (Hbound : Qabs a <= inject_Z (2 ^ 53) * 2 ^ E).
  { rewrite <- pow2_shift by lia. pose proof (pow2_le _ _ HE). lra. }
  assert (Hk1 : (k <= 2 ^ 53)%Z).
  { apply roundHalfEven_le. apply Qle_shift_div_r; [exact HP|].
    pose proof (Qle_Qabs a). lra. }
  assert (Hk2 : (- 2 ^ 53 <= k)%Z).
  { apply roundHalfEven_ge. apply Qle_shift_div_l; [exact HP|].
    rewrite inject_Z_opp.
    pose proof (Qle_Qabs (- a)). rewrite Qabs_opp in H. lra. }
  clearbody k.
  destruct (Z_le_gt_dec E' E) as [Hle | Hgt].
  - exists (k * 2 ^ (E - E'))%Z.
    rewrite Hxk, inject_Z_mult.
    replace E with (E' + (E - E'))%Z at 1 by lia.
    rewrite pow2_shift by lia. ring.
  - (* the grid asked for is coarser than that of [a]: the rounding reached
       the next power of two *)
    assert (Habsx : Qabs (roundDouble a) == inject_Z (Z.abs k) * 2 ^ E).
    { rewrite Hxk, Qabs_Qmult. rewrite (Qabs_pos (2 ^ E)) by lra.
      apply Qmult_comp; [|reflexivity].
      unfold Qabs, inject_Z. simpl. reflexivity. }
    assert (Hbig : (2 ^ 53 <= Z.abs k)%Z).
    { destruct (Z_lt_le_dec (Z.abs k) (2 ^ 53)) as [Hlt | Hge]; [|exact Hge].
      exfalso.
      assert (Hlt' : Qabs (roundDouble a) < 2 ^ (E + 53)).
      { rewrite Habsx, pow2_shift by lia.
        apply Qmult_lt_compat_r; [exact HP|]. rewrite <- Zlt_Qlt. exact Hlt. }
      pose proof (binade_below _ _ Hx Hlt') as Hb.
      unfold ulpExponent in HE'. lia. }
    assert (Hkabs : Z.abs k = (2 ^ 53)%Z) by lia.
    assert (Hbx : binade (roundDouble a) = (E + 53)%Z).
    { apply binade_unique; [exact Hx | |].
      - rewrite Habsx, Hkabs, pow2_shift by lia. lra.
      - rewrite Habsx, Hkabs.
        replace (E + 53 + 1)%Z with (E + 54)%Z by lia.
        rewrite (pow2_shift 54 E) by lia.
        apply Qmult_lt_compat_r; [exact HP|]. rewrite <- Zlt_Qlt. reflexivity. }
    assert (HE'eq : E' = (E + 1)%Z) by (unfold ulpExponent in HE'; lia).
    exists (k / 2)%Z.
    rewrite Hxk, HE'eq.
    rewrite (pow2_shift 1 E) by lia.
    assert (Hk : k = (2 * (k / 2))%Z).
    { assert (Hcases : k = (2 ^ 53)%Z \/ k = (- 2 ^ 53)%Z) by lia.
      destruct Hcases as [-> | ->]; reflexivity. }
    rewrite Hk at 1. rewrite inject_Z_mult.
    change (inject_Z (2 ^ 1)) with (inject_Z 2). ring.
Qed.

(** Subtracting a non-negative amount from a double and rounding never
    gives more than the double. *)
Lemma roundDouble_sub_le (a d : Q) :
  0 <= d -> roundDouble (roundDouble a - d) <= roundDouble a.
Proof.
  intro Hd.
  set (x := roundDouble a). set (z := x - d).
  destruct (Qeq_dec z 0) as [Ez | Hz].
  - rewrite (roundDouble_zero z Ez). unfold z in Ez. lra.
  - destruct (Qlt_le_dec z 0) as [Hzneg | Hzpos].
    + (* z < 0 *)
      destruct (Qlt_le_dec x 0) as [Hxneg | Hxpos].
      * (* x < 0: both negative, |x| <= |z| *)
        assert (Hx : ~ x == 0) by lra.
        assert (Habs : Qabs x <= Qabs z).
        { rewrite (Qabs_neg x), (Qabs_neg z) by lra. unfold z. lra. }
        pose proof (ulpExponent_mono x z Hx Hz Habs) as HE.
        rewrite (roundDouble_roundAt z Hz).
        destruct (Z.eq_dec (ulpExponent z) (ulpExponent x)) as [Eeq | Hne].
        -- destruct (roundDouble_on_grid a (ulpExponent z)) as [m Hm];
             [exact Hx | fold x; lia |].
           fold x in Hm. rewrite Hm. apply roundAt_le_grid. rewrite <- Hm. unfold z. lra.
        -- assert (Hb : (binade x < binade z)%Z /\ ulpExponent z = (binade z - 52)%Z)
             by (unfold ulpExponent in *; lia).
           destruct Hb as [Hb HEz].
           destruct (binade_spec z Hz) as [Sz _].
           destruct (binade_spec x Hx) as [_ Sx].
           assert (Hgrid : inject_Z (- 2 ^ 52) * 2 ^ ulpExponent z == - 2 ^ binade z).
           { assert (Hs : 2 ^ binade z == inject_Z (2 ^ 52) * 2 ^ ulpExponent z).
             { rewrite <- pow2_shift by lia.
               replace (ulpExponent z + 52)%Z with (binade z) by lia. reflexivity. }
             rewrite Hs, inject_Z_opp. ring. }
           assert (G : roundAt (ulpExponent z) z
                       <= inject_Z (- 2 ^ 52) * 2 ^ ulpExponent z).
           { apply roundAt_le_grid. rewrite Hgrid.
             rewrite (Qabs_neg z) in Sz by lra. lra. }
           rewrite Hgrid in G.
           assert (Hp : 2 ^ (binade x + 1) <= 2 ^ binade z) by (apply pow2_le; lia).
           rewrite (Qabs_neg x) in Sx by lra. lra.
      * pose proof (roundDouble_nonpos z (Qlt_le_weak _ _ Hzneg)). lra.
    + (* 0 < z <= x *)
      assert (Hzp : 0 < z).
      { destruct (Qle_lt_or_eq _ _ Hzpos) as [H | H]; [exact H|].
        exfalso. apply Hz. symmetry. exact H. }
      assert (Hx : ~ x == 0) by (unfold z in Hzp; lra).
      assert (Habs : Qabs z <= Qabs x).
      { rewrite (Qabs_pos x), (Qabs_pos z) by (unfold z in *; lra). unfold z. lra. }
      pose proof (ulpExponent_mono z x Hz Hx Habs) as HE.
      rewrite (roundDouble_roundAt z Hz).
      destruct (roundDouble_on_grid a (ulpExponent z)) as [m Hm];
        [exact Hx | fold x; exact HE |].
      fold x in Hm. rewrite Hm. apply roundAt_le_grid. rewrite <- Hm. unfold z. lra.
Qed.

(** ** Ratio test *)



Lemma eps12_lt_eps10 : eps12 < eps10.
Proof. reflexivity. Qed.

Lemma thresholdBelow_le (eps : Q) (t : Tableau) (rhsOf : list Q -> Q) (e p : nat) :
  0 <= eps ->
  thresholdBelow eps (ratioOf t rhsOf e p) <= ratioOf t rhsOf e p.
Proof.
  intro H. unfold thresholdBelow, ratioOf.
  apply roundDouble_sub_le. apply roundDouble_nonneg. exact H.
Qed.

Lemma ratioStep_inv (t : Tableau) (rhsOf : list Q -> Q) (e n : nat) st :
  ratioInv t rhsOf e n st ->
  ratioInv t rhsOf e (S n) (Engine.ratioStep t rhsOf e st n).
Proof.
  assert (Hpos : 0 <= eps10) by discriminate.
  destruct st as [m idx]. unfold ratioInv, Engine.ratioStep. simpl.
  fold (ratioOf t rhsOf e n).
  intro Inv.
  destruct (Qltb eps10 (cell t n e)) eqn:Ecol.
  - apply Qltb_lt in Ecol.
    destruct (Qleb (- eps10) (ratioOf t rhsOf e n)) eqn:Erat; simpl.
    + apply Qleb_le in Erat.
      destruct (Engine.belowMin (ratioOf t rhsOf e n) m) eqn:Ebel; simpl.
      * (* the row becomes the current choice *)
        split; [lia|]. split; [split; assumption|]. split; [reflexivity|]. split.
        -- intros i Hi Hq. destruct idx as [r|].
           ++ destruct Inv as [Hr [_ [Hm [Hbefore Hafter]]]]. subst m.
              simpl in Ebel. apply Qltb_lt in Ebel.
              fold (thresholdBelow eps10 (ratioOf t rhsOf e r)) in Ebel.
              pose proof (thresholdBelow_le eps10 t rhsOf e r Hpos) as Hthr.
              destruct (Nat.lt_trichotomy i r) as [Hlt | [Heq | Hgt]].
              ** specialize (Hbefore i Hlt Hq). lra.
              ** subst i. lra.
              ** assert (Hin : (r < i < n)%nat) by lia.
                 specialize (Hafter i Hin Hq). lra.
           ++ destruct Inv as [_ Hnone]. exfalso. exact (Hnone i Hi Hq).
        -- intros i Hi. lia.
      * (* not below the threshold of the current choice: kept *)
        destruct idx as [r|].
        -- destruct Inv as [Hr [Hq [Hm [Hbefore Hafter]]]]. subst m.
           simpl in Ebel. apply Qltb_ge in Ebel.
           fold (thresholdBelow eps10 (ratioOf t rhsOf e r)) in Ebel.
           split; [lia|]. split; [exact Hq|]. split; [reflexivity|]. split; [exact Hbefore|].
           intros i Hi Hqi. destruct (Nat.eq_dec i n) as [-> | Hne].
           ++ exact Ebel.
           ++ apply Hafter; [lia | exact Hqi].
        -- destruct Inv as [Hm _]. subst m. simpl in Ebel. discriminate.
    + apply Qleb_gt in Erat.
      destruct idx as [r|].
      * destruct Inv as [Hr [Hq [Hm [Hbefore Hafter]]]].
        split; [lia|]. split; [exact Hq|]. split; [exact Hm|]. split; [exact Hbefore|].
        intros i Hi Hqi. destruct (Nat.eq_dec i n) as [-> | Hne].
        -- destruct Hqi as [_ Hge]. exfalso. exact (Qlt_not_le _ _ Erat Hge).
        -- apply Hafter; [lia | exact Hqi].
      * destruct Inv as [Hm Hnone]. split; [exact Hm|].
        intros i Hi Hqi. destruct (Nat.eq_dec i n) as [-> | Hne].
        -- destruct Hqi as [_ Hge]. exact (Qlt_not_le _ _ Erat Hge).
        -- apply (Hnone i); [lia | exact Hqi].
  - apply Qltb_ge in Ecol.
    destruct idx as [r|].
    + destruct Inv as [Hr [Hq [Hm [Hbefore Hafter]]]].
      split; [lia|]. split; [exact Hq|]. split; [exact Hm|]. split; [exact Hbefore|].
      intros i Hi Hqi. destruct (Nat.eq_dec i n) as [-> | Hne].
      * destruct Hqi as [Hgt _]. exfalso. exact (Qlt_not_le _ _ Hgt Ecol).
      * apply Hafter; [lia | exact Hqi].
    + destruct Inv as [Hm Hnone]. split; [exact Hm|].
      intros i Hi Hqi. destruct (Nat.eq_dec i n) as [-> | Hne].
      * destruct Hqi as [Hgt _]. exact (Qlt_not_le _ _ Hgt Ecol).
      * apply (Hnone i); [lia | exact Hqi].
Qed.

Lemma ratioLoop_inv (t : Tableau) (rhsOf : list Q -> Q) (rowsCount e : nat) :
  ratioInv t rhsOf e rowsCount (Engine.ratioLoop t rhsOf rowsCount e).
Proof.
  unfold Engine.ratioLoop. induction rowsCount as [|n IH].
  - simpl. unfold ratioInv. simpl. split; [reflexivity|]. intros i Hi. lia.
  - rewrite seq_S, fold_left_app. simpl. apply ratioStep_inv. exact IH.
Qed.

(** The scan of the ratio test, read off its result. *)
Lemma ratioTest_spec (t : Tableau) (rhsOf : list Q -> Q) (rowsCount e : nat) :
  match Engine.ratioTest t rhsOf rowsCount e with
  | None => forall i, (i < rowsCount)%nat -> ~ qualifies t rhsOf e i
  | Some r =>
      (r < rowsCount)%nat /\ qualifies t rhsOf e r /\
      (forall i, (i < r)%nat -> qualifies t rhsOf e i ->
                 ratioOf t rhsOf e r < ratioOf t rhsOf e i) /\
      (forall i, (r < i < rowsCount)%nat -> qualifies t rhsOf e i ->
                 thresholdBelow eps10 (ratioOf t rhsOf e r) <= ratioOf t rhsOf e i)
  end.
Proof.
  pose proof (ratioLoop_inv t rhsOf rowsCount e) as H.
  unfold Engine.ratioTest. unfold ratioInv in H.
  destruct (snd (Engine.ratioLoop t rhsOf rowsCount e)) as [r|].
  - destruct H as [H1 [H2 [_ [H3 H4]]]]. auto.
  - destruct H as [_ H]. exact H.
Qed.

Lemma ratioTest_None_iff (t : Tableau) (rhsOf : list Q -> Q) (rowsCount e : nat) :
  Engine.ratioTest t rhsOf rowsCount e = None <->
  forall i, (i < rowsCount)%nat -> ~ qualifies t rhsOf e i.
Proof.
  pose proof (ratioTest_spec t rhsOf rowsCount e) as H.
  destruct (Engine.ratioTest t rhsOf rowsCount e) as [r|].
  - destruct H as [Hr [Hq _]]. split; [discriminate|].
    intro Hall. exfalso. exact (Hall r Hr Hq).
  - split; auto.
Qed.





(** ** Gauss-Jordan pivot *)






Lemma performPivot_error_iff (t : Tableau) (pr pc : nat) :
  (exists msg, Engine.performPivot t pr pc = inl msg) <-> Qabs (cell t pr pc) < eps12.
Proof.
  unfold Engine.performPivot. rewrite map_id.
  destruct (Qltb (Qabs (cell t pr pc)) eps12) eqn:E.
  - apply Qltb_lt in E. split; [intros _; exact E | intros _; eauto].
  - apply Qltb_ge in E. split.
    + intros [msg Hm]. discriminate.
    + intro H. exfalso. exact (Qlt_not_le _ _ H E).
Qed.




(** ** Derived rows *)

Lemma nth_map_seq {A : Type} (f : nat -> A) (n j : nat) (d : A) :
  (j < n)%nat -> nth j (map f (seq 0 n)) d = f j.
Proof.
  intro Hj.
  rewrite nth_indep with (d' := f 0%nat) by (rewrite length_map, length_seq; exact Hj).
  rewrite map_nth, seq_nth by exact Hj. reflexivity.
Qed.

Lemma nth_map_clean10 (l : list Q) (j : nat) :
  (j < length l)%nat -> nth j (map Engine.clean10 l) 0 = Engine.clean10 (nth j l 0).
Proof.
  intro Hj.
  rewrite nth_indep with (d' := Engine.clean10 0) by (rewrite length_map; exact Hj).
  apply map_nth.
Qed.

Lemma clean10_snapped (x : Q) :
  Qabs (Engine.clean10 x) < eps10 -> Engine.clean10 x = 0.
Proof.
  unfold Engine.clean10. destruct (Qltb (Qabs x) eps10) eqn:E; [reflexivity|].
  apply Qltb_ge in E. intro H. exfalso. exact (Qlt_not_le _ _ H E).
Qed.

Lemma nth_clean10_snapped (l : list Q) (j : nat) :
  Qabs (nth j (map Engine.clean10 l) 0) < eps10 -> nth j (map Engine.clean10 l) 0 = 0.
Proof.
  destruct (Nat.lt_ge_cases j (length l)) as [Hj | Hj].
  - rewrite nth_map_clean10 by exact Hj. apply clean10_snapped.
  - intros _. apply nth_overflow. rewrite length_map. exact Hj.
Qed.

Lemma zjSum_sumRows (t : Tableau) (cb : list Q) (n j : nat) :
  Engine.zjSum t cb n j = sumRows (fun i => nth i cb 0 * cell t i j) n.
Proof.
  unfold Engine.zjSum. induction n as [|n IH]; [reflexivity|].
  rewrite seq_S, fold_left_app. simpl. rewrite IH. reflexivity.
Qed.

Lemma sumRows_ext (f g : nat -> Q) (n : nat) :
  (forall i, (i < n)%nat -> f i = g i) -> sumRows f n = sumRows g n.
Proof.
  induction n as [|n IH]; intro H; simpl; [reflexivity|].
  rewrite IH by (intros i Hi; apply H; lia). rewrite H by lia. reflexivity.
Qed.

Lemma zjSum_weightedColumn (t : Tableau) b c v (j : nat) :
  length b = (length t - 2)%nat ->
  Engine.zjSum t (Engine.cbValues b c v) (length t - 2) j = weightedColumn t b c v j.
Proof.
  intro Hb. rewrite zjSum_sumRows. unfold weightedColumn. apply sumRows_ext.
  intros i Hi. unfold Engine.cbValues.
  rewrite nth_indep with (d' := Engine.cbOf v c ""%string)
    by (rewrite length_map; lia).
  rewrite map_nth. reflexivity.
Qed.

(** The CB lookup of the code finds the coefficient that stands beside the
    first occurrence of the name. *)
Lemma cbOf_objectiveCoefficient (allVars : list string) (cjRow : list Q) (b : string) :
  Engine.cbOf allVars cjRow b = objectiveCoefficient allVars cjRow b.
Proof.
  revert cjRow. induction allVars as [|v vs IH]; intro cjRow.
  - destruct cjRow; reflexivity.
  - destruct cjRow as [|c cs]; unfold Engine.cbOf; simpl.
    + destruct (String.eqb v b); [reflexivity|].
      destruct (indexOf b vs) as [k|]; reflexivity.
    + destruct (String.eqb v b); [reflexivity|].
      rewrite <- IH. unfold Engine.cbOf.
      destruct (indexOf b vs) as [k|]; reflexivity.
Qed.

Lemma weightedColumn_formula (t : Tableau) b c v (col : nat) :
  weightedColumn t b c v col = zjFormula t b c v col.
Proof.
  unfold weightedColumn, zjFormula. apply sumRows_ext. intros i _.
  rewrite cbOf_objectiveCoefficient. reflexivity.
Qed.

Lemma clean10_cases (x : Q) :
  (Qabs x < eps10 -> Engine.clean10 x = 0) /\
  (~ Qabs x < eps10 -> Engine.clean10 x = x).
Proof.
  unfold Engine.clean10. destruct (Qltb (Qabs x) eps10) eqn:E.
  - apply Qltb_lt in E. split; [reflexivity|]. intro H. exfalso. exact (H E).
  - apply Qltb_ge in E. split; [|reflexivity]. intro H. exfalso.
    exact (Qlt_not_le _ _ H E).
Qed.

Lemma derived_rows_clean10 (entering : list Q -> option (option nat))
  (t : Tableau) (basicVars : list string) (cjRow : list Q) (allVars : list string) :
  wf_tableau t basicVars cjRow allVars ->
  let r := Engine.computeWith entering t basicVars cjRow allVars in
  let sum := weightedColumn t basicVars cjRow allVars in
  (forall col, (col <= length allVars)%nat -> zjOf r col = Engine.clean10 (sum col)) /\
  (forall col, (col < length allVars)%nat ->
               cjZjOf r col = Engine.clean10 (nth col cjRow 0 - sum col)) /\
  cjZjOf r (length allVars) = 0 /\
  (forall col, Qabs (zjOf r col) < eps10 -> zjOf r col = 0) /\
  (forall col, Qabs (cjZjOf r col) < eps10 -> cjZjOf r col = 0).
Proof.
  intros Hwf r sum.
  destruct (wf_tableau_inv _ _ _ _ Hwf) as [H2 [Hrows [Hb Hc]]].
  assert (Hcols : length (nth 0 t []) = S (length allVars)) by (apply Hrows; lia).
  assert (Hz : forall col, zjOf r col = nth col (Engine.zjRow t basicVars cjRow allVars) 0)
    by (intro col; apply zjOf_computeWith; exact H2).
  assert (Hd : forall col, cjZjOf r col = nth col (Engine.cjZjRow t basicVars cjRow allVars) 0)
    by (intro col; apply cjZjOf_computeWith; exact H2).
  assert (Hraw : forall col, (col <= length allVars)%nat ->
            nth col (Engine.zjRowRaw t (Engine.cbValues basicVars cjRow allVars)
                       (length t - 2) (length (nth 0 t []))) 0 = sum col).
  { intros col Hcol. unfold Engine.zjRowRaw.
    rewrite nth_map_seq by lia. apply zjSum_weightedColumn. exact Hb. }
  assert (Hcj : forall col, (col <= length allVars)%nat ->
            cjZjOf r col =
            Engine.clean10 (if (col <? length cjRow)%nat
                            then nth col cjRow 0 - sum col else 0)).
  { intros col Hcol. rewrite Hd. unfold Engine.cjZjRow.
    rewrite nth_map_clean10
      by (unfold Engine.cjZjRowRaw; rewrite length_map, length_seq; lia).
    unfold Engine.cjZjRowRaw at 1. rewrite nth_map_seq by lia.
    rewrite Hraw by exact Hcol. reflexivity. }
  split; [|split; [|split; [|split]]].
  - intros col Hcol. rewrite Hz. unfold Engine.zjRow.
    rewrite nth_map_clean10
      by (unfold Engine.zjRowRaw; rewrite length_map, length_seq; lia).
    rewrite Hraw by exact Hcol. reflexivity.
  - intros col Hcol. rewrite Hcj by lia.
    assert (E : (col <? length cjRow)%nat = true) by (apply Nat.ltb_lt; lia).
    rewrite E. reflexivity.
  - rewrite Hcj by lia.
    assert (E : (length allVars <? length cjRow)%nat = false) by (apply Nat.ltb_ge; lia).
    rewrite E. reflexivity.
  - intro col. rewrite Hz. apply nth_clean10_snapped.
  - intro col. rewrite Hd. apply nth_clean10_snapped.
Qed.

(** C4.  On a well-formed tableau, write S(col) for the sum over the
    constraint rows of (objective coefficient of the row's basic variable)
    x (entry of the row in column col), the coefficient being the Cj entry
    beside the first occurrence of the basis name in the variable list.  In
    every column, RHS included, the Zj row holds S(col), except that it
    holds exactly 0 when |S(col)| < 1e-10.  In every variable column the
    Cj-Zj row holds Cj[col] - S(col), except that it holds exactly 0 when
    that difference is below 1e-10 in absolute value; under the RHS it
    holds 0.  The constraint rows are copied unchanged.  The three screens
    share this code, so the statement is made for any entering rule. *)
Theorem derived_rows_formula (entering : list Q -> option (option nat))
  (t : Tableau) (basicVars : list string) (cjRow : list Q) (allVars : list string) :
  wf_tableau t basicVars cjRow allVars ->
  let r := Engine.computeWith entering t basicVars cjRow allVars in
  let S := zjFormula t basicVars cjRow allVars in
  (forall col, (col <= length allVars)%nat ->
     (Qabs (S col) < eps10 -> zjOf r col = 0) /\
     (~ Qabs (S col) < eps10 -> zjOf r col = S col)) /\
  (forall col, (col < length allVars)%nat ->
     (Qabs (nth col cjRow 0 - S col) < eps10 -> cjZjOf r col = 0) /\
     (~ Qabs (nth col cjRow 0 - S col) < eps10 ->
      cjZjOf r col = nth col cjRow 0 - S col)) /\
  cjZjOf r (length allVars) = 0 /\
  length (Engine.table r) = length t /\
  (forall i, (i < length t - 2)%nat -> nth i (Engine.table r) [] = nth i t []).
Proof.
  intros Hwf r S.
  destruct (derived_rows_clean10 entering t basicVars cjRow allVars Hwf)
    as [Hz [Hd [Hrhs _]]].
  fold r in Hz, Hd, Hrhs.
  destruct (wf_tableau_inv _ _ _ _ Hwf) as [H2 _].
  assert (HS : forall col, weightedColumn t basicVars cjRow allVars col = S col)
    by (intro col; apply weightedColumn_formula).
  split; [|split; [|split; [exact Hrhs|split]]].
  - intros col Hcol. rewrite (Hz col Hcol), HS. apply clean10_cases.
  - intros col Hcol. rewrite (Hd col Hcol), HS. apply clean10_cases.
  - unfold r.
    destruct (computeWith_cases entering t basicVars cjRow allVars H2) as [-> _].
    apply derivedTable_length. exact H2.
  - intros i Hi. unfold r.
    destruct (computeWith_cases entering t basicVars cjRow allVars H2) as [-> _].
    unfold Engine.derivedTable. rewrite map_id.
    rewrite app_nth1 by (rewrite length_firstn; lia).
    rewrite nth_firstn. rewrite (proj2 (Nat.ltb_lt _ _) Hi). reflexivity.
Qed.

Lemma derived_rows_formula_witness :
  wf_tableau ScenarioA.table0 ScenarioA.basics ScenarioA.cjRow ScenarioA.vars /\
  (~ Qabs (nth 1 ScenarioA.cjRow 0
           - zjFormula ScenarioA.table0 ScenarioA.basics ScenarioA.cjRow ScenarioA.vars 1)
     < eps10) /\
  cjZjOf ScenarioA.computed 1 =
    nth 1 ScenarioA.cjRow 0
    - zjFormula ScenarioA.table0 ScenarioA.basics ScenarioA.cjRow ScenarioA.vars 1 /\
  (Qabs (zjFormula ScenarioA.table0 ScenarioA.basics ScenarioA.cjRow ScenarioA.vars 1)
     < eps10) /\
  zjOf ScenarioA.computed 1 = 0.
Proof.
  assert (Hwf : wf_tableau ScenarioA.table0 ScenarioA.basics ScenarioA.cjRow
                           ScenarioA.vars) by reflexivity.
  assert (Hbig : ~ Qabs (nth 1 ScenarioA.cjRow 0
                         - zjFormula ScenarioA.table0 ScenarioA.basics ScenarioA.cjRow
                                     ScenarioA.vars 1) < eps10)
    by (vm_compute; intro H; discriminate H).
  assert (Hsmall : Qabs (zjFormula ScenarioA.table0 ScenarioA.basics ScenarioA.cjRow
                                   ScenarioA.vars 1) < eps10)
    by (vm_compute; reflexivity).
  destruct (derived_rows_formula Engine.enteringMax ScenarioA.table0 ScenarioA.basics
              ScenarioA.cjRow ScenarioA.vars Hwf) as [Hz [Hd _]].
  split; [exact Hwf|]. split; [exact Hbig|].
  split; [exact (proj2 (Hd 1%nat ltac:(vm_compute; lia)) Hbig)|].
  split; [exact Hsmall|].
  exact (proj1 (Hz 1%nat ltac:(vm_compute; lia)) Hsmall).
Defined.

(** ** Basis entries missing from the variable list *)

(** C10.  A basis entry that names no variable of the list gets objective
    coefficient 0 from the CB lookup, and so does one whose position has no
    Cj entry; [computeZjAndCjMinusZj] is a total function that returns, for
    any basis whatsoever, a table of the same height whose two derived rows
    have one entry per column. *)
Theorem cb_lookup_total :
  (forall (allVars : list string) (cjRow : list Q) (b : string),
     ~ In b allVars -> Engine.cbOf allVars cjRow b = 0) /\
  (forall (allVars : list string) (cjRow : list Q) (b : string) (idx : nat),
     indexOf b allVars = Some idx -> (length cjRow <= idx)%nat ->
     Engine.cbOf allVars cjRow b = 0) /\
  (forall (entering : list Q -> option (option nat)) (t : Tableau)
          (basicVars : list string) (cjRow : list Q) (allVars : list string),
     (2 <= length t)%nat ->
     let r := Engine.computeWith entering t basicVars cjRow allVars in
     length (Engine.table r) = length t /\
     length (nth (length t - 2) (Engine.table r) []) = length (nth 0 t []) /\
     length (nth (length t - 1) (Engine.table r) []) = length (nth 0 t [])).
Proof.
  split; [|split].
  - intros allVars cjRow b Hb. unfold Engine.cbOf.
    rewrite indexOf_None by exact Hb. reflexivity.
  - intros allVars cjRow b idx Hidx Hlen. unfold Engine.cbOf. rewrite Hidx.
    apply nth_overflow. exact Hlen.
  - intros entering t b c v H2 r.
    destruct (computeWith_cases entering t b c v H2) as [Ht _]. fold r in Ht.
    rewrite Ht, derivedTable_length, derivedTable_zj, derivedTable_cjZj by exact H2.
    rewrite zjRow_length, cjZjRow_length. auto.
Qed.

Lemma cb_lookup_total_witness :
  ~ In "s1"%string (MaxScreen.variables ScenarioFallback.session) /\
  MaxScreen.basicVariables ScenarioFallback.session = ["s1"%string] /\
  Engine.cbOf (MaxScreen.variables ScenarioFallback.session)
              (MaxScreen.cj ScenarioFallback.session) "s1" = 0.
Proof.
  assert (H : ~ In "s1"%string (MaxScreen.variables ScenarioFallback.session)).
  { vm_compute. intros [H | H]; [discriminate H | exact H]. }
  split; [exact H|]. split; [reflexivity|].
  exact (proj1 cb_lookup_total _ _ _ H).
Defined.

(** ** Pivot errors *)

(** The row chosen by the ratio test never makes [performPivot] throw. *)
Lemma selected_pivot_succeeds (t : Tableau) (rhsOf : list Q -> Q) (rowsCount e r : nat) :
  Engine.ratioTest t rhsOf rowsCount e = Some r ->
  exists t', Engine.performPivot t r e = inr t'.
Proof.
  intro Hr. pose proof (ratioTest_spec t rhsOf rowsCount e) as Hs.
  rewrite Hr in Hs. destruct Hs as [_ [[Hpos _] _]].
  destruct (Engine.performPivot t r e) as [msg|t'] eqn:E; [|eauto].
  exfalso.
  assert (Hsmall : Qabs (cell t r e) < eps12)
    by (apply performPivot_error_iff; eauto).
  pose proof (Qle_Qabs (cell t r e)) as Hle.
  pose proof eps12_lt_eps10. lra.
Qed.

(** C5.  [performPivot] throws exactly when the absolute value of the pivot
    element is below 1e-12; and when it throws inside the try block of
    "Next Iteration", the committed state keeps the table, basis, Cj,
    variable list and iteration counter of the state before, and the
    message becomes "Error during pivot: Pivot value is too close to zero.". *)
Theorem pivot_error_handling :
  (forall (t : Tableau) (pr pc : nat),
     (exists msg, SolutionPage.performPivot t pr pc = inl msg) <->
     Qabs (cell t pr pc) < eps12) /\
  (forall (msgOptimal : string) (s : MaxScreen.Session) (pr pc : nat),
     Qabs (cell (MaxScreen.simplexTable s) pr pc) < eps12 ->
     let s' := MaxScreen.tryPivot msgOptimal s pr pc in
     MaxScreen.simplexTable s' = MaxScreen.simplexTable s /\
     MaxScreen.basicVariables s' = MaxScreen.basicVariables s /\
     MaxScreen.cj s' = MaxScreen.cj s /\
     MaxScreen.variables s' = MaxScreen.variables s /\
     MaxScreen.iteration s' = MaxScreen.iteration s /\
     MaxScreen.message s' =
       Some "Error during pivot: Pivot value is too close to zero."%string).
Proof.
  split; [exact performPivot_error_iff|].
  intros msgO s pr pc Hsmall s'. subst s'. unfold MaxScreen.tryPivot.
  apply performPivot_error_iff in Hsmall. destruct Hsmall as [msg Hmsg].
  rewrite Hmsg.
  assert (msg = Engine.pivotError).
  { unfold Engine.performPivot in Hmsg.
    destruct (Qltb _ _) in Hmsg; [congruence | discriminate]. }
  subst msg. simpl. repeat split; reflexivity.
Qed.

Lemma pivot_error_handling_witness :
  Qabs (cell (MaxScreen.simplexTable ScenarioA.session) 0 1) < eps12 /\
  MaxScreen.simplexTable
    (MaxScreen.tryPivot SolutionPage.msgOptimal ScenarioA.session 0 1)
  = MaxScreen.simplexTable ScenarioA.session.
Proof.
  split; [reflexivity|].
  apply (proj2 pivot_error_handling SolutionPage.msgOptimal
               ScenarioA.session 0%nat 1%nat).
  reflexivity.
Defined.

(** ** Optimality test of the step *)

Lemma enteringVar_None_iff (t : Tableau) b c v :
  (2 <= length t)%nat ->
  let r := Engine.computeWith Engine.enteringMax t b c v in
  Engine.enteringVar r = None <->
  Engine.enteringMax
    (firstn (length v) (nth (length (Engine.table r) - 1) (Engine.table r) [])) = None.
Proof.
  intros H2 r.
  destruct (computeWith_cases Engine.enteringMax t b c v H2) as [Ht Hcase].
  fold r in Ht, Hcase.
  rewrite Ht, derivedTable_length, derivedTable_cjZj by exact H2.
  pose proof (enteringMax_spec (firstn (length v) (Engine.cjZjRow t b c v))) as Hs.
  destruct (Engine.enteringMax (firstn (length v) (Engine.cjZjRow t b c v)))
    as [[k|]|].
  - destruct Hs as [Hk _]. destruct Hcase as [He _]. rewrite He.
    split; [|discriminate]. intro Hn. apply nth_error_None in Hn.
    pose proof (firstn_le_length (length v) (Engine.cjZjRow t b c v)). lia.
  - destruct Hs.
  - destruct Hcase as [He _]. tauto.
Qed.

(** C8.  "Next Iteration" tests optimality on the stored table with the
    criterion of [computeZjAndCjMinusZj] (maximum of the Cj-Zj entries of
    the variable columns at most 1e-10).  Hence, on a session whose table
    was produced by [computeZjAndCjMinusZj] with no entering variable, the
    step leaves table, basis, Cj, variable list and iteration counter as
    they are and sets the message "Optimal solution reached.". *)
Theorem optimal_step_is_stable (t : Tableau) (basicVars : list string)
  (cjRow : list Q) (allVars : list string)
  (e l : option string) (it : nat) (m : option string) :
  wf_tableau t basicVars cjRow allVars ->
  let r := SolutionPage.computeZjAndCjMinusZj t basicVars cjRow allVars in
  let s := MaxScreen.mkSession (Engine.table r) allVars cjRow basicVars e l it m in
  let s' := SolutionPage.handleNextIteration s in
  (Engine.enteringVar r = None <->
   Engine.enteringMax
     (firstn (length allVars)
             (nth (length (Engine.table r) - 1) (Engine.table r) [])) = None) /\
  (Engine.enteringVar r = None ->
   MaxScreen.simplexTable s' = Engine.table r /\
   MaxScreen.basicVariables s' = basicVars /\
   MaxScreen.cj s' = cjRow /\
   MaxScreen.variables s' = allVars /\
   MaxScreen.iteration s' = it /\
   MaxScreen.enteringVar s' = None /\
   MaxScreen.leavingVar s' = None /\
   MaxScreen.message s' = Some "Optimal solution reached."%string).
Proof.
  intros Hwf r s s'.
  unfold SolutionPage.computeZjAndCjMinusZj, MaxScreen.computeZjAndCjMinusZj in r.
  destruct (wf_tableau_inv _ _ _ _ Hwf) as [H2 _].
  pose proof (enteringVar_None_iff t basicVars cjRow allVars H2) as Hiff.
  fold r in Hiff.
  split; [exact Hiff|].
  intro Hnone. apply Hiff in Hnone. fold r in Hnone.
  assert (Hlen : length (Engine.table r) = length t).
  { destruct (computeWith_cases Engine.enteringMax t basicVars cjRow allVars H2)
      as [Ht _].
    fold r in Ht. rewrite Ht. apply derivedTable_length. exact H2. }
  subst s'. unfold SolutionPage.handleNextIteration, MaxScreen.handleNextIteration.
  simpl MaxScreen.simplexTable. simpl MaxScreen.variables.
  destruct (length (Engine.table r) <? 2)%nat eqn:E;
    [apply Nat.ltb_lt in E; lia|].
  rewrite Hnone. simpl. repeat split; reflexivity.
Qed.

Lemma optimal_step_is_stable_witness :
  let final := fst (SolutionPage.handleSolveToOptimal ScenarioA.session) in
  let t := MaxScreen.simplexTable final in
  let b := MaxScreen.basicVariables final in
  wf_tableau t b ScenarioA.cjRow ScenarioA.vars /\
  Engine.enteringVar
    (SolutionPage.computeZjAndCjMinusZj t b ScenarioA.cjRow ScenarioA.vars) = None /\
  MaxScreen.message
    (SolutionPage.handleNextIteration
       (MaxScreen.mkSession
          (Engine.table
             (SolutionPage.computeZjAndCjMinusZj t b ScenarioA.cjRow ScenarioA.vars))
          ScenarioA.vars ScenarioA.cjRow b None None 3 None))
  = Some "Optimal solution reached."%string.
Proof.
  intros final t b.
  assert (Hwf : wf_tableau t b ScenarioA.cjRow ScenarioA.vars) by (vm_compute; reflexivity).
  assert (Hn : Engine.enteringVar
                 (SolutionPage.computeZjAndCjMinusZj t b ScenarioA.cjRow ScenarioA.vars)
               = None) by (vm_compute; reflexivity).
  split; [exact Hwf|]. split; [exact Hn|].
  apply (optimal_step_is_stable t b ScenarioA.cjRow ScenarioA.vars None None 3 None Hwf).
  exact Hn.
Defined.

(** ** Phase 1 verdict *)

Lemma minAtLeastNegEps_iff (V : list Q) :
  Phase1.minAtLeastNegEps V = true <-> Engine.enteringMin V = None.
Proof.
  unfold Phase1.minAtLeastNegEps, Engine.enteringMin.
  destruct (mathMin V) as [m|]; [|tauto].
  destruct (Qleb (- eps10) m); split; intro H; try reflexivity; discriminate.
Qed.

Lemma maxAtMostEps_iff (V : list Q) :
  MaxScreen.maxAtMostEps V = true <-> Engine.enteringMax V = None.
Proof.
  unfold MaxScreen.maxAtMostEps, Engine.enteringMax.
  destruct (mathMax V) as [m|]; [|tauto].
  destruct (Qleb m eps10); split; intro H; try reflexivity; discriminate.
Qed.

(** ** Construction of the Phase 2 table *)

Lemma filter_by_index {A : Type} (p : A -> bool) (l : list A) (d : A) :
  filter p l =
  map (fun j => nth j l d) (filter (fun j => p (nth j l d)) (seq 0 (length l))).
Proof.
  induction l as [|x l IH] using rev_ind; [reflexivity|].
  rewrite length_app. simpl length. rewrite Nat.add_1_r, seq_S. simpl.
  rewrite !filter_app, map_app. f_equal.
  - rewrite IH.
    rewrite (filter_ext_in (fun j => p (nth j (l ++ [x]) d)) (fun j => p (nth j l d))).
    + apply map_ext_in. intros j Hj. apply filter_In in Hj. destruct Hj as [Hj _].
      apply in_seq in Hj. rewrite app_nth1 by lia. reflexivity.
    + intros j Hj. apply in_seq in Hj. rewrite app_nth1 by lia. reflexivity.
  - simpl. rewrite nth_middle. destruct (p x); simpl; [|reflexivity].
    rewrite nth_middle. reflexivity.
Qed.

Lemma includes_artificialIndices (vars : list string) (j : nat) :
  Phase2.includes (Phase2.artificialIndices vars) j =
  ((j <? length vars)%nat && Phase2.isArtificial (nth j vars ""%string))%bool.
Proof.
  unfold Phase2.includes, Phase2.artificialIndices.
  destruct (existsb _ _) eqn:E.
  - apply existsb_exists in E. destruct E as [x [Hin Hx]].
    apply Nat.eqb_eq in Hx. subst x. apply filter_In in Hin.
    destruct Hin as [Hseq Hart]. apply in_seq in Hseq.
    symmetry. apply andb_true_intro. split; [apply Nat.ltb_lt; lia | exact Hart].
  - symmetry. apply not_true_is_false. intro H.
    apply andb_prop in H. destruct H as [Hlt Hart]. apply Nat.ltb_lt in Hlt.
    assert (Hex : existsb (Nat.eqb j)
                    (filter (fun j => Phase2.isArtificial (nth j vars ""%string))
                            (seq 0 (length vars))) = true).
    { apply existsb_exists. exists j. split; [|apply Nat.eqb_refl].
      apply filter_In. split; [apply in_seq; lia | exact Hart]. }
    congruence.
Qed.

Lemma filteredVariables_kept (vars : list string) :
  Phase2.filteredVariables vars = map (fun j => nth j vars ""%string) (keptColumns vars).
Proof.
  unfold Phase2.filteredVariables, keptColumns.
  apply (filter_by_index (fun v => negb (Phase2.isArtificial v)) vars ""%string).
Qed.

Lemma phase2Row_kept (vars : list string) (row : list Q) :
  length row = S (length vars) ->
  Phase2.phase2Row vars row =
  map (fun j => nth j row 0) (keptColumns vars) ++ [nth (length vars) row 0].
Proof.
  intro Hlen. unfold Phase2.phase2Row, keptColumns. f_equal.
  - f_equal. apply filter_ext_in. intros j Hj. apply in_seq in Hj.
    rewrite includes_artificialIndices.
    assert (E : (j <? length vars)%nat = true) by (apply Nat.ltb_lt; lia).
    rewrite E. reflexivity.
  - rewrite Hlen. simpl. unfold lastOf. rewrite Hlen. simpl.
    rewrite Nat.sub_0_r. reflexivity.
Qed.

Lemma phase2ObjectiveFrom_nth (optType : string) (obj : list Q) (vars : list string) :
  forall (o k : nat),
  nth k (Phase2.phase2ObjectiveFrom optType obj o vars) 0 =
  if (startsWith "x" (nth k vars ""%string)
      && (o + xRank vars k <? length obj)%nat)%bool
  then Phase2.adjustedCoeff optType (nth (o + xRank vars k) obj 0)
  else 0.
Proof.
  induction vars as [|v rest IH]; intros o k.
  - simpl. destruct k; reflexivity.
  - destruct k as [|k].
    + simpl. unfold xRank. simpl. rewrite Nat.add_0_r.
      destruct (startsWith "x" v); simpl; [|reflexivity].
      destruct (o <? length obj)%nat; reflexivity.
    + assert (Hrank : xRank (v :: rest) (S k) =
                      ((if startsWith "x" v then 1 else 0) + xRank rest k)%nat).
      { unfold xRank. simpl. destruct (startsWith "x" v); reflexivity. }
      rewrite Hrank. simpl nth at 2.
      simpl Phase2.phase2ObjectiveFrom.
      destruct (startsWith "x" v) eqn:Ex.
      * destruct (o <? length obj)%nat eqn:Eo.
        -- simpl nth. rewrite IH.
           replace (S o + xRank rest k)%nat with (o + (1 + xRank rest k))%nat by lia.
           reflexivity.
        -- simpl nth. rewrite IH. apply Nat.ltb_ge in Eo.
           assert (E1 : (o + xRank rest k <? length obj)%nat = false)
             by (apply Nat.ltb_ge; lia).
           assert (E2 : (o + (1 + xRank rest k) <? length obj)%nat = false)
             by (apply Nat.ltb_ge; lia).
           rewrite E1, E2, !andb_false_r. reflexivity.
      * simpl nth. rewrite IH. reflexivity.
Qed.

Lemma params_shape_inv (p : Phase2Params) :
  params_shape p ->
  (2 <= length (phase1Table p))%nat /\
  (forall i, (i < length (phase1Table p))%nat ->
             length (nth i (phase1Table p) []) = S (length (phase1Variables p))) /\
  length (phase1BasicVariables p) = (length (phase1Table p) - 2)%nat.
Proof.
  unfold params_shape, params_shapeb. intro H.
  apply andb_prop in H as [H H3]. apply andb_prop in H as [H1 H2].
  apply Nat.leb_le in H1. apply Nat.eqb_eq in H3. rewrite forallb_forall in H2.
  repeat split; auto.
  intros i Hi. apply Nat.eqb_eq. apply H2. apply nth_In. exact Hi.
Qed.

(** C7.  [createPhase2Table] keeps exactly the columns of the variables
    whose name does not start with 'a', in order, in the variable list and
    in every constraint row, whose RHS it keeps; the k-th kept variable gets
    Cj 0 unless its name starts with 'x', in which case it gets the
    objective coefficient whose position is the number of decision variables
    before it, negated when [optType] is "Minimize"; a basis entry that
    starts with 'a' becomes the first kept variable whose name starts with
    's', or "s1" when there is none, and the other basis entries are kept. *)
Theorem phase2_construction (p : Phase2Params) :
  params_shape p ->
  let s := Phase2.createPhase2Table p in
  let vars := phase1Variables p in
  let t := phase1Table p in
  let obj := originalObjective p in
  MaxScreen.variables s = map (fun j => nth j vars ""%string) (keptColumns vars) /\
  (forall name, In name (MaxScreen.variables s) <->
                In name vars /\ startsWith "a" name = false) /\
  length (MaxScreen.simplexTable s) = length t /\
  (forall i, (i < length t - 2)%nat ->
     nth i (MaxScreen.simplexTable s) [] =
     map (fun j => cell t i j) (keptColumns vars) ++ [cell t i (length vars)]) /\
  (forall k,
     nth k (MaxScreen.cj s) 0 =
     if (startsWith "x" (nth k (MaxScreen.variables s) ""%string)
         && (xRank (MaxScreen.variables s) k <? length obj)%nat)%bool
     then (if String.eqb (optType p) "Minimize"
           then - nth (xRank (MaxScreen.variables s) k) obj 0
           else nth (xRank (MaxScreen.variables s) k) obj 0)
     else 0) /\
  length (MaxScreen.basicVariables s) = length (phase1BasicVariables p) /\
  (forall i, (i < length (phase1BasicVariables p))%nat ->
     nth i (MaxScreen.basicVariables s) ""%string =
     if startsWith "a" (nth i (phase1BasicVariables p) ""%string)
     then match find (startsWith "s") (MaxScreen.variables s) with
          | Some availableSlack => availableSlack
          | None => "s1"%string
          end
     else nth i (phase1BasicVariables p) ""%string).
Proof.
  intros Hshape s vars t obj.
  destruct (params_shape_inv p Hshape) as [H2 [Hrows Hb]].
  fold t in H2, Hrows, Hb. fold vars in Hrows.
  assert (Hlenrows : length (Phase2.phase2Rows p) = (length t - 2)%nat).
  { unfold Phase2.phase2Rows. fold t. rewrite length_map, length_firstn. lia. }
  set (T := (Phase2.phase2Rows p
             ++ [repeat 0 (S (length (Phase2.filteredVariables vars)));
                 repeat 0 (S (length (Phase2.filteredVariables vars)))])%list).
  assert (HlenT : length T = length t).
  { unfold T. rewrite length_app, Hlenrows. simpl. lia. }
  assert (HT2 : (2 <= length T)%nat) by lia.
  assert (Htable : MaxScreen.simplexTable s =
                   Engine.derivedTable T (Phase2.newBasicVariables p)
                     (Phase2.phase2Objective p) (Phase2.filteredVariables vars)).
  { unfold s, Phase2.createPhase2Table. simpl MaxScreen.simplexTable. fold vars. fold T.
    unfold Phase2.computeZjAndCjMinusZj, MaxScreen.computeZjAndCjMinusZj.
    apply (computeWith_cases Engine.enteringMax T _ _ _ HT2). }
  split; [|split; [|split; [|split; [|split; [|split]]]]].
  - apply filteredVariables_kept.
  - intro name. unfold s, Phase2.createPhase2Table. simpl MaxScreen.variables.
    unfold Phase2.filteredVariables. rewrite filter_In.
    unfold Phase2.isArtificial. rewrite negb_true_iff. reflexivity.
  - rewrite Htable, derivedTable_length by exact HT2. exact HlenT.
  - intros i Hi. rewrite Htable, derivedTable_row by lia.
    unfold T. rewrite app_nth1 by lia.
    unfold Phase2.phase2Rows. fold t. fold vars.
    rewrite nth_indep with (d' := Phase2.phase2Row vars [])
      by (rewrite length_map, length_firstn; lia).
    rewrite map_nth, nth_firstn.
    assert (E : (i <? length t - 2)%nat = true) by (apply Nat.ltb_lt; exact Hi).
    rewrite E. rewrite phase2Row_kept by (apply Hrows; lia). reflexivity.
  - intro k. unfold s, Phase2.createPhase2Table.
    simpl MaxScreen.cj. simpl MaxScreen.variables. fold vars.
    unfold Phase2.phase2Objective. fold vars. fold obj.
    rewrite phase2ObjectiveFrom_nth. simpl Nat.add. unfold Phase2.adjustedCoeff.
    reflexivity.
  - unfold s, Phase2.createPhase2Table. simpl MaxScreen.basicVariables.
    unfold Phase2.newBasicVariables. apply length_map.
  - intros i Hi. unfold s, Phase2.createPhase2Table.
    simpl MaxScreen.basicVariables. simpl MaxScreen.variables. fold vars.
    unfold Phase2.newBasicVariables. fold vars.
    set (f := fun b : string =>
                if Phase2.isArtificial b
                then match jsFind (startsWith "s") (Phase2.filteredVariables vars) with
                     | Some availableSlack => availableSlack
                     | None => "s1"%string
                     end
                else b).
    rewrite nth_indep with (d' := f ""%string) by (rewrite length_map; exact Hi).
    rewrite map_nth. reflexivity.
Qed.

Lemma phase2_construction_witness :
  params_shape ScenarioFallback.params /\
  MaxScreen.variables ScenarioFallback.session = ["x1"%string] /\
  (forall i, (i < 1)%nat ->
     nth i (MaxScreen.basicVariables ScenarioFallback.session) ""%string =
     if startsWith "a" (nth i (phase1BasicVariables ScenarioFallback.params) ""%string)
     then match find (startsWith "s") (MaxScreen.variables ScenarioFallback.session) with
          | Some availableSlack => availableSlack
          | None => "s1"%string
          end
     else nth i (phase1BasicVariables ScenarioFallback.params) ""%string).
Proof.
  split; [reflexivity|].
  split; [exact (proj1 (phase2_construction ScenarioFallback.params eq_refl))|].
  exact (proj2 (proj2 (proj2 (proj2 (proj2 (proj2
           (phase2_construction ScenarioFallback.params eq_refl))))))).
Defined.

(** ** Automatic solving *)

Lemma solve_unfold (msgO msgU : string) (st : MaxScreen.Session) (t : Tableau)
  (b : list string) (it : nat) :
  MaxScreen.solve msgO msgU st t b it =
  if (it <=? MaxScreen.maxIterations)%nat then
    match MaxScreen.solveTurn msgO msgU st t b it with
    | MaxScreen.Stop s' => (s', O)
    | MaxScreen.Continue s' t' b' =>
        (fst (MaxScreen.solve msgO msgU s' t' b' (S it)),
         S (snd (MaxScreen.solve msgO msgU s' t' b' (S it))))
    end
  else (MaxScreen.setMessage (Some MaxScreen.limitMessage) st, O).
Proof.
  simp solve.
  destruct (le_lt_dec it MaxScreen.maxIterations) as [Hle | Hgt]; simpl.
  - rewrite (proj2 (Nat.leb_le _ _) Hle).
    destruct (MaxScreen.solveTurn msgO msgU st t b it); reflexivity.
  - rewrite (proj2 (Nat.leb_gt _ _) Hgt). reflexivity.
Qed.

(** One call of [solve] below the cap: it stops on an optimal table, or on
    an entering column without qualifying row, or it pivots; the catch
    branch is never taken. *)
Lemma solveTurn_cases (msgO msgU : string) (st : MaxScreen.Session) (t : Tableau)
  (b : list string) (it : nat) :
  let V := firstn (length (MaxScreen.variables st)) (nth (length t - 1) t []) in
  match MaxScreen.solveTurn msgO msgU st t b it with
  | MaxScreen.Stop s' =>
      (s' = MaxScreen.setPivotInfo None None (Some msgO) st /\
       MaxScreen.maxAtMostEps V = true) \/
      (exists k, Engine.enteringMax V = Some (Some k) /\
         s' = MaxScreen.setPivotInfo (nth_error (MaxScreen.variables st) k) None
                                     (Some msgU) st /\
         forall i, (i < length t - 2)%nat ->
                   ~ qualifies t (MaxScreen.rhsAt (length (nth 0 t []))) k i)
  | MaxScreen.Continue s' t' b' =>
      MaxScreen.simplexTable s' = t' /\
      MaxScreen.variables s' = MaxScreen.variables st /\
      MaxScreen.cj s' = MaxScreen.cj st /\
      MaxScreen.iteration s' = S it
  end.
Proof.
  intro V. unfold MaxScreen.solveTurn. fold V.
  pose proof (enteringMax_spec V) as Hs.
  destruct (Engine.enteringMax V) as [[k|]|] eqn:Ee.
  - pose proof (ratioTest_None_iff t (MaxScreen.rhsAt (length (nth 0 t [])))
                  (length t - 2) k) as Hn.
    destruct (Engine.ratioTest t (MaxScreen.rhsAt (length (nth 0 t [])))
                (length t - 2) k) as [r|] eqn:Er.
    + destruct (selected_pivot_succeeds _ _ _ _ _ Er) as [t' Ht'].
      rewrite Ht'. simpl. auto.
    + right. exists k. split; [reflexivity|]. split; [reflexivity|].
      apply Hn. reflexivity.
  - destruct Hs.
  - left. split; [reflexivity|]. apply maxAtMostEps_iff. exact Ee.
Qed.

Lemma solve_spec (msgO msgU : string) (n : nat) :
  forall (st : MaxScreen.Session) (t : Tableau) (b : list string) (it : nat),
  MaxScreen.remaining it = n ->
  MaxScreen.simplexTable st = t -> MaxScreen.iteration st = it ->
  let r := MaxScreen.solve msgO msgU st t b it in
  let t' := MaxScreen.simplexTable (fst r) in
  let V := firstn (length (MaxScreen.variables st)) (nth (length t' - 1) t' []) in
  (snd r <= n)%nat /\
  MaxScreen.iteration (fst r) = (it + snd r)%nat /\
  ((MaxScreen.message (fst r) = Some msgO /\ (it + snd r <= 100)%nat /\
    MaxScreen.maxAtMostEps V = true) \/
   (MaxScreen.message (fst r) = Some msgU /\ (it + snd r <= 100)%nat /\
    exists k, Engine.enteringMax V = Some (Some k) /\
      forall i, (i < length t' - 2)%nat ->
                ~ qualifies t' (MaxScreen.rhsAt (length (nth 0 t' []))) k i) \/
   (MaxScreen.message (fst r) = Some MaxScreen.limitMessage /\
    (100 < it + snd r)%nat)).
Proof.
  induction n as [|n IH]; intros st t b it Hrem Ht Hit r; subst r;
    rewrite solve_unfold; unfold MaxScreen.remaining, MaxScreen.maxIterations in *.
  - assert (E : (it <=? 100)%nat = false) by (apply Nat.leb_gt; lia).
    rewrite E. simpl. split; [lia|]. split; [lia|].
    right. right. split; [reflexivity | lia].
  - assert (E : (it <=? 100)%nat = true) by (apply Nat.leb_le; lia).
    rewrite E.
    pose proof (solveTurn_cases msgO msgU st t b it) as Hc.
    destruct (MaxScreen.solveTurn msgO msgU st t b it) as [s' | s' t' b'].
    + simpl fst. simpl snd. split; [lia|].
      destruct Hc as [[-> Hopt] | [k [Hk [-> Hnone]]]]; simpl; rewrite Ht.
      * split; [lia|]. left. split; [reflexivity|]. split; [lia | exact Hopt].
      * split; [lia|]. right. left. split; [reflexivity|]. split; [lia|].
        exists k. split; [exact Hk | exact Hnone].
    + destruct Hc as [Hs't [Hvars [_ Hs'it]]].
      assert (Hrem' : (101 - S it)%nat = n) by lia.
      specialize (IH s' t' b' (S it) Hrem' Hs't Hs'it).
      simpl in IH. rewrite Hvars in IH. simpl fst. simpl snd.
      destruct IH as [Hle [Hiter Hout]].
      split; [lia|]. split; [lia|].
      destruct Hout as [[Hm [Hb Ho]] | [[Hm [Hb Hu]] | [Hm Hb]]].
      * left. split; [exact Hm|]. split; [lia | exact Ho].
      * right. left. split; [exact Hm|]. split; [lia | exact Hu].
      * right. right. split; [exact Hm | lia].
Qed.

Lemma legacy_loop_unfold (mirrorError : option string) (st : MaxScreen.Session)
  (t : Tableau) (b : list string) (safety : nat) :
  Legacy.loop mirrorError st t b safety =
  if (S safety <=? MaxScreen.maxIterations)%nat then
    match Legacy.loopTurn mirrorError st t b with
    | Legacy.Break s' => (s', O)
    | Legacy.BreakAfterPivot s' => (s', 1%nat)
    | Legacy.Continue s' t' b' =>
        (fst (Legacy.loop mirrorError s' t' b' (S safety)),
         S (snd (Legacy.loop mirrorError s' t' b' (S safety))))
    end
  else (MaxScreen.setMessage (Some MaxScreen.limitMessage) st, O).
Proof.
  simp loop.
  destruct (le_lt_dec (S safety) MaxScreen.maxIterations) as [Hle | Hgt].
  - rewrite (proj2 (Nat.leb_le (S safety) _) Hle). simpl.
    destruct (Legacy.loopTurn mirrorError st t b); reflexivity.
  - rewrite (proj2 (Nat.leb_gt (S safety) _) Hgt). reflexivity.
Qed.

Lemma legacy_loopTurn_cases (mirrorError : option string) (st : MaxScreen.Session)
  (t : Tableau) (b : list string) :
  match Legacy.loopTurn mirrorError st t b with
  | Legacy.Break s' =>
      MaxScreen.iteration s' = MaxScreen.iteration st /\
      (MaxScreen.message s' = Some Legacy.msgOptimal \/
       MaxScreen.message s' = Some Legacy.msgUnbounded \/
       exists e, MaxScreen.message s' =
                 Some ("Error during automatic pivot: " ++ e)%string)
  | Legacy.BreakAfterPivot s' =>
      MaxScreen.iteration s' = S (MaxScreen.iteration st) /\
      exists e, mirrorError = Some e /\
        MaxScreen.message s' = Some ("Error during automatic pivot: " ++ e)%string
  | Legacy.Continue s' t' b' =>
      MaxScreen.iteration s' = S (MaxScreen.iteration st) /\ mirrorError = None
  end.
Proof.
  unfold Legacy.loopTurn.
  destruct (Legacy.enteringMax _) as [[k|]|]; simpl; auto.
  destruct (Legacy.ratioTest _ _ _ _) as [r|]; simpl; auto.
  destruct (Legacy.performPivot _ _ _) as [err|newTable]; simpl.
  - split; [reflexivity|]. right. right. eauto.
  - destruct mirrorError as [e|]; simpl; eauto.
Qed.

Lemma legacy_loop_spec (mirrorError : option string) (n : nat) :
  forall (st : MaxScreen.Session) (t : Tableau) (b : list string) (safety : nat),
  MaxScreen.remaining (S safety) = n ->
  let r := Legacy.loop mirrorError st t b safety in
  (snd r <= n)%nat /\
  MaxScreen.iteration (fst r) = (MaxScreen.iteration st + snd r)%nat /\
  (MaxScreen.message (fst r) = Some Legacy.msgOptimal \/
   MaxScreen.message (fst r) = Some Legacy.msgUnbounded \/
   (MaxScreen.message (fst r) = Some MaxScreen.limitMessage /\
    (100 <= safety + snd r)%nat) \/
   (exists e, MaxScreen.message (fst r) =
              Some ("Error during automatic pivot: " ++ e)%string)) /\
  (mirrorError <> None -> (snd r <= 1)%nat).
Proof.
  induction n as [|n IH]; intros st t b safety Hrem r; subst r;
    rewrite legacy_loop_unfold;
    unfold MaxScreen.remaining, MaxScreen.maxIterations in *.
  - assert (E : (S safety <=? 100)%nat = false) by (apply Nat.leb_gt; lia).
    rewrite E. simpl. split; [lia|]. split; [lia|]. split; [|intros _; lia].
    right. right. left. split; [reflexivity | lia].
  - assert (E : (S safety <=? 100)%nat = true) by (apply Nat.leb_le; lia).
    rewrite E.
    pose proof (legacy_loopTurn_cases mirrorError st t b) as Hc.
    destruct (Legacy.loopTurn mirrorError st t b) as [s' | s' | s' t' b'];
      simpl fst; simpl snd.
    + destruct Hc as [Hit Hm]. split; [lia|]. split; [lia|]. split; [|intros _; lia].
      destruct Hm as [Hm | [Hm | Hm]]; auto.
    + destruct Hc as [Hit [e [_ Hm]]]. split; [lia|]. split; [lia|].
      split; [|intros _; lia]. right. right. right. eauto.
    + destruct Hc as [Hit Hnone].
      assert (Hrem' : (101 - S (S safety))%nat = n) by lia.
      destruct (IH s' t' b' (S safety) Hrem') as [Hle [Hiter [Hout _]]].
      split; [lia|]. split; [lia|]. split; [|intro Hne; congruence].
      destruct Hout as [Hm | [Hm | [[Hm Hb] | Hm]]]; auto.
      right. right. left. split; [exact Hm | lia].
Qed.

(** C9 (defect of the earlier screen).  On part_003 "Solve to Optimal"
    does not repeat single steps until the table is optimal: the loop body
    ends by assigning to the const bindings [simplexTable] and
    [basicVariables], the assignment throws, and the [catch] ends the loop
    after the first pivot.  On the problem of scenario A, whatever the
    message [err] of the error thrown, exactly one pivot is committed, the
    message is "Error during automatic pivot: " followed by [err], which is
    none of the optimal, unbounded and limit messages, and the committed
    table still has a positive Cj-Zj entry (column x1) with a row that
    qualifies for the ratio test.  On the same problem the recursive [solve]
    of part_002 makes two pivots and ends with the optimal message. *)
Theorem legacy_auto_solve_breaks_after_first_pivot (err : string) :
  let r := Legacy.handleSolveToOptimal (Some err) ScenarioA.legacySession in
  let t' := MaxScreen.simplexTable (fst r) in
  snd r = 1%nat /\
  MaxScreen.iteration (fst r) = 2%nat /\
  MaxScreen.basicVariables (fst r) = ["s1"; "x2"; "s3"]%string /\
  MaxScreen.message (fst r) = Some ("Error during automatic pivot: " ++ err)%string /\
  MaxScreen.message (fst r) <> Some Legacy.msgOptimal /\
  MaxScreen.message (fst r) <> Some Legacy.msgUnbounded /\
  MaxScreen.message (fst r) <> Some MaxScreen.limitMessage /\
  Legacy.enteringMax (firstn (length ScenarioA.vars) (nth (length t' - 1) t' []))
    = Some (Some 0%nat) /\
  Legacy.ratioTest t' (MaxScreen.rhsAt (length (nth 0 t' []))) (length t' - 2) 0
    = Some 2%nat /\
  snd (SolutionPage.handleSolveToOptimal ScenarioA.session) = 2%nat /\
  MaxScreen.message (fst (SolutionPage.handleSolveToOptimal ScenarioA.session))
    = Some SolutionPage.msgOptimal.
Proof.
  intros r t'. subst t' r.
  split; [vm_compute; reflexivity|]. split; [vm_compute; reflexivity|].
  split; [vm_compute; reflexivity|]. split; [vm_compute; reflexivity|].
  split; [vm_compute; discriminate|]. split; [vm_compute; discriminate|].
  split; [vm_compute; discriminate|].
  split; [vm_compute; reflexivity|]. split; [vm_compute; reflexivity|].
  split; vm_compute; reflexivity.
Qed.

(** ** The scenarios, run on the model *)

Example scenarioA_optimum :
  let s := fst (SolutionPage.handleSolveToOptimal ScenarioA.session) in
  MaxScreen.message s = Some "Optimal solution reached."%string /\
  MaxScreen.basicVariables s = ["s1"; "x2"; "x1"]%string /\
  cell (MaxScreen.simplexTable s) 1 5 == 6 /\
  cell (MaxScreen.simplexTable s) 2 5 == 2 /\
  cell (MaxScreen.simplexTable s) 3 5 == 36.
Proof. vm_compute. repeat split. Qed.

Example scenarioB_optimum :
  Phase1.message ScenarioB.phase1Final = Some Phase1.msgFeasible /\
  exists s, ScenarioB.phase2Final = Some s /\
    MaxScreen.message s = Some "Phase 2 complete. Optimal solution found."%string /\
    MaxScreen.basicVariables s = ["x1"; "x2"]%string /\
    cell (MaxScreen.simplexTable s) 0 2 == 5 # 3 /\
    cell (MaxScreen.simplexTable s) 1 2 == 2 # 3 /\
    cell (MaxScreen.simplexTable s) 2 2 == - (7 # 3).
Proof.
  split; [vm_compute; reflexivity|].
  eexists. split; [vm_compute; reflexivity|]. vm_compute. repeat split.
Qed.

Example scenarioC_infeasible :
  Phase1.message ScenarioC.session1 = Some Phase1.msgInfeasible /\
  Phase1.phase1Complete ScenarioC.session1 = false /\
  Phase1.handleProceedToPhase2 ScenarioC.objective "Maximize" ScenarioC.session1 = None.
Proof. vm_compute. repeat split. Qed.

Example scenarioD_unbounded :
  let s := SolutionPage.handleNextIteration ScenarioD.session1 in
  MaxScreen.message s = Some "Problem is unbounded (no valid leaving variable)."%string /\
  MaxScreen.enteringVar s = Some "x2"%string /\
  MaxScreen.leavingVar s = None.
Proof. vm_compute. repeat split. Qed.

(** ** Phase 1 verdict on every path that finds the table optimal *)

Lemma eliminate_fold_length (cols pr pc : nat) (l : list nat) (t : Tableau) :
  length (fold_left (Engine.eliminateStep cols pr pc) l t) = length t.
Proof.
  revert t. induction l as [|i l IH]; intro t; simpl; [reflexivity|].
  rewrite IH. unfold Engine.eliminateStep.
  destruct (i =? pr)%nat; [reflexivity|].
  destruct (Qltb _ _); [reflexivity | apply setAt_length].
Qed.

Lemma performPivot_length (t t' : Tableau) (pr pc : nat) :
  Engine.performPivot t pr pc = inr t' -> length t' = length t.
Proof.
  unfold Engine.performPivot. rewrite map_id.
  destruct (Qltb _ _); [discriminate|].
  intros [= <-]. rewrite eliminate_fold_length. apply setAt_length.
Qed.

Lemma computeWith_length entering (t : Tableau) b c v :
  (2 <= length t)%nat -> length (Engine.table (Engine.computeWith entering t b c v)) = length t.
Proof.
  intro H2. destruct (computeWith_cases entering t b c v H2) as [-> _].
  apply derivedTable_length. exact H2.
Qed.

(** What [concludePhase1] commits. *)
Lemma concludePhase1_verdict (value : Q) (s0 : Phase1.Session) :
  let s' := Phase1.concludePhase1 value s0 in
  Phase1.simplexTable s' = Phase1.simplexTable s0 /\
  Phase1.variables s' = Phase1.variables s0 /\
  Phase1.basicVariables s' = Phase1.basicVariables s0 /\
  (Qabs value < eps10 ->
   Phase1.message s' = Some Phase1.msgFeasible /\ Phase1.phase1Complete s' = true) /\
  (~ Qabs value < eps10 ->
   Phase1.message s' = Some Phase1.msgInfeasible /\
   Phase1.phase1Complete s' = Phase1.phase1Complete s0).
Proof.
  intro s'. subst s'. unfold Phase1.concludePhase1.
  destruct (Qltb (Qabs value) eps10) eqn:E; simpl.
  - apply Qltb_lt in E. do 3 (split; [reflexivity|]). split.
    + intros _. split; reflexivity.
    + intro H. exfalso. exact (H E).
  - apply Qltb_ge in E. do 3 (split; [reflexivity|]). split.
    + intro H. exfalso. exact (Qlt_not_le _ _ H E).
    + intros _. split; reflexivity.
Qed.

Lemma concludePhase1_fields (value : Q) (s0 : Phase1.Session) :
  let s' := Phase1.concludePhase1 value s0 in
  Phase1.simplexTable s' = Phase1.simplexTable s0 /\
  Phase1.variables s' = Phase1.variables s0 /\
  Phase1.cj s' = Phase1.cj s0 /\
  Phase1.basicVariables s' = Phase1.basicVariables s0 /\
  Phase1.iteration s' = Phase1.iteration s0.
Proof.
  unfold Phase1.concludePhase1. destruct (Qltb (Qabs value) eps10); simpl; auto.
Qed.

Lemma handleNextIteration_verdict (s : Phase1.Session) :
  (2 <= length (Phase1.simplexTable s))%nat ->
  verdict_drawn s (Phase1.handleNextIteration s).
Proof.
  intro H2. unfold verdict_drawn, Phase1.handleNextIteration.
  set (t := Phase1.simplexTable s) in *.
  destruct (length t <? 2)%nat eqn:E; [apply Nat.ltb_lt in E; lia|].
  set (V := firstn (length (Phase1.variables s)) (nth (length t - 1) t [])).
  assert (HoptV : phase1Optimal (Phase1.variables s) t = Phase1.minAtLeastNegEps V)
    by reflexivity.
  pose proof (enteringMin_spec V) as Hs.
  pose proof (minAtLeastNegEps_iff V) as Hiff.
  destruct (Engine.enteringMin V) as [[k|]|] eqn:Ee.
  - assert (Hnot : Phase1.minAtLeastNegEps V = false).
    { destruct (Phase1.minAtLeastNegEps V); [|reflexivity].
      destruct Hiff as [Hiff _]. specialize (Hiff eq_refl). discriminate. }
    destruct (Engine.ratioTest t (MaxScreen.rhsAt (length (nth 0 t []))) (length t - 2) k)
      as [r|] eqn:Er.
    + unfold Phase1.tryPivot, Phase1.performPivot. fold t.
      destruct (selected_pivot_succeeds _ _ _ _ _ Er) as [t' Ht']. rewrite Ht'.
      set (newBasics := setAt (Phase1.basicVariables s) r
                              (nth k (Phase1.variables s) ""%string)).
      set (ct := Engine.table (Phase1.computeZjAndCjMinusZj t' newBasics (Phase1.cj s)
                                 (Phase1.variables s))).
      fold (phase1Optimal (Phase1.variables s) ct).
      destruct (phase1Optimal (Phase1.variables s) ct) eqn:Eo.
      * match goal with
        | |- context [Phase1.concludePhase1 ?v ?s0] =>
            destruct (concludePhase1_verdict v s0) as [Ht [Hv [_ [Hf Hi]]]]
        end.
        rewrite Hv, Ht. simpl Phase1.variables. simpl Phase1.simplexTable.
        split; [reflexivity|]. split; [rewrite HoptV, Hnot; discriminate|].
        split; [rewrite Eo; discriminate|].
        intros _. split; [exact Hf | exact Hi].
      * simpl. split; [reflexivity|]. split; [rewrite HoptV, Hnot; discriminate|].
        split; [reflexivity|].
        fold ct. rewrite Eo. discriminate.
    + simpl. fold t. split; [reflexivity|]. split; [reflexivity|].
      split; [reflexivity|].
      rewrite HoptV, Hnot. discriminate.
  - destruct Hs.
  - assert (Hyes : Phase1.minAtLeastNegEps V = true) by (apply Hiff; reflexivity).
    match goal with
    | |- context [Phase1.concludePhase1 ?v ?s0] =>
        destruct (concludePhase1_verdict v s0) as [Ht [Hv [_ [Hf Hi]]]]
    end.
    rewrite Hv, Ht. simpl Phase1.variables. simpl Phase1.simplexTable. fold t.
    split; [reflexivity|]. split; [reflexivity|].
    split; [rewrite HoptV, Hyes; discriminate|].
    intros _. split; [exact Hf | exact Hi].
Qed.

Lemma phase1_solve_unfold (st : Phase1.Session) (t : Tableau) (b : list string)
  (it : nat) :
  Phase1.solve st t b it =
  if (it <=? MaxScreen.maxIterations)%nat then
    match Phase1.solveTurn st t b it with
    | Phase1.Stop s' => (s', O)
    | Phase1.Continue s' t' b' =>
        (fst (Phase1.solve s' t' b' (S it)), S (snd (Phase1.solve s' t' b' (S it))))
    end
  else (Phase1.setMessage (Some MaxScreen.limitMessage) st, O).
Proof.
  simp solve.
  destruct (le_lt_dec it MaxScreen.maxIterations) as [Hle | Hgt]; simpl.
  - rewrite (proj2 (Nat.leb_le _ _) Hle).
    destruct (Phase1.solveTurn st t b it); reflexivity.
  - rewrite (proj2 (Nat.leb_gt _ _) Hgt). reflexivity.
Qed.

Lemma phase1_solveTurn_cases (st : Phase1.Session) (t : Tableau) (b : list string)
  (it : nat) :
  (2 <= length t)%nat ->
  match Phase1.solveTurn st t b it with
  | Phase1.Stop s' =>
      (phase1Optimal (Phase1.variables st) t = true /\
       s' = Phase1.concludePhase1 (zjUnderRhs t) st) \/
      (phase1Optimal (Phase1.variables st) t = false /\
       exists e, s' = Phase1.setPivotInfo e None (Some Phase1.msgUnbounded) st)
  | Phase1.Continue s' t' b' =>
      phase1Optimal (Phase1.variables st) t = false /\
      Phase1.simplexTable s' = t' /\
      Phase1.variables s' = Phase1.variables st /\
      Phase1.iteration s' = S it /\
      Phase1.phase1Complete s' = Phase1.phase1Complete st /\
      (2 <= length t')%nat
  end.
Proof.
  intro H2. unfold Phase1.solveTurn.
  set (V := firstn (length (Phase1.variables st)) (nth (length t - 1) t [])).
  assert (HoptV : phase1Optimal (Phase1.variables st) t = Phase1.minAtLeastNegEps V)
    by reflexivity.
  pose proof (enteringMin_spec V) as Hs.
  pose proof (minAtLeastNegEps_iff V) as Hiff.
  destruct (Engine.enteringMin V) as [[k|]|] eqn:Ee.
  - assert (Hnot : Phase1.minAtLeastNegEps V = false).
    { destruct (Phase1.minAtLeastNegEps V); [|reflexivity].
      destruct Hiff as [Hiff _]. specialize (Hiff eq_refl). discriminate. }
    destruct (Engine.ratioTest t (MaxScreen.rhsAt (length (nth 0 t []))) (length t - 2) k)
      as [r|] eqn:Er.
    + unfold Phase1.performPivot.
      destruct (selected_pivot_succeeds _ _ _ _ _ Er) as [t' Ht']. rewrite Ht'.
      simpl. rewrite HoptV, Hnot. repeat split.
      unfold Phase1.computeZjAndCjMinusZj.
      pose proof (performPivot_length _ _ _ _ Ht') as Hl.
      rewrite computeWith_length by lia. lia.
    + right. split; [rewrite HoptV; exact Hnot|]. eauto.
  - destruct Hs.
  - left. split; [rewrite HoptV; apply Hiff; reflexivity | reflexivity].
Qed.

(** What a call of Phase 1 [solve] below the cap commits on an optimal
    table, and that it leaves the flag alone on any other. *)
Lemma phase1_solveCall_verdict (vars : list string) (cjRow : list Q)
  (cur : Phase1.Session) (t : Tableau) (b : list string) (it : nat) :
  (2 <= length t)%nat -> (it <= 100)%nat ->
  let r := Phase1.solveCall vars cjRow cur t b it in
  (phase1Optimal vars t = true ->
   r = (Phase1.withNames (Phase1.variables cur) (Phase1.cj cur)
          (Phase1.concludePhase1 (zjUnderRhs t) (Phase1.withNames vars cjRow cur)),
        None)) /\
  (phase1Optimal vars t = false ->
   Phase1.phase1Complete (fst r) = Phase1.phase1Complete cur).
Proof.
  intros H2 Hit r. subst r. unfold Phase1.solveCall, MaxScreen.maxIterations.
  rewrite (proj2 (Nat.leb_le _ _) Hit).
  pose proof (phase1_solveTurn_cases (Phase1.withNames vars cjRow cur) t b it H2) as Hc.
  change (Phase1.variables (Phase1.withNames vars cjRow cur)) with vars in Hc.
  destruct (Phase1.solveTurn (Phase1.withNames vars cjRow cur) t b it) as [s' | s' t' b'].
  - destruct Hc as [[Hopt ->] | [Hnot [e ->]]].
    + split; [reflexivity|]. intro Hf. congruence.
    + split; [intro Hf; congruence|]. intros _. reflexivity.
  - destruct Hc as [Hnot [_ [_ [_ [Hflag _]]]]].
    split; [intro Hf; congruence|]. intros _. simpl. exact Hflag.
Qed.

(** C6 (as amended).  On the Phase 1 screen the verdict is drawn by "Next
    Iteration" from the table it commits, and by each call of the [solve] of
    "Solve to Optimal" whose iteration counter is at most 100 from the table
    the call was passed, whenever that table is Phase 1 optimal (minimum of
    the Cj-Zj entries of the variable columns at least -1e-10).  The value
    inspected is the Zj entry under the RHS column of that table: if its
    absolute value is below 1e-10, the message announces a feasible solution,
    [phase1Complete] is set and "Proceed to Phase 2" navigates with the
    committed table, variables and basis; otherwise the message says that
    the original problem is infeasible, [phase1Complete] keeps its value and
    "Proceed to Phase 2" does nothing if the flag was unset.  Such a call of
    [solve] sets no further timer and leaves table, basis, names and
    iteration counter as committed; on a table that is not optimal neither
    handler touches [phase1Complete].  A call of [solve] whose counter
    exceeds 100 commits the limit message only, whatever the table. *)
Theorem phase1_feasibility_verdict (objective : list Q) (optType : string) :
  (forall s : Phase1.Session,
     (2 <= length (Phase1.simplexTable s))%nat ->
     let s' := Phase1.handleNextIteration s in
     Phase1.variables s' = Phase1.variables s /\
     (phase1Optimal (Phase1.variables s) (Phase1.simplexTable s) = true ->
      Phase1.simplexTable s' = Phase1.simplexTable s) /\
     (phase1Optimal (Phase1.variables s') (Phase1.simplexTable s') = false ->
      Phase1.phase1Complete s' = Phase1.phase1Complete s) /\
     (phase1Optimal (Phase1.variables s') (Phase1.simplexTable s') = true ->
      (Qabs (zjUnderRhs (Phase1.simplexTable s')) < eps10 ->
       Phase1.message s' =
         Some "Phase 1 complete. Feasible solution found. Ready for Phase 2."%string /\
       Phase1.phase1Complete s' = true /\
       Phase1.handleProceedToPhase2 objective optType s' =
         Some (mkPhase2Params objective (Phase1.simplexTable s') (Phase1.variables s')
                              (Phase1.basicVariables s') optType)) /\
      (~ Qabs (zjUnderRhs (Phase1.simplexTable s')) < eps10 ->
       Phase1.message s' =
         Some "Phase 1 complete. Original problem is infeasible."%string /\
       Phase1.phase1Complete s' = Phase1.phase1Complete s /\
       (Phase1.phase1Complete s = false ->
        Phase1.handleProceedToPhase2 objective optType s' = None)))) /\
  (forall (vars : list string) (cjRow : list Q) (cur : Phase1.Session)
          (t : Tableau) (b : list string) (it : nat),
     (2 <= length t)%nat -> (it <= 100)%nat ->
     let r := Phase1.solveCall vars cjRow cur t b it in
     let s' := fst r in
     (phase1Optimal vars t = true ->
      snd r = None /\
      Phase1.simplexTable s' = Phase1.simplexTable cur /\
      Phase1.basicVariables s' = Phase1.basicVariables cur /\
      Phase1.variables s' = Phase1.variables cur /\
      Phase1.cj s' = Phase1.cj cur /\
      Phase1.iteration s' = Phase1.iteration cur /\
      (Qabs (zjUnderRhs t) < eps10 ->
       Phase1.message s' =
         Some "Phase 1 complete. Feasible solution found. Ready for Phase 2."%string /\
       Phase1.phase1Complete s' = true /\
       Phase1.handleProceedToPhase2 objective optType s' =
         Some (mkPhase2Params objective (Phase1.simplexTable cur) (Phase1.variables cur)
                              (Phase1.basicVariables cur) optType)) /\
      (~ Qabs (zjUnderRhs t) < eps10 ->
       Phase1.message s' =
         Some "Phase 1 complete. Original problem is infeasible."%string /\
       Phase1.phase1Complete s' = Phase1.phase1Complete cur /\
       (Phase1.phase1Complete cur = false ->
        Phase1.handleProceedToPhase2 objective optType s' = None))) /\
     (phase1Optimal vars t = false ->
      Phase1.phase1Complete s' = Phase1.phase1Complete cur)) /\
  (forall (vars : list string) (cjRow : list Q) (cur : Phase1.Session)
          (t : Tableau) (b : list string) (it : nat),
     (100 < it)%nat ->
     let r := Phase1.solveCall vars cjRow cur t b it in
     snd r = None /\
     Phase1.message (fst r) =
       Some "Stopped: reached maximum automatic iterations limit."%string /\
     Phase1.phase1Complete (fst r) = Phase1.phase1Complete cur /\
     Phase1.simplexTable (fst r) = Phase1.simplexTable cur /\
     Phase1.basicVariables (fst r) = Phase1.basicVariables cur /\
     Phase1.iteration (fst r) = Phase1.iteration cur).
Proof.
  split; [|split].
  - intros s H2 s'.
    destruct (handleNextIteration_verdict s H2) as [Hvars [Hsame [Hkeep Hverdict]]].
    fold s' in Hvars, Hsame, Hkeep, Hverdict.
    split; [exact Hvars|]. split; [exact Hsame|]. split; [exact Hkeep|].
    intro Hopt. destruct (Hverdict Hopt) as [Hfeas Hinf]. split.
    + intro Hlt. destruct (Hfeas Hlt) as [Hm Hc]. split; [exact Hm|].
      split; [exact Hc|].
      unfold Phase1.handleProceedToPhase2. rewrite Hc. reflexivity.
    + intro Hn. destruct (Hinf Hn) as [Hm Hc]. split; [exact Hm|].
      split; [exact Hc|]. intro Hoff.
      unfold Phase1.handleProceedToPhase2. rewrite Hc, Hoff. reflexivity.
  - intros vars cjRow cur t b it H2 Hit r s'.
    destruct (phase1_solveCall_verdict vars cjRow cur t b it H2 Hit) as [Hyes Hno].
    fold r in Hyes, Hno. split; [|exact Hno].
    intro Hopt. subst s'. rewrite (Hyes Hopt). cbn [fst snd].
    destruct (concludePhase1_verdict (zjUnderRhs t) (Phase1.withNames vars cjRow cur))
      as [_ [_ [_ [Hfeas Hinf]]]].
    destruct (concludePhase1_fields (zjUnderRhs t) (Phase1.withNames vars cjRow cur))
      as [F1 [_ [_ [F4 F5]]]].
    split; [reflexivity|].
    split; [cbn [Phase1.withNames Phase1.simplexTable]; rewrite F1; reflexivity|].
    split; [cbn [Phase1.withNames Phase1.basicVariables]; rewrite F4; reflexivity|].
    split; [reflexivity|]. split; [reflexivity|].
    split; [cbn [Phase1.withNames Phase1.iteration]; rewrite F5; reflexivity|].
    split.
    + intro Hlt. destruct (Hfeas Hlt) as [Hm Hc].
      split; [exact Hm|]. split; [exact Hc|].
      unfold Phase1.handleProceedToPhase2.
      cbn [Phase1.withNames Phase1.phase1Complete Phase1.simplexTable Phase1.variables
           Phase1.basicVariables].
      rewrite Hc, F1, F4. reflexivity.
    + intro Hn. destruct (Hinf Hn) as [Hm Hc].
      split; [exact Hm|]. split; [exact Hc|]. intro Hoff.
      unfold Phase1.handleProceedToPhase2.
      cbn [Phase1.withNames Phase1.phase1Complete]. rewrite Hc.
      cbn [Phase1.withNames Phase1.phase1Complete]. rewrite Hoff. reflexivity.
  - intros vars cjRow cur t b it Hit r. subst r.
    unfold Phase1.solveCall, MaxScreen.maxIterations.
    rewrite (proj2 (Nat.leb_gt _ _) Hit). repeat split.
Qed.

Lemma phase1_feasibility_verdict_witness :
  (let s' := Phase1.handleNextIteration ScenarioC.session in
   Phase1.message s' = Some "Phase 1 complete. Original problem is infeasible."%string /\
   Phase1.handleProceedToPhase2 ScenarioC.objective "Maximize" s' = None) /\
  (let tm := hd (MaxScreen.mkTimer [] [] [] [] 0) (Phase1.timers ScenarioB.pending) in
   let cur := Phase1.shown ScenarioB.pending in
   let r := Phase1.solveCall (MaxScreen.closureVariables tm) (MaxScreen.closureCj tm) cur
              (MaxScreen.argTable tm) (MaxScreen.argBasics tm) 3 in
   Phase1.phase1Complete cur = false /\
   snd r = None /\
   Phase1.phase1Complete (fst r) = true /\
   Phase1.handleProceedToPhase2 ScenarioB.objective "Minimize" (fst r) =
     Some (mkPhase2Params ScenarioB.objective (Phase1.simplexTable cur)
             (Phase1.variables cur) (Phase1.basicVariables cur) "Minimize")) /\
  (let r := Phase1.solveCall ScenarioB.vars ScenarioB.cjRow ScenarioB.phase1Final
              (Phase1.simplexTable ScenarioB.phase1Final)
              (Phase1.basicVariables ScenarioB.phase1Final) 101 in
   Phase1.message (fst r) =
     Some "Stopped: reached maximum automatic iterations limit."%string).
Proof.
  pose proof (phase1_feasibility_verdict ScenarioC.objective "Maximize") as [HC _].
  pose proof (phase1_feasibility_verdict ScenarioB.objective "Minimize") as [_ [HB HL]].
  split; [|split].
  - specialize (HC ScenarioC.session ltac:(vm_compute; lia)).
    destruct HC as [_ [_ [_ HC]]].
    destruct (HC ltac:(vm_compute; reflexivity)) as [_ Hinf].
    destruct (Hinf ltac:(vm_compute; intro H; discriminate H)) as [Hm [_ Hno]].
    split; [exact Hm | exact (Hno ltac:(vm_compute; reflexivity))].
  - set (tm := hd (MaxScreen.mkTimer [] [] [] [] 0) (Phase1.timers ScenarioB.pending)).
    set (cur := Phase1.shown ScenarioB.pending).
    specialize (HB (MaxScreen.closureVariables tm) (MaxScreen.closureCj tm) cur
                   (MaxScreen.argTable tm) (MaxScreen.argBasics tm) 3%nat
                   ltac:(vm_compute; lia) ltac:(lia)).
    destruct HB as [HB _].
    destruct (HB ltac:(vm_compute; reflexivity)) as [Hnone [_ [_ [_ [_ [_ [Hfeas _]]]]]]].
    destruct (Hfeas ltac:(vm_compute; reflexivity)) as [_ [Hc Hp]].
    split; [vm_compute; reflexivity|]. split; [exact Hnone|].
    split; [exact Hc | exact Hp].
  - destruct (HL ScenarioB.vars ScenarioB.cjRow ScenarioB.phase1Final
                 (Phase1.simplexTable ScenarioB.phase1Final)
                 (Phase1.basicVariables ScenarioB.phase1Final) 101%nat ltac:(lia))
      as [_ [Hm _]].
    exact Hm.
Defined.

(** C6 as first stated fails at the iteration cap.  On the problem with
    the hundred constraints x_i = 1, "Solve to Optimal" followed by the
    firing of its hundred timers commits a table that is Phase 1 optimal
    with a Zj entry of absolute value below 1e-10 under RHS, yet the last
    call of [solve], whose counter is 101, shows the limit message: the
    problem is not declared feasible, [phase1Complete] stays unset and
    "Proceed to Phase 2" does nothing. *)
Lemma phase1_feasibility_verdict_counterexample :
  let s := Phase1.shown ScenarioE.final in
  Phase1.timers ScenarioE.final = [] /\
  Phase1.iteration s = 101%nat /\
  phase1Optimal (Phase1.variables s) (Phase1.simplexTable s) = true /\
  Qabs (zjUnderRhs (Phase1.simplexTable s)) < eps10 /\
  Phase1.message s = Some "Stopped: reached maximum automatic iterations limit."%string /\
  Phase1.phase1Complete s = false /\
  Phase1.handleProceedToPhase2 ScenarioE.objective "Maximize" s = None.
Proof.
  vm_compute. repeat split.
Qed.

(** * Further properties of the screens *)

(** ** Recomputing the derived rows, and reset *)

Lemma wf_tableau_intro (t : Tableau) (b : list string) (c : list Q) (v : list string) :
  (2 <= length t)%nat ->
  (forall i, (i < length t)%nat -> length (nth i t []) = S (length v)) ->
  length b = (length t - 2)%nat -> length c = length v ->
  wf_tableau t b c v.
Proof.
  intros H2 Hrows Hb Hc. unfold wf_tableau, wf_tableaub.
  rewrite (proj2 (Nat.leb_le _ _) H2), (proj2 (Nat.eqb_eq _ _) Hb),
          (proj2 (Nat.eqb_eq _ _) Hc), !andb_true_r.
  apply forallb_forall. intros row Hin.
  destruct (In_nth t row [] Hin) as [i [Hi <-]].
  apply Nat.eqb_eq. apply Hrows. exact Hi.
Qed.

Lemma derivedTable_first_row_length (t : Tableau) b c v :
  (2 <= length t)%nat ->
  length (nth 0 (Engine.derivedTable t b c v) []) = length (nth 0 t []).
Proof.
  intro H2. destruct (Nat.eq_dec (length t) 2) as [E | E].
  - replace 0%nat with (length t - 2)%nat at 1 by lia.
    rewrite derivedTable_zj by exact H2. apply zjRow_length.
  - rewrite derivedTable_row by lia. reflexivity.
Qed.

Lemma zjRowRaw_ext (t t' : Tableau) (cb : list Q) (rowsCount cols : nat) :
  (forall i, (i < rowsCount)%nat -> nth i t' [] = nth i t []) ->
  Engine.zjRowRaw t' cb rowsCount cols = Engine.zjRowRaw t cb rowsCount cols.
Proof.
  intro H. unfold Engine.zjRowRaw. apply map_ext. intro j.
  rewrite !zjSum_sumRows. apply sumRows_ext. intros i Hi.
  unfold cell. rewrite H by exact Hi. reflexivity.
Qed.

Lemma derivedTable_fixed (t : Tableau) b c v :
  (2 <= length t)%nat ->
  let t' := Engine.derivedTable t b c v in
  Engine.zjRow t' b c v = Engine.zjRow t b c v /\
  Engine.cjZjRow t' b c v = Engine.cjZjRow t b c v /\
  Engine.derivedTable t' b c v = t'.
Proof.
  intros H2 t'.
  assert (Hlen : length t' = length t) by (apply derivedTable_length; exact H2).
  assert (Hcols : length (nth 0 t' []) = length (nth 0 t []))
    by (apply derivedTable_first_row_length; exact H2).
  assert (Hraw : Engine.zjRowRaw t' (Engine.cbValues b c v) (length t' - 2)
                                 (length (nth 0 t' []))
                 = Engine.zjRowRaw t (Engine.cbValues b c v) (length t - 2)
                                   (length (nth 0 t []))).
  { rewrite Hlen, Hcols. apply zjRowRaw_ext. intros i Hi.
    apply derivedTable_row. exact Hi. }
  assert (Hz : Engine.zjRow t' b c v = Engine.zjRow t b c v)
    by (unfold Engine.zjRow; rewrite Hraw; reflexivity).
  assert (Hc : Engine.cjZjRow t' b c v = Engine.cjZjRow t b c v)
    by (unfold Engine.cjZjRow; rewrite Hraw, Hcols; reflexivity).
  split; [exact Hz|]. split; [exact Hc|].
  unfold Engine.derivedTable at 1. rewrite Hz, Hc, Hlen.
  unfold t' at 1. unfold Engine.derivedTable at 1.
  rewrite !map_id. rewrite firstn_app.
  rewrite length_firstn.
  replace (length t - 2 - Nat.min (length t - 2) (length t))%nat with 0%nat by lia.
  simpl firstn at 2. rewrite app_nil_r, firstn_firstn, Nat.min_id.
  unfold t', Engine.derivedTable. rewrite map_id. reflexivity.
Qed.

Lemma computeWith_fixed (entering : list Q -> option (option nat))
  (t : Tableau) (b : list string) (c : list Q) (v : list string) :
  Engine.computeWith entering (Engine.table (Engine.computeWith entering t b c v)) b c v
  = Engine.computeWith entering t b c v.
Proof.
  destruct (Nat.lt_ge_cases (length t) 2) as [Hlt | H2].
  - unfold Engine.computeWith.
    rewrite (proj2 (Nat.ltb_lt _ _) Hlt). simpl.
    rewrite (proj2 (Nat.ltb_lt _ _) Hlt). reflexivity.
  - destruct (computeWith_cases entering t b c v H2) as [Ht _]. rewrite Ht.
    destruct (derivedTable_fixed t b c v H2) as [Hz [Hc Hd]].
    assert (Hlen : length (Engine.derivedTable t b c v) = length t)
      by (apply derivedTable_length; exact H2).
    unfold Engine.computeWith.
    rewrite Hlen, Hd, Hc.
    destruct (length t <? 2)%nat eqn:E; [apply Nat.ltb_lt in E; lia|].
    reflexivity.
Qed.

(** X1.  [computeZjAndCjMinusZj] is idempotent: applied to the table it
    returned (same basis, Cj and variables) it returns the same table, the
    same entering variable and the same leaving variable.  The derived rows
    of its input are never read. *)
Theorem compute_idempotent (entering : list Q -> option (option nat))
  (t : Tableau) (b : list string) (c : list Q) (v : list string) :
  Engine.computeWith entering (Engine.table (Engine.computeWith entering t b c v)) b c v
  = Engine.computeWith entering t b c v.
Proof. exact (computeWith_fixed entering t b c v). Qed.

(** X2.  "Reset" brings back exactly the session that creation committed,
    whatever the current state: table, variables, Cj, basis, entering and
    leaving variable, iteration 1, no message (and [phase1Complete] unset).
    This holds for the single-phase screen, for Phase 1 and for Phase 2. *)
Theorem reset_restores_created :
  (forall (obj : list Q) (constraints : list (list Q)) (rhsValues : list Q)
          (s : MaxScreen.Session),
     SolutionPage.handleReset
       (Some (snd (SolutionPage.createInitialSimplexTable obj constraints rhsValues))) s
     = fst (SolutionPage.createInitialSimplexTable obj constraints rhsValues)) /\
  (forall (objective : list Q) (constraintsMatrix : list (list Q)) (rhs : list Q)
          (constraintTypes : list string) (s : Phase1.Session),
     Phase1.handleReset
       (Some (snd (Phase1.createInitialPhase1Table objective constraintsMatrix rhs
                                                   constraintTypes))) s
     = fst (Phase1.createInitialPhase1Table objective constraintsMatrix rhs
                                            constraintTypes)) /\
  (forall (p : Phase2Params) (s : MaxScreen.Session),
     Phase2.handleReset (Some (Phase2.createdInitialState p)) s
     = Phase2.createPhase2Table p).
Proof.
  split; [|split].
  - intros obj constraints rhsValues s.
    unfold SolutionPage.handleReset, MaxScreen.handleReset,
           SolutionPage.createInitialSimplexTable,
           SolutionPage.computeZjAndCjMinusZj, MaxScreen.computeZjAndCjMinusZj.
    simpl. rewrite computeWith_fixed. reflexivity.
  - intros objective constraintsMatrix rhs constraintTypes s.
    unfold Phase1.handleReset, Phase1.createInitialPhase1Table,
           Phase1.computeZjAndCjMinusZj.
    simpl. rewrite computeWith_fixed. reflexivity.
  - intros p s.
    unfold Phase2.handleReset, MaxScreen.handleReset, Phase2.createdInitialState,
           Phase2.createPhase2Table, Phase2.computeZjAndCjMinusZj,
           MaxScreen.computeZjAndCjMinusZj.
    simpl. rewrite computeWith_fixed. reflexivity.
Qed.

(** ** Rows of the table returned by a pivot *)

Lemma normalizeRow_length (cols : nat) (pv : Q) (row : list Q) :
  length row = cols -> length (Engine.normalizeRow cols pv row) = cols.
Proof.
  intro H. unfold Engine.normalizeRow.
  rewrite length_app, length_map, length_seq, length_skipn. lia.
Qed.

Lemma eliminateRow_length (cols : nat) (f : Q) (p row : list Q) :
  length row = cols -> length (Engine.eliminateRow cols f p row) = cols.
Proof.
  intro H. unfold Engine.eliminateRow.
  rewrite length_app, length_map, length_seq, length_skipn. lia.
Qed.

(** Row [i] after the elimination loop has run over rows [0 .. n-1]. *)
Lemma eliminate_loop_rows (cols pr pc : nat) (t1 : Tableau) (n : nat) :
  (n <= length t1)%nat ->
  let T := fold_left (Engine.eliminateStep cols pr pc) (seq 0 n) t1 in
  length T = length t1 /\
  forall i,
    nth i T [] =
    if ((i <? n)%nat && negb (i =? pr)%nat
        && negb (Qltb (Qabs (cell t1 i pc)) eps12))%bool
    then Engine.eliminateRow cols (cell t1 i pc) (nth pr t1 []) (nth i t1 [])
    else nth i t1 [].
Proof.
  intro Hn. induction n as [|n IH].
  - simpl. split; [reflexivity|]. intro i. reflexivity.
  - destruct IH as [Hlen Hrows]; [lia|].
    rewrite seq_S, fold_left_app. simpl.
    set (T := fold_left (Engine.eliminateStep cols pr pc) (seq 0 n) t1) in *.
    assert (Hpr : nth pr T [] = nth pr t1 []).
    { rewrite Hrows. rewrite Nat.eqb_refl. simpl. rewrite andb_false_r. reflexivity. }
    assert (Hn' : nth n T [] = nth n t1 []).
    { rewrite Hrows. rewrite Nat.ltb_irrefl. reflexivity. }
    unfold Engine.eliminateStep.
    destruct (n =? pr)%nat eqn:En.
    + apply Nat.eqb_eq in En. split; [exact Hlen|]. intro i. rewrite Hrows.
      destruct (Nat.eq_dec i n) as [-> | Hne].
      * rewrite Nat.ltb_irrefl. rewrite (proj2 (Nat.eqb_eq n pr) En). simpl.
        rewrite andb_false_r. reflexivity.
      * replace (i <? S n)%nat with (i <? n)%nat; [reflexivity|].
        destruct (i <? n)%nat eqn:E1; symmetry.
        -- apply Nat.ltb_lt in E1. apply Nat.ltb_lt. lia.
        -- apply Nat.ltb_ge in E1. apply Nat.ltb_ge. lia.
    + assert (Hcell : cell T n pc = cell t1 n pc) by (unfold cell; rewrite Hn'; reflexivity).
      rewrite Hcell.
      destruct (Qltb (Qabs (cell t1 n pc)) eps12) eqn:Ef.
      * split; [exact Hlen|]. intro i. rewrite Hrows.
        destruct (Nat.eq_dec i n) as [-> | Hne].
        -- rewrite Nat.ltb_irrefl, Ef. simpl. rewrite andb_false_r. reflexivity.
        -- replace (i <? S n)%nat with (i <? n)%nat; [reflexivity|].
           destruct (i <? n)%nat eqn:E1; symmetry.
           ++ apply Nat.ltb_lt in E1. apply Nat.ltb_lt. lia.
           ++ apply Nat.ltb_ge in E1. apply Nat.ltb_ge. lia.
      * split; [rewrite setAt_length; exact Hlen|]. intro i.
        destruct (Nat.eq_dec i n) as [-> | Hne].
        -- rewrite nth_setAt_eq by lia. rewrite Hpr, Hn'.
           rewrite (proj2 (Nat.ltb_lt n (S n))) by lia. rewrite En, Ef. reflexivity.
        -- rewrite nth_setAt_neq by lia. rewrite Hrows.
           replace (i <? S n)%nat with (i <? n)%nat; [reflexivity|].
           destruct (i <? n)%nat eqn:E1; symmetry.
           ++ apply Nat.ltb_lt in E1. apply Nat.ltb_lt. lia.
           ++ apply Nat.ltb_ge in E1. apply Nat.ltb_ge. lia.
Qed.

Lemma performPivot_rows (t t' : Tableau) (pr pc : nat) :
  (pr < length t)%nat ->
  Engine.performPivot t pr pc = inr t' ->
  let cols := length (nth 0 t []) in
  let pivotRow := Engine.normalizeRow cols (cell t pr pc) (nth pr t []) in
  length t' = length t /\
  nth pr t' [] = pivotRow /\
  forall i, i <> pr ->
    nth i t' [] =
    if ((i <? length t - 2)%nat && negb (Qltb (Qabs (cell t i pc)) eps12))%bool
    then Engine.eliminateRow cols (cell t i pc) pivotRow (nth i t [])
    else nth i t [].
Proof.
  intros Hpr Hp cols pivotRow.
  unfold Engine.performPivot in Hp.
  rewrite map_id in Hp.
  destruct (Qltb (Qabs (cell t pr pc)) eps12); [discriminate|].
  injection Hp as Hp. fold cols in Hp. fold pivotRow in Hp.
  set (t1 := setAt t pr pivotRow) in *.
  assert (Hlen1 : length t1 = length t) by apply setAt_length.
  destruct (eliminate_loop_rows cols pr pc t1 (length t - 2)) as [Hlen Hrows]; [lia|].
  rewrite Hp in Hlen, Hrows.
  assert (Hprow : nth pr t1 [] = pivotRow) by (apply nth_setAt_eq; exact Hpr).
  split; [congruence|]. split.
  - rewrite Hrows, Nat.eqb_refl. simpl. rewrite andb_false_r. exact Hprow.
  - intros i Hne. rewrite Hrows.
    assert (Hi : nth i t1 [] = nth i t []) by (apply nth_setAt_neq; lia).
    assert (Hc : cell t1 i pc = cell t i pc) by (unfold cell; rewrite Hi; reflexivity).
    rewrite Hc, Hi, Hprow.
    rewrite (proj2 (Nat.eqb_neq i pr) Hne). simpl. rewrite andb_true_r. reflexivity.
Qed.



(** ** Shape invariant along a session *)

Lemma computeWith_wf entering (t : Tableau) (b : list string) (c : list Q)
  (v : list string) :
  (2 <= length t)%nat ->
  (forall i, (i < length t - 2)%nat -> length (nth i t []) = S (length v)) ->
  length (nth 0 t []) = S (length v) ->
  length b = (length t - 2)%nat -> length c = length v ->
  wf_tableau (Engine.table (Engine.computeWith entering t b c v)) b c v.
Proof.
  intros H2 Hrows Hcols Hb Hc.
  destruct (computeWith_cases entering t b c v H2) as [-> _].
  apply wf_tableau_intro.
  - rewrite derivedTable_length by exact H2. exact H2.
  - rewrite derivedTable_length by exact H2. intros i Hi.
    destruct (Nat.lt_ge_cases i (length t - 2)) as [Hlt | Hge].
    + rewrite derivedTable_row by exact Hlt. apply Hrows. exact Hlt.
    + destruct (Nat.eq_dec i (length t - 2)) as [-> | Hne].
      * rewrite derivedTable_zj by exact H2. rewrite zjRow_length. exact Hcols.
      * replace i with (length t - 1)%nat by lia.
        rewrite derivedTable_cjZj by exact H2. rewrite cjZjRow_length. exact Hcols.
  - rewrite derivedTable_length by exact H2. exact Hb.
  - exact Hc.
Qed.

Lemma performPivot_row_lengths (t t' : Tableau) (pr pc cols : nat) :
  (pr < length t)%nat ->
  (forall i, (i < length t)%nat -> length (nth i t []) = cols) ->
  Engine.performPivot t pr pc = inr t' ->
  length t' = length t /\
  forall i, (i < length t)%nat -> length (nth i t' []) = cols.
Proof.
  intros Hpr Hrows Hp.
  assert (Hc0 : length (nth 0 t []) = cols) by (apply Hrows; lia).
  destruct (performPivot_rows t t' pr pc Hpr Hp) as [Hlen [Hprow Hother]].
  rewrite Hc0 in Hprow, Hother.
  split; [exact Hlen|]. intros i Hi.
  destruct (Nat.eq_dec i pr) as [-> | Hne].
  - rewrite Hprow. apply normalizeRow_length. apply Hrows. exact Hpr.
  - rewrite (Hother i Hne).
    destruct (_ && _)%bool; [apply eliminateRow_length|]; apply Hrows; exact Hi.
Qed.

(** What one press of "Next Iteration" does on a maximise screen. *)
Lemma handleNextIteration_cases (msgO msgU : string) (s : MaxScreen.Session) :
  let t := MaxScreen.simplexTable s in
  let s' := MaxScreen.handleNextIteration msgO msgU s in
  MaxScreen.variables s' = MaxScreen.variables s /\
  MaxScreen.cj s' = MaxScreen.cj s /\
  ((MaxScreen.simplexTable s' = t /\
    MaxScreen.basicVariables s' = MaxScreen.basicVariables s /\
    MaxScreen.iteration s' = MaxScreen.iteration s /\
    (MaxScreen.message s' = None \/ MaxScreen.message s' = Some msgO \/
     MaxScreen.message s' = Some msgU)) \/
   (exists r k t1,
      (r < length t - 2)%nat /\ (k < length (MaxScreen.variables s))%nat /\
      eps10 < cell t r k /\
      Engine.performPivot t r k = inr t1 /\
      MaxScreen.basicVariables s' =
        setAt (MaxScreen.basicVariables s) r (nth k (MaxScreen.variables s) ""%string) /\
      MaxScreen.simplexTable s' =
        Engine.table (MaxScreen.computeZjAndCjMinusZj t1 (MaxScreen.basicVariables s')
                        (MaxScreen.cj s) (MaxScreen.variables s)) /\
      MaxScreen.iteration s' = S (MaxScreen.iteration s) /\
      (MaxScreen.message s' = None \/ MaxScreen.message s' = Some msgO))).
Proof.
  intros t s'. subst s'. unfold MaxScreen.handleNextIteration. fold t.
  destruct (length t <? 2)%nat eqn:E2.
  { simpl. split; [reflexivity|]. split; [reflexivity|]. left. auto. }
  set (V := firstn (length (MaxScreen.variables s)) (nth (length t - 1) t [])).
  pose proof (enteringMax_spec V) as Hs.
  destruct (Engine.enteringMax V) as [[k|]|] eqn:Ee.
  - destruct Hs as [Hk _].
    assert (Hkv : (k < length (MaxScreen.variables s))%nat).
    { pose proof (firstn_le_length (length (MaxScreen.variables s))
                                   (nth (length t - 1) t [])). unfold V in Hk. lia. }
    pose proof (ratioTest_spec t (MaxScreen.rhsAt (length (nth 0 t []))) (length t - 2) k)
      as Hr.
    destruct (Engine.ratioTest t (MaxScreen.rhsAt (length (nth 0 t []))) (length t - 2) k)
      as [r|] eqn:Er.
    + destruct Hr as [Hrlt [[Hpos _] _]].
      destruct (selected_pivot_succeeds _ _ _ _ _ Er) as [t1 Ht1].
      unfold MaxScreen.tryPivot. fold t. rewrite Ht1.
      destruct (MaxScreen.maxAtMostEps _); simpl;
        (split; [reflexivity|]); (split; [reflexivity|]); right;
        exists r, k, t1; repeat split; auto.
    + simpl. split; [reflexivity|]. split; [reflexivity|]. left. auto 6.
  - destruct Hs.
  - simpl. split; [reflexivity|]. split; [reflexivity|]. left. auto 6.
Qed.

(** X4.  "Next Iteration" of the maximise screens never ends in the
    pivot-error branch.  It never changes the variable list or Cj.  Either
    it leaves table, basis and iteration counter alone and shows no message,
    the optimal message or the unbounded message; or it pivots once, on a
    constraint row and a variable column whose entry is above 1e-10: the
    entering variable replaces the basis entry of that row, the table is the
    pivoted table with its derived rows recomputed, the iteration counter
    advances by one, and the message is empty or the optimal message. *)
Theorem next_iteration_anatomy (msgOptimal msgUnbounded : string) (s : MaxScreen.Session) :
  let t := MaxScreen.simplexTable s in
  let s' := MaxScreen.handleNextIteration msgOptimal msgUnbounded s in
  MaxScreen.variables s' = MaxScreen.variables s /\
  MaxScreen.cj s' = MaxScreen.cj s /\
  ((MaxScreen.simplexTable s' = t /\
    MaxScreen.basicVariables s' = MaxScreen.basicVariables s /\
    MaxScreen.iteration s' = MaxScreen.iteration s /\
    (MaxScreen.message s' = None \/ MaxScreen.message s' = Some msgOptimal \/
     MaxScreen.message s' = Some msgUnbounded)) \/
   (exists r k t1,
      (r < length t - 2)%nat /\ (k < length (MaxScreen.variables s))%nat /\
      eps10 < cell t r k /\
      Engine.performPivot t r k = inr t1 /\
      MaxScreen.basicVariables s' =
        setAt (MaxScreen.basicVariables s) r (nth k (MaxScreen.variables s) ""%string) /\
      MaxScreen.simplexTable s' =
        Engine.table (MaxScreen.computeZjAndCjMinusZj t1 (MaxScreen.basicVariables s')
                        (MaxScreen.cj s) (MaxScreen.variables s)) /\
      MaxScreen.iteration s' = S (MaxScreen.iteration s) /\
      (MaxScreen.message s' = None \/ MaxScreen.message s' = Some msgOptimal))).
Proof. exact (handleNextIteration_cases msgOptimal msgUnbounded s). Qed.

(** X5.  A well-formed session stays well-formed under "Next Iteration":
    the table keeps its height and the width of every row, and the basis
    keeps one entry per constraint row. *)
Theorem next_iteration_keeps_shape (msgOptimal msgUnbounded : string)
  (s : MaxScreen.Session) :
  wf_session s -> wf_session (MaxScreen.handleNextIteration msgOptimal msgUnbounded s).
Proof.
  intro Hwf. unfold wf_session in *.
  destruct (wf_tableau_inv _ _ _ _ Hwf) as [H2 [Hrows [Hb Hc]]].
  destruct (handleNextIteration_cases msgOptimal msgUnbounded s)
    as [Hv [Hcj [[Ht [Hbs _]] | [r [k [t1 [Hr [Hk [_ [Hp [Hbs [Ht _]]]]]]]]]]]].
  - rewrite Hv, Hcj, Ht, Hbs. exact Hwf.
  - rewrite Hv, Hcj, Ht.
    assert (Hrt : (r < length (MaxScreen.simplexTable s))%nat) by lia.
    destruct (performPivot_row_lengths _ _ _ _ _ Hrt Hrows Hp) as [Hlen Hrows1].
    apply computeWith_wf.
    + lia.
    + intros i Hi. apply Hrows1. lia.
    + apply Hrows1. lia.
    + rewrite Hbs, setAt_length. lia.
    + exact Hc.
Qed.

Lemma next_iteration_keeps_shape_witness :
  wf_session ScenarioA.session /\
  wf_session (SolutionPage.handleNextIteration ScenarioA.session).
Proof.
  split; [reflexivity|].
  apply (next_iteration_keeps_shape SolutionPage.msgOptimal SolutionPage.msgUnbounded
                                    ScenarioA.session).
  reflexivity.
Defined.

(** ** Generated variable names *)

Lemma numberToString_inj (n m : nat) : numberToString n = numberToString m -> n = m.
Proof.
  unfold numberToString. intro H.
  assert (Hu : Some (Nat.to_uint n) = Some (Nat.to_uint m)).
  { rewrite <- (NilEmpty.usu (Nat.to_uint n)), <- (NilEmpty.usu (Nat.to_uint m)), H.
    reflexivity. }
  injection Hu as Hu.
  rewrite <- (Unsigned.of_to n), <- (Unsigned.of_to m), Hu. reflexivity.
Qed.

Lemma numberedNames_length (prefix : string) (n : nat) :
  length (numberedNames prefix n) = n.
Proof. unfold numberedNames. rewrite length_map, length_seq. reflexivity. Qed.

Lemma numberedNames_nth (prefix : string) (n i : nat) :
  (i < n)%nat ->
  nth i (numberedNames prefix n) ""%string = (prefix ++ numberToString (i + 1))%string.
Proof.
  intro Hi. unfold numberedNames.
  apply (nth_map_seq (fun i => (prefix ++ numberToString (i + 1))%string)). exact Hi.
Qed.

Lemma numberedNames_In (prefix : string) (n : nat) (name : string) :
  In name (numberedNames prefix n) <->
  exists i, (i < n)%nat /\ name = (prefix ++ numberToString (i + 1))%string.
Proof.
  unfold numberedNames. rewrite in_map_iff. split.
  - intros [i [<- Hi]]. apply in_seq in Hi. exists i. split; [lia | reflexivity].
  - intros [i [Hi ->]]. exists i. split; [reflexivity | apply in_seq; lia].
Qed.

Lemma append_inj_r (p a b : string) : (p ++ a = p ++ b)%string -> a = b.
Proof.
  induction p as [|c p IH]; simpl; intro H; [exact H|].
  injection H as H. apply IH. exact H.
Qed.

Lemma numberedNames_NoDup (prefix : string) (n : nat) : NoDup (numberedNames prefix n).
Proof.
  unfold numberedNames. apply Injective_map_NoDup_in.
  - intros i j _ _ H. apply append_inj_r in H. apply numberToString_inj in H. lia.
  - apply seq_NoDup.
Qed.

(** Names built on two different one-letter prefixes never coincide. *)
Lemma numberedNames_disjoint (c1 c2 : ascii) (n m : nat) (name : string) :
  c1 <> c2 ->
  In name (numberedNames (String c1 "") n) ->
  ~ In name (numberedNames (String c2 "") m).
Proof.
  intros Hne H1 H2.
  apply numberedNames_In in H1. destruct H1 as [i [_ ->]].
  apply numberedNames_In in H2. destruct H2 as [j [_ H2]].
  simpl in H2. injection H2 as Hc _. exact (Hne Hc).
Qed.

Lemma startsWith_numbered (c1 c2 : ascii) (n : nat) (name : string) :
  In name (numberedNames (String c1 "") n) ->
  startsWith (String c2 "") name = if ascii_dec c2 c1 then true else false.
Proof.
  intro H. apply numberedNames_In in H. destruct H as [i [_ ->]].
  unfold startsWith. simpl. destruct (ascii_dec c2 c1); [|reflexivity].
  destruct (numberToString (i + 1)); reflexivity.
Qed.

(** ** CB lookup *)

Lemma indexOf_Some (s : string) (xs : list string) (k : nat) :
  indexOf s xs = Some k ->
  (k < length xs)%nat /\ nth k xs ""%string = s /\
  forall j, (j < k)%nat -> nth j xs ""%string <> s.
Proof.
  revert k. induction xs as [|x r IH]; intro k; simpl; [discriminate|].
  destruct (String.eqb x s) eqn:E.
  - intros [= <-]. apply String.eqb_eq in E. repeat split; [lia | exact E | lia].
  - destruct (indexOf s r) as [k'|]; simpl; [|discriminate].
    intros [= <-]. destruct (IH k' eq_refl) as [H1 [H2 H3]].
    repeat split; [lia | exact H2 |].
    intros [|j] Hj.
    + apply String.eqb_neq in E. exact E.
    + apply H3. lia.
Qed.

Lemma indexOf_In (s : string) (xs : list string) :
  In s xs -> exists k, indexOf s xs = Some k.
Proof.
  intro H. destruct (indexOf s xs) as [k|] eqn:E; [eauto|].
  exfalso. revert H E. induction xs as [|x r IH]; simpl; [tauto|].
  intros [-> | Hin].
  - rewrite String.eqb_refl. discriminate.
  - destruct (String.eqb x s); [discriminate|].
    destruct (indexOf s r); [discriminate|]. intros _. apply IH; auto.
Qed.

(** X6.  The CB lookup reads the Cj entry at the first position where the
    basis name occurs in the variable list.  When the names of the list are
    pairwise distinct, the objective coefficient looked up for the k-th
    variable is the k-th Cj entry. *)
Theorem cb_lookup_finds_coefficient (allVars : list string) (cjRow : list Q) :
  (forall b k, In b allVars -> indexOf b allVars = Some k ->
     nth k allVars ""%string = b /\
     (forall j, (j < k)%nat -> nth j allVars ""%string <> b) /\
     Engine.cbOf allVars cjRow b = nth k cjRow 0) /\
  (NoDup allVars ->
   forall k, (k < length allVars)%nat ->
     Engine.cbOf allVars cjRow (nth k allVars ""%string) = nth k cjRow 0).
Proof.
  split.
  - intros b k _ Hk. destruct (indexOf_Some b allVars k Hk) as [_ [Hn Hfirst]].
    split; [exact Hn|]. split; [exact Hfirst|].
    unfold Engine.cbOf. rewrite Hk. reflexivity.
  - intros Hnd k Hk.
    destruct (indexOf_In (nth k allVars ""%string) allVars) as [k' Hk'];
      [apply nth_In; exact Hk|].
    destruct (indexOf_Some _ _ _ Hk') as [Hlt [Hn _]].
    assert (k' = k).
    { apply (proj1 (NoDup_nth allVars ""%string) Hnd); assumption. }
    subst k'. unfold Engine.cbOf. rewrite Hk'. reflexivity.
Qed.

Lemma cb_lookup_finds_coefficient_witness :
  NoDup ScenarioA.vars /\
  Engine.cbOf ScenarioA.vars ScenarioA.cjRow (nth 1 ScenarioA.vars ""%string)
  = nth 1 ScenarioA.cjRow 0.
Proof.
  assert (Hnd : NoDup ScenarioA.vars).
  { change ScenarioA.vars with (numberedNames "x" 2 ++ numberedNames "s" 3)%list.
    apply NoDup_app.
    - apply numberedNames_NoDup.
    - apply numberedNames_NoDup.
    - intros name H1 H2.
      apply (numberedNames_disjoint "x" "s" 2 3 name); [discriminate | exact H1 | exact H2]. }
  split; [exact Hnd|].
  apply (proj2 (cb_lookup_finds_coefficient ScenarioA.vars ScenarioA.cjRow) Hnd 1%nat).
  vm_compute. lia.
Defined.

(** ** Creation of the single-phase session *)

Lemma problem_shape_inv (objective : list Q) (constraintsMatrix : list (list Q))
  (rhs : list Q) :
  problem_shape objective constraintsMatrix rhs ->
  (forall i, (i < length constraintsMatrix)%nat ->
             length (nth i constraintsMatrix []) = length objective) /\
  length rhs = length constraintsMatrix.
Proof.
  unfold problem_shape, problem_shapeb. intro H.
  apply andb_prop in H as [H1 H2]. apply Nat.eqb_eq in H2.
  rewrite forallb_forall in H1. split; [|exact H2].
  intros i Hi. apply Nat.eqb_eq. apply H1. apply nth_In. exact Hi.
Qed.






Lemma initialTable_shape (obj : list Q) (constraints : list (list Q)) (rhsValues : list Q) :
  problem_shape obj constraints rhsValues ->
  let t := SolutionPage.initialTable obj constraints rhsValues in
  let n := length obj in
  let m := length constraints in
  length t = (m + 2)%nat /\
  (forall i, (i < m)%nat ->
     nth i t [] = SolutionPage.initialRow constraints rhsValues m i) /\
  (forall i, (i < m + 2)%nat -> length (nth i t []) = S (n + m)).
Proof.
  intros Hshape t n m.
  destruct (problem_shape_inv _ _ _ Hshape) as [Hrows Hrhs].
  assert (Hlen : length t = (m + 2)%nat).
  { unfold t, SolutionPage.initialTable.
    rewrite length_app, length_map, length_seq. reflexivity. }
  assert (Hrow : forall i, (i < m)%nat ->
            nth i t [] = SolutionPage.initialRow constraints rhsValues m i).
  { intros i Hi. unfold t, SolutionPage.initialTable.
    rewrite app_nth1 by (rewrite length_map, length_seq; exact Hi).
    apply (nth_map_seq (SolutionPage.initialRow constraints rhsValues m)). exact Hi. }
  split; [exact Hlen|]. split; [exact Hrow|].
  intros i Hi. destruct (Nat.lt_ge_cases i m) as [Hlt | Hge].
  - rewrite Hrow by exact Hlt. unfold SolutionPage.initialRow.
    rewrite !length_app, length_map, length_seq, Hrows by exact Hlt. simpl. fold n. lia.
  - unfold t, SolutionPage.initialTable.
    rewrite app_nth2 by (rewrite length_map, length_seq; exact Hge).
    rewrite length_map, length_seq. fold m. fold n.
    destruct (i - m)%nat as [|[|j]] eqn:Ej; simpl.
    + rewrite repeat_length. lia.
    + rewrite repeat_length. lia.
    + lia.
Qed.

(** X7.  For a problem of n objective coefficients and m constraint rows
    of n coefficients each, with m right-hand sides,
    [createInitialSimplexTable] commits a well-formed session at iteration 1
    without message: n + m pairwise distinct variable names, Cj equal to the
    objective followed by m zeros, the i-th basic variable being the
    variable of column n + i, whose column is the i-th unit vector over the
    constraint rows; row i holds the coefficients of constraint i in the
    first n columns and its right-hand side in the last one. *)
Theorem initial_session_shape (obj : list Q) (constraints : list (list Q))
  (rhsValues : list Q) :
  problem_shape obj constraints rhsValues ->
  let s := fst (SolutionPage.createInitialSimplexTable obj constraints rhsValues) in
  let n := length obj in
  let m := length constraints in
  wf_session s /\
  MaxScreen.iteration s = 1%nat /\ MaxScreen.message s = None /\
  NoDup (MaxScreen.variables s) /\
  length (MaxScreen.variables s) = (n + m)%nat /\
  MaxScreen.cj s = (obj ++ repeat 0 m)%list /\
  (forall i, (i < m)%nat ->
     nth i (MaxScreen.basicVariables s) ""%string
     = nth (n + i) (MaxScreen.variables s) ""%string /\
     forall i', (i' < m)%nat ->
       cell (MaxScreen.simplexTable s) i' (n + i) = if (i' =? i)%nat then 1 else 0) /\
  (forall i, (i < m)%nat ->
     (forall j, (j < n)%nat ->
        cell (MaxScreen.simplexTable s) i j = nth j (nth i constraints []) 0) /\
     cell (MaxScreen.simplexTable s) i (n + m) = nth i rhsValues 0).
Proof.
  intros Hshape s n m.
  destruct (problem_shape_inv _ _ _ Hshape) as [Hrows Hrhs].
  destruct (initialTable_shape obj constraints rhsValues Hshape) as [Hlen [Hrow Hwidth]].
  fold n in Hrows, Hwidth. fold m in Hrows, Hrhs, Hlen, Hrow, Hwidth.
  set (t := SolutionPage.initialTable obj constraints rhsValues) in *.
  set (vars := (numberedNames "x" n ++ numberedNames "s" m)%list).
  assert (Hvl : length vars = (n + m)%nat)
    by (unfold vars; rewrite length_app, !numberedNames_length; reflexivity).
  assert (Htab : MaxScreen.simplexTable s =
                 Engine.derivedTable t (numberedNames "s" m) (obj ++ repeat 0 m)%list vars).
  { unfold s, SolutionPage.createInitialSimplexTable. simpl.
    unfold SolutionPage.computeZjAndCjMinusZj, MaxScreen.computeZjAndCjMinusZj.
    apply (computeWith_cases Engine.enteringMax t); lia. }
  assert (Hcell : forall i j, (i < m)%nat ->
            cell (MaxScreen.simplexTable s) i j =
            nth j (SolutionPage.initialRow constraints rhsValues m i) 0).
  { intros i j Hi. unfold cell. rewrite Htab, derivedTable_row by lia.
    rewrite Hrow by exact Hi. reflexivity. }
  split; [|split; [|split; [|split; [|split; [|split; [|split]]]]]].
  - unfold wf_session, s, SolutionPage.createInitialSimplexTable. simpl.
    unfold SolutionPage.computeZjAndCjMinusZj, MaxScreen.computeZjAndCjMinusZj.
    fold n. fold m. fold t. fold vars.
    apply computeWith_wf.
    + lia.
    + intros i Hi. rewrite Hwidth by lia. lia.
    + rewrite Hwidth by lia. lia.
    + rewrite numberedNames_length. lia.
    + rewrite length_app, repeat_length. lia.
  - reflexivity.
  - reflexivity.
  - unfold s, SolutionPage.createInitialSimplexTable. simpl. apply NoDup_app.
    + apply numberedNames_NoDup.
    + apply numberedNames_NoDup.
    + intros name H1 H2.
      apply (numberedNames_disjoint "x" "s" (length obj) (length constraints) name);
        [discriminate | exact H1 | exact H2].
  - exact Hvl.
  - reflexivity.
  - intros i Hi. split.
    + unfold s, SolutionPage.createInitialSimplexTable. simpl. fold n. fold m.
      rewrite app_nth2 by (rewrite numberedNames_length; lia).
      rewrite numberedNames_length. replace (n + i - n)%nat with i by lia. reflexivity.
    + intros i' Hi'. rewrite Hcell by exact Hi'. unfold SolutionPage.initialRow.
      rewrite app_nth2 by (rewrite Hrows by exact Hi'; lia).
      rewrite Hrows by exact Hi'. replace (n + i - n)%nat with i by lia.
      rewrite app_nth1 by (rewrite length_map, length_seq; exact Hi).
      apply (nth_map_seq (fun j => if (i' =? j)%nat then 1 else 0)). exact Hi.
  - intros i Hi. split.
    + intros j Hj. rewrite Hcell by exact Hi. unfold SolutionPage.initialRow.
      rewrite app_nth1 by (rewrite Hrows by exact Hi; exact Hj). reflexivity.
    + rewrite Hcell by exact Hi. unfold SolutionPage.initialRow.
      rewrite app_nth2 by (rewrite Hrows by exact Hi; lia).
      rewrite Hrows by exact Hi.
      rewrite app_nth2 by (rewrite length_map, length_seq; lia).
      rewrite length_map, length_seq.
      replace (n + m - n - m)%nat with 0%nat by lia. reflexivity.
Qed.

Lemma initial_session_shape_witness :
  problem_shape [3; 5] [[1; 0]; [0; 2]; [3; 2]] [4; 12; 18] /\
  wf_session (fst (SolutionPage.createInitialSimplexTable
                     [3; 5] [[1; 0]; [0; 2]; [3; 2]] [4; 12; 18])).
Proof.
  split; [reflexivity|].
  apply (initial_session_shape [3; 5] [[1; 0]; [0; 2]; [3; 2]] [4; 12; 18]).
  reflexivity.
Defined.




(** ** Invariants of a single-phase session *)

Lemma nth_setAt_cases {A : Type} (l : list A) (r i : nat) (v d : A) :
  nth i (setAt l r v) d = v \/ nth i (setAt l r v) d = nth i l d.
Proof.
  destruct (Nat.eq_dec r i) as [-> | Hne].
  - destruct (Nat.lt_ge_cases i (length l)) as [Hlt | Hge].
    + left. apply nth_setAt_eq. exact Hlt.
    + right. rewrite !nth_overflow; [reflexivity | lia | rewrite setAt_length; lia].
  - right. apply nth_setAt_neq. exact Hne.
Qed.

(** A pivot on a constraint row and a variable column, followed by the
    recomputation of the derived rows, keeps the shape invariant and the
    basis inside the variable list. *)
Lemma pivot_invariants entering (t t1 : Tableau) (b : list string) (c : list Q)
  (v : list string) (r k : nat) :
  wf_tableau t b c v -> basis_in_variables b v ->
  (r < length t - 2)%nat -> (k < length v)%nat ->
  Engine.performPivot t r k = inr t1 ->
  let b' := setAt b r (nth k v ""%string) in
  wf_tableau (Engine.table (Engine.computeWith entering t1 b' c v)) b' c v /\
  basis_in_variables b' v.
Proof.
  intros Hwf Hbv Hr Hk Hp b'.
  destruct (wf_tableau_inv _ _ _ _ Hwf) as [H2 [Hrows [Hb Hc]]].
  assert (Hrt : (r < length t)%nat) by lia.
  destruct (performPivot_row_lengths _ _ _ _ _ Hrt Hrows Hp) as [Hlen Hrows1].
  split.
  - apply computeWith_wf.
    + lia.
    + intros i Hi. apply Hrows1. lia.
    + apply Hrows1. lia.
    + unfold b'. rewrite setAt_length. lia.
    + exact Hc.
  - intros i Hi. unfold b' in *. rewrite setAt_length in Hi.
    destruct (nth_setAt_cases b r i (nth k v ""%string) ""%string) as [-> | ->].
    + apply nth_In. exact Hk.
    + apply Hbv. exact Hi.
Qed.

(** One call of [solve] below the cap, with the pivot it performs. *)
Lemma solveTurn_pivot (msgO msgU : string) (st : MaxScreen.Session) (t : Tableau)
  (b : list string) (it : nat) :
  match MaxScreen.solveTurn msgO msgU st t b it with
  | MaxScreen.Stop s' =>
      MaxScreen.simplexTable s' = MaxScreen.simplexTable st /\
      MaxScreen.basicVariables s' = MaxScreen.basicVariables st /\
      MaxScreen.variables s' = MaxScreen.variables st /\
      MaxScreen.cj s' = MaxScreen.cj st /\
      MaxScreen.iteration s' = MaxScreen.iteration st
  | MaxScreen.Continue s' t' b' =>
      exists r k t1,
        (r < length t - 2)%nat /\ (k < length (MaxScreen.variables st))%nat /\
        Engine.performPivot t r k = inr t1 /\
        b' = setAt b r (nth k (MaxScreen.variables st) ""%string) /\
        t' = Engine.table (MaxScreen.computeZjAndCjMinusZj t1 b' (MaxScreen.cj st)
                             (MaxScreen.variables st)) /\
        MaxScreen.simplexTable s' = t' /\ MaxScreen.basicVariables s' = b' /\
        MaxScreen.variables s' = MaxScreen.variables st /\
        MaxScreen.cj s' = MaxScreen.cj st /\
        MaxScreen.iteration s' = S it
  end.
Proof.
  unfold MaxScreen.solveTurn.
  set (V := firstn (length (MaxScreen.variables st)) (nth (length t - 1) t [])).
  pose proof (enteringMax_spec V) as Hs.
  destruct (Engine.enteringMax V) as [[k|]|] eqn:Ee.
  - destruct Hs as [Hk _].
    assert (Hkv : (k < length (MaxScreen.variables st))%nat).
    { pose proof (firstn_le_length (length (MaxScreen.variables st))
                                   (nth (length t - 1) t [])). unfold V in Hk. lia. }
    pose proof (ratioTest_spec t (MaxScreen.rhsAt (length (nth 0 t []))) (length t - 2) k)
      as Hr.
    destruct (Engine.ratioTest t (MaxScreen.rhsAt (length (nth 0 t []))) (length t - 2) k)
      as [r|] eqn:Er.
    + destruct Hr as [Hrlt _].
      destruct (selected_pivot_succeeds _ _ _ _ _ Er) as [t1 Ht1]. rewrite Ht1.
      exists r, k, t1. simpl. repeat split; auto.
    + simpl. repeat split; reflexivity.
  - destruct Hs.
  - simpl. repeat split; reflexivity.
Qed.

Lemma handleNextIteration_invariants (msgO msgU : string) (s : MaxScreen.Session) :
  wf_session s ->
  basis_in_variables (MaxScreen.basicVariables s) (MaxScreen.variables s) ->
  let s' := MaxScreen.handleNextIteration msgO msgU s in
  wf_session s' /\
  basis_in_variables (MaxScreen.basicVariables s') (MaxScreen.variables s') /\
  MaxScreen.variables s' = MaxScreen.variables s /\
  MaxScreen.cj s' = MaxScreen.cj s /\
  (MaxScreen.iteration s <= MaxScreen.iteration s')%nat.
Proof.
  intros Hwf Hbv s'. unfold wf_session in *.
  destruct (handleNextIteration_cases msgO msgU s)
    as [Hv [Hcj [[Ht [Hbs [Hi _]]] | [r [k [t1 [Hr [Hk [_ [Hp [Hbs [Ht [Hi _]]]]]]]]]]]]];
    fold s' in Hv, Hcj, Ht, Hbs, Hi.
  - rewrite Hv, Hcj, Ht, Hbs, Hi. auto.
  - destruct (pivot_invariants Engine.enteringMax _ _ _ _ _ _ _ Hwf Hbv Hr Hk Hp)
      as [Hwf1 Hbv1].
    rewrite Hv, Hcj, Ht, Hbs, Hi.
    split; [exact Hwf1|]. split; [exact Hbv1|]. split; [reflexivity|].
    split; [reflexivity|]. lia.
Qed.

Lemma created_session_invariants (obj : list Q) (constraints : list (list Q))
  (rhsValues : list Q) :
  problem_shape obj constraints rhsValues ->
  let s := fst (SolutionPage.createInitialSimplexTable obj constraints rhsValues) in
  wf_session s /\
  basis_in_variables (MaxScreen.basicVariables s) (MaxScreen.variables s).
Proof.
  intros Hshape s.
  destruct (initialTable_shape obj constraints rhsValues Hshape) as [Hlen [_ Hwidth]].
  split.
  - unfold wf_session, s, SolutionPage.createInitialSimplexTable. simpl.
    unfold SolutionPage.computeZjAndCjMinusZj, MaxScreen.computeZjAndCjMinusZj.
    apply computeWith_wf.
    + lia.
    + intros i Hi. rewrite Hwidth by lia.
      rewrite length_app, !numberedNames_length. lia.
    + rewrite Hwidth by lia. rewrite length_app, !numberedNames_length. lia.
    + rewrite numberedNames_length. lia.
    + rewrite !length_app, repeat_length, !numberedNames_length. lia.
  - intros i Hi. unfold s, SolutionPage.createInitialSimplexTable in *. simpl in *.
    apply in_or_app. right. apply nth_In. exact Hi.
Qed.

(** One call of [solve] keeps the committed session fitting, and the timer
    it sets fits as well. *)
Lemma solveCall_invariants (msgO msgU : string) (V : list string) (C : list Q)
  (cur : MaxScreen.Session) (t : Tableau) (b : list string) (it : nat) :
  session_ok V C cur -> wf_tableau t b C V -> basis_in_variables b V -> (1 <= it)%nat ->
  let r := MaxScreen.solveCall msgO msgU V C cur t b it in
  session_ok V C (fst r) /\
  (forall pending, Forall (timer_ok V C) pending ->
                   Forall (timer_ok V C) (MaxScreen.schedule pending (snd r))).
Proof.
  intros [Hwf [Hbv [Hv [Hc Hi]]]] Hwt Hbt Hit r. subst r.
  unfold MaxScreen.solveCall.
  destruct (it <=? MaxScreen.maxIterations)%nat.
  - pose proof (solveTurn_pivot msgO msgU (MaxScreen.withNames V C cur) t b it) as Ht.
    destruct (MaxScreen.solveTurn msgO msgU (MaxScreen.withNames V C cur) t b it)
      as [s' | s' t' b']; cbn [fst snd MaxScreen.schedule].
    + destruct Ht as [T1 [T2 [_ [_ T5]]]].
      cbn [MaxScreen.withNames MaxScreen.simplexTable MaxScreen.basicVariables
           MaxScreen.iteration] in T1, T2, T5.
      split; [|intros pending Hp; exact Hp].
      unfold session_ok, wf_session.
      cbn [MaxScreen.withNames MaxScreen.simplexTable MaxScreen.basicVariables
           MaxScreen.variables MaxScreen.cj MaxScreen.iteration].
      rewrite T1, T2, T5.
      split; [exact Hwf|]. split; [exact Hbv|]. split; [exact Hv|].
      split; [exact Hc | exact Hi].
    + destruct Ht as [r [k [t1 [Hr [Hk [Hp [Hb' [Ht' [Hst [Hsb [_ [_ Hsi]]]]]]]]]]]].
      cbn [MaxScreen.withNames MaxScreen.variables MaxScreen.cj] in Hk, Hb', Ht'.
      destruct (pivot_invariants Engine.enteringMax t t1 b C V r k Hwt Hbt Hr Hk Hp)
        as [Hwf1 Hbv1].
      split.
      * unfold session_ok, wf_session.
        cbn [MaxScreen.withNames MaxScreen.simplexTable MaxScreen.basicVariables
             MaxScreen.variables MaxScreen.cj MaxScreen.iteration].
        rewrite Hst, Hsb, Hsi, Ht', Hb', Hv, Hc.
        split; [exact Hwf1|]. split; [exact Hbv1|]. split; [reflexivity|].
        split; [reflexivity | lia].
      * intros pending Hpend. apply Forall_app. split; [exact Hpend|].
        constructor; [|constructor]. unfold timer_ok.
        cbn [MaxScreen.closureVariables MaxScreen.closureCj MaxScreen.argTable
             MaxScreen.argBasics MaxScreen.argIteration].
        rewrite Ht', Hb'.
        split; [reflexivity|]. split; [reflexivity|]. split; [exact Hwf1|].
        split; [exact Hbv1 | lia].
  - cbn [fst snd MaxScreen.schedule]. split; [|intros pending Hp; exact Hp].
    unfold session_ok, wf_session. simpl.
    split; [exact Hwf|]. split; [exact Hbv|]. split; [exact Hv|].
    split; [exact Hc | exact Hi].
Qed.

(** Every event keeps the committed session and the pending timers fitting,
    provided "Reset" does. *)
Lemma step_invariants (msgO msgU : string) (init : option MaxScreen.Initial.State)
  (V : list string) (C : list Q) (sc : MaxScreen.Screen) (ev : MaxScreen.Event) :
  (forall x, session_ok V C x -> session_ok V C (MaxScreen.handleReset init x)) ->
  session_ok V C (MaxScreen.shown sc) -> Forall (timer_ok V C) (MaxScreen.timers sc) ->
  let sc' := MaxScreen.step msgO msgU init sc ev in
  session_ok V C (MaxScreen.shown sc') /\ Forall (timer_ok V C) (MaxScreen.timers sc').
Proof.
  intros Hreset Hs Ht sc'. subst sc'.
  destruct ev; cbn [MaxScreen.step MaxScreen.shown MaxScreen.timers].
  - split; [|exact Ht]. destruct Hs as [Hwf [Hbv [Hv [Hc Hi]]]].
    destruct (handleNextIteration_invariants msgO msgU _ Hwf Hbv) as [A [B [D [E F]]]].
    split; [exact A|]. split; [exact B|]. split; [congruence|].
    split; [congruence | lia].
  - assert (Hs' : session_ok V C (MaxScreen.setMessage None (MaxScreen.shown sc))).
    { destruct Hs as [Hwf [Hbv [Hv [Hc Hi]]]]. unfold session_ok, wf_session. simpl.
      split; [exact Hwf|]. split; [exact Hbv|]. split; [exact Hv|].
      split; [exact Hc | exact Hi]. }
    destruct Hs as [Hwf [Hbv [Hv [Hc Hi]]]]. rewrite Hv, Hc.
    unfold wf_session in Hwf. rewrite Hv, Hc in Hwf. rewrite Hv in Hbv.
    destruct (solveCall_invariants msgO msgU V C _ _ _ _ Hs' Hwf Hbv Hi) as [A B].
    split; [exact A | apply B; exact Ht].
  - split; [apply Hreset; exact Hs | exact Ht].
  - destruct (MaxScreen.timers sc) as [|tm rest] eqn:Et.
    + split; [exact Hs | rewrite Et; exact Ht].
    + cbn [MaxScreen.shown MaxScreen.timers].
      apply Forall_cons_iff in Ht. destruct Ht as [[Hcv [Hcc [Hwt [Hbt Hit]]]] Hrest].
      rewrite Hcv, Hcc.
      destruct (solveCall_invariants msgO msgU V C _ _ _ _ Hs Hwt Hbt Hit) as [A B].
      split; [exact A | apply B; exact Hrest].
Qed.

Lemma run_invariants (msgO msgU : string) (init : option MaxScreen.Initial.State)
  (V : list string) (C : list Q) (events : list MaxScreen.Event) :
  (forall x, session_ok V C x -> session_ok V C (MaxScreen.handleReset init x)) ->
  forall sc,
  session_ok V C (MaxScreen.shown sc) -> Forall (timer_ok V C) (MaxScreen.timers sc) ->
  let sc' := MaxScreen.run msgO msgU init events sc in
  session_ok V C (MaxScreen.shown sc') /\ Forall (timer_ok V C) (MaxScreen.timers sc').
Proof.
  intro Hreset. unfold MaxScreen.run.
  induction events as [|ev events IH]; intros sc Hs Ht; simpl.
  - split; assumption.
  - destruct (step_invariants msgO msgU init V C sc ev Hreset Hs Ht) as [A B].
    apply IH; assumption.
Qed.

(** X9.  Whatever sequence of presses of "Next Iteration", "Solve to
    Optimal" and "Reset" and of firings of the timers that "Solve to
    Optimal" sets happens on the single-phase screen after
    [createInitialSimplexTable] has run on a well-shaped problem (the
    buttons stay enabled and nothing cancels a timer, so a press may fall
    between two calls of [solve]), the committed session stays well-formed,
    every basis entry names a variable of the list (so no CB lookup falls
    back to the default 0 for a missing name), the variable list and the Cj
    row are the created ones, the iteration counter is at least 1, and
    every pending call of [solve] holds the created names and Cj row, a
    table and a basis that are well-formed for them, and a counter of at
    least 1. *)
Theorem session_invariants (obj : list Q) (constraints : list (list Q))
  (rhsValues : list Q) (events : list MaxScreen.Event) :
  problem_shape obj constraints rhsValues ->
  let created := SolutionPage.createInitialSimplexTable obj constraints rhsValues in
  let sc := SolutionPage.run (Some (snd created)) events
                             (MaxScreen.mkScreen (fst created) []) in
  let s := MaxScreen.shown sc in
  wf_session s /\
  basis_in_variables (MaxScreen.basicVariables s) (MaxScreen.variables s) /\
  MaxScreen.variables s = MaxScreen.variables (fst created) /\
  MaxScreen.cj s = MaxScreen.cj (fst created) /\
  (1 <= MaxScreen.iteration s)%nat /\
  Forall (timer_ok (MaxScreen.variables (fst created)) (MaxScreen.cj (fst created)))
         (MaxScreen.timers sc).
Proof.
  intros Hshape created sc s.
  destruct (created_session_invariants obj constraints rhsValues Hshape) as [Hwf0 Hbv0].
  fold created in Hwf0, Hbv0.
  assert (Hstart : session_ok (MaxScreen.variables (fst created))
                              (MaxScreen.cj (fst created)) (fst created)).
  { split; [exact Hwf0|]. split; [exact Hbv0|]. split; [reflexivity|].
    split; [reflexivity|]. simpl. lia. }
  assert (Hreset : forall x,
            MaxScreen.handleReset (Some (snd created)) x = fst created).
  { intro x. unfold created.
    unfold MaxScreen.handleReset, SolutionPage.createInitialSimplexTable,
      SolutionPage.computeZjAndCjMinusZj, MaxScreen.computeZjAndCjMinusZj.
    simpl snd. cbv beta iota zeta.
    unfold MaxScreen.Initial.table, MaxScreen.Initial.basics, MaxScreen.Initial.cj,
      MaxScreen.Initial.vars.
    rewrite computeWith_fixed. reflexivity. }
  destruct (run_invariants SolutionPage.msgOptimal SolutionPage.msgUnbounded
              (Some (snd created)) (MaxScreen.variables (fst created))
              (MaxScreen.cj (fst created)) events
              (fun x _ => eq_ind_r (session_ok _ _) Hstart (Hreset x))
              (MaxScreen.mkScreen (fst created) []) Hstart (Forall_nil _))
    as [[A [B [D [E F]]]] G].
  fold (SolutionPage.run (Some (snd created)) events
          (MaxScreen.mkScreen (fst created) [])) in A, B, D, E, F, G.
  fold sc in A, B, D, E, F, G. fold s in A, B, D, E, F.
  split; [exact A|]. split; [exact B|]. split; [exact D|]. split; [exact E|].
  split; [exact F | exact G].
Qed.

Lemma session_invariants_witness :
  problem_shape [3; 5] [[1; 0]; [0; 2]; [3; 2]] [4; 12; 18] /\
  wf_session
    (MaxScreen.shown
       (SolutionPage.run
          (Some (snd (SolutionPage.createInitialSimplexTable
                        [3; 5] [[1; 0]; [0; 2]; [3; 2]] [4; 12; 18])))
          [MaxScreen.PressSolveToOptimal; MaxScreen.PressReset;
           MaxScreen.PressNextIteration; MaxScreen.TimerFires; MaxScreen.TimerFires]
          (MaxScreen.mkScreen
             (fst (SolutionPage.createInitialSimplexTable
                     [3; 5] [[1; 0]; [0; 2]; [3; 2]] [4; 12; 18])) []))).
Proof.
  split; [reflexivity|].
  exact (proj1 (session_invariants [3; 5] [[1; 0]; [0; 2]; [3; 2]] [4; 12; 18]
                  [MaxScreen.PressSolveToOptimal; MaxScreen.PressReset;
                   MaxScreen.PressNextIteration; MaxScreen.TimerFires;
                   MaxScreen.TimerFires]
                  eq_refl)).
Defined.



(** ** Creation of the Phase 1 session *)

Lemma type_tests_exclusive (ty : string) :
  (Phase1.isLe ty = true -> Phase1.isGe ty = false /\ Phase1.isEq ty = false) /\
  (Phase1.isGe ty = true -> Phase1.isLe ty = false /\ Phase1.isEq ty = false) /\
  (Phase1.isEq ty = true -> Phase1.isLe ty = false /\ Phase1.isGe ty = false).
Proof.
  unfold Phase1.isLe, Phase1.isGe, Phase1.isEq.
  split; [|split]; intro H; apply String.eqb_eq in H; subst ty; split; reflexivity.
Qed.

Lemma countIf_app {A : Type} (p : A -> bool) (l1 l2 : list A) :
  countIf p (l1 ++ l2) = (countIf p l1 + countIf p l2)%nat.
Proof. unfold countIf. rewrite filter_app, length_app. reflexivity. Qed.

Lemma firstn_S_nth {A : Type} (l : list A) (i : nat) (d : A) :
  (i < length l)%nat -> firstn (S i) l = (firstn i l ++ [nth i l d])%list.
Proof.
  revert i. induction l as [|a l IH]; intros i Hi; simpl in Hi.
  - lia.
  - destruct i as [|i]; [reflexivity|]. simpl. f_equal. apply IH. lia.
Qed.

Lemma countIf_firstn_le {A : Type} (p : A -> bool) (l : list A) (i : nat) :
  (countIf p (firstn i l) <= countIf p l)%nat.
Proof.
  rewrite <- (firstn_skipn i l) at 2. rewrite countIf_app. lia.
Qed.

(** The counter of [p] after [i] turns is below its final value when turn
    [i] itself increments it. *)
Lemma countIf_firstn_lt {A : Type} (p : A -> bool) (l : list A) (i : nat) (d : A) :
  (i < length l)%nat -> p (nth i l d) = true ->
  (countIf p (firstn i l) < countIf p l)%nat.
Proof.
  intros Hi Hp.
  pose proof (countIf_firstn_le p l (S i)) as H.
  rewrite (firstn_S_nth l i d Hi), countIf_app in H.
  unfold countIf at 2 in H. simpl in H. rewrite Hp in H. simpl in H. lia.
Qed.

Lemma countIf_firstn_S {A : Type} (p : A -> bool) (l : list A) (i : nat) (d : A) :
  p d = false ->
  countIf p (firstn (S i) l)
  = (countIf p (firstn i l) + if p (nth i l d) then 1 else 0)%nat.
Proof.
  intros Hd. destruct (Nat.lt_ge_cases i (length l)) as [Hi | Hi].
  - rewrite (firstn_S_nth l i d Hi), countIf_app. unfold countIf at 2. simpl.
    destruct (p (nth i l d)); reflexivity.
  - rewrite !firstn_all2 by lia. rewrite (nth_overflow l d Hi), Hd. lia.
Qed.

Lemma build_S (cm : list (list Q)) (types : list string) (i : nat) :
  Phase1.build cm types (S i) =
  Phase1.buildStep cm types (Phase1.slackCountOf types) (Phase1.surplusCountOf types)
                   (Phase1.artificialCountOf types) (Phase1.build cm types i) i.
Proof.
  unfold Phase1.build. rewrite seq_S, fold_left_app. reflexivity.
Qed.

(** Invariant of the [for (i < numConstraints)] loop: the three indices
    count the types seen so far, one row was pushed per turn and one basis
    entry per turn whose type is one of the three operators. *)
Lemma build_counters (cm : list (list Q)) (types : list string) (i : nat) :
  let b := Phase1.build cm types i in
  Phase1.slackIndex b = countIf Phase1.isLe (firstn i types) /\
  Phase1.surplusIndex b = countIf Phase1.isGe (firstn i types) /\
  Phase1.artificialIndex b =
    (countIf Phase1.isGe (firstn i types) + countIf Phase1.isEq (firstn i types))%nat /\
  length (Phase1.newBasicVariables b) =
    (Phase1.slackIndex b + Phase1.artificialIndex b)%nat /\
  length (Phase1.newConstraintsMatrix b) = i.
Proof.
  induction i as [|i IH].
  - simpl. auto.
  - rewrite build_S. cbv zeta in IH.
    destruct IH as [Hs [Hu [Ha [Hb Hr]]]].
    rewrite !(countIf_firstn_S _ types i ""%string) by reflexivity.
    unfold Phase1.buildStep. cbv zeta.
    destruct (type_tests_exclusive (nth i types ""%string)) as [E1 [E2 E3]].
    destruct (Phase1.isLe (nth i types ""%string)) eqn:Ele.
    + destruct (E1 eq_refl) as [-> ->]. simpl.
      rewrite !length_app. simpl. repeat split; lia.
    + destruct (Phase1.isGe (nth i types ""%string)) eqn:Ege.
      * destruct (E2 eq_refl) as [_ ->]. simpl.
        rewrite !length_app. simpl. repeat split; lia.
      * destruct (Phase1.isEq (nth i types ""%string)) eqn:Eeq; simpl;
          rewrite ?length_app; simpl; repeat split; lia.
Qed.

Lemma build_rows_prefix (cm : list (list Q)) (types : list string) (i m : nat) :
  (i < m)%nat ->
  nth i (Phase1.newConstraintsMatrix (Phase1.build cm types m)) [] =
  Phase1.augmentedRow cm (nth i types ""%string) (Phase1.slackCountOf types)
                      (Phase1.surplusCountOf types) (Phase1.artificialCountOf types)
                      (Phase1.build cm types i) i.
Proof.
  induction m as [|m IH]; intro Hi; [lia|].
  rewrite build_S.
  assert (Hrows : Phase1.newConstraintsMatrix
            (Phase1.buildStep cm types (Phase1.slackCountOf types)
               (Phase1.surplusCountOf types) (Phase1.artificialCountOf types)
               (Phase1.build cm types m) m)
          = (Phase1.newConstraintsMatrix (Phase1.build cm types m)
             ++ [Phase1.augmentedRow cm (nth m types ""%string)
                   (Phase1.slackCountOf types) (Phase1.surplusCountOf types)
                   (Phase1.artificialCountOf types) (Phase1.build cm types m) m])%list).
  { unfold Phase1.buildStep. cbv zeta.
    destruct (Phase1.isLe _); [reflexivity|].
    destruct (Phase1.isGe _); [reflexivity|].
    destruct (Phase1.isEq _); reflexivity. }
  rewrite Hrows.
  destruct (build_counters cm types m) as [_ [_ [_ [_ Hlen]]]].
  destruct (Nat.eq_dec i m) as [-> | Hne].
  - rewrite app_nth2 by lia. rewrite Hlen, Nat.sub_diag. reflexivity.
  - rewrite app_nth1 by lia. apply IH. lia.
Qed.

Lemma countIf_or {A : Type} (p q : A -> bool) (l : list A) :
  (forall x, p x = true -> q x = false) ->
  countIf (fun x => p x || q x) l = (countIf p l + countIf q l)%nat.
Proof.
  intro Hex. unfold countIf. induction l as [|a l IH]; [reflexivity|].
  simpl. destruct (p a) eqn:Ep.
  - rewrite (Hex a Ep). simpl. rewrite IH. reflexivity.
  - destruct (q a); simpl; rewrite IH; lia.
Qed.

Lemma needsArtificial_count (l : list string) :
  countIf needsArtificial l = (countIf Phase1.isGe l + countIf Phase1.isEq l)%nat.
Proof.
  apply (countIf_or Phase1.isGe Phase1.isEq).
  intros ty H. destruct (type_tests_exclusive ty) as [_ [E _]].
  destruct (E H) as [_ E2]. exact E2.
Qed.

Lemma supportedType_count (l : list string) :
  countIf supportedType l =
  (countIf Phase1.isLe l + countIf Phase1.isGe l + countIf Phase1.isEq l)%nat.
Proof.
  unfold supportedType.
  rewrite (countIf_or (fun ty => Phase1.isLe ty || Phase1.isGe ty) Phase1.isEq).
  - rewrite (countIf_or Phase1.isLe Phase1.isGe); [reflexivity|].
    intros ty H. destruct (type_tests_exclusive ty) as [E _].
    destruct (E H) as [E1 _]. exact E1.
  - intros ty H. destruct (type_tests_exclusive ty) as [E1 [E2 _]].
    apply orb_true_iff in H. destruct H as [H | H].
    + destruct (E1 H) as [_ E]. exact E.
    + destruct (E2 H) as [_ E]. exact E.
Qed.

Lemma typeRank_mono (p : string -> bool) (l : list string) (i j : nat) :
  (i <= j)%nat -> (typeRank p l i <= typeRank p l j)%nat.
Proof.
  intro Hij. unfold typeRank.
  replace (firstn i l) with (firstn i (firstn j l)).
  - apply countIf_firstn_le.
  - rewrite firstn_firstn. f_equal. lia.
Qed.

Lemma typeRank_S (p : string -> bool) (l : list string) (i : nat) :
  p ""%string = false -> p (nth i l ""%string) = true ->
  typeRank p l (S i) = S (typeRank p l i).
Proof.
  intros Hd Hp. unfold typeRank.
  rewrite (countIf_firstn_S p l i ""%string Hd), Hp. lia.
Qed.

(** Two different rows that both increment a counter see different values
    of it. *)
Lemma typeRank_inj (p : string -> bool) (l : list string) (i j : nat) :
  p ""%string = false ->
  p (nth i l ""%string) = true -> p (nth j l ""%string) = true ->
  typeRank p l i = typeRank p l j -> i = j.
Proof.
  intros Hd Hi Hj Heq.
  destruct (Nat.lt_trichotomy i j) as [Hlt | [E | Hgt]]; [|exact E|].
  - pose proof (typeRank_mono p l (S i) j Hlt) as H.
    rewrite (typeRank_S p l i Hd Hi) in H. lia.
  - pose proof (typeRank_mono p l (S j) i Hgt) as H.
    rewrite (typeRank_S p l j Hd Hj) in H. lia.
Qed.

Lemma typeRank_lt_total (p : string -> bool) (l : list string) (i : nat) :
  p ""%string = false -> p (nth i l ""%string) = true ->
  (typeRank p l i < countIf p l)%nat.
Proof.
  intros Hd Hp. unfold typeRank.
  destruct (Nat.lt_ge_cases i (length l)) as [Hi | Hi].
  - apply (countIf_firstn_lt p l i ""%string Hi Hp).
  - rewrite (nth_overflow l ""%string Hi), Hd in Hp. discriminate.
Qed.

Lemma types_valid_inv (cm : list (list Q)) (types : list string) :
  types_valid cm types ->
  length types = length cm /\
  forall i, (i < length cm)%nat -> supportedType (nth i types ""%string) = true.
Proof.
  unfold types_valid, types_validb. intro H.
  apply andb_true_iff in H. destruct H as [Hl Hf].
  apply Nat.eqb_eq in Hl. split; [exact Hl|].
  intros i Hi. rewrite forallb_forall in Hf.
  apply (Hf (nth i types ""%string)). apply nth_In. lia.
Qed.

(** With supported types in the rows seen, one basis entry was pushed per
    turn: the slack variable of the current slack index for a [≤] row, the
    artificial variable of the current artificial index otherwise. *)
Lemma build_basics (cm : list (list Q)) (types : list string) (m : nat) :
  (forall i, (i < m)%nat -> supportedType (nth i types ""%string) = true) ->
  length (Phase1.newBasicVariables (Phase1.build cm types m)) = m /\
  forall i, (i < m)%nat ->
    nth i (Phase1.newBasicVariables (Phase1.build cm types m)) ""%string =
    if Phase1.isLe (nth i types ""%string)
    then ("s" ++ numberToString (typeRank Phase1.isLe types i + 1))%string
    else ("a" ++ numberToString (typeRank needsArtificial types i + 1))%string.
Proof.
  induction m as [|m IH]; intro Hval.
  - split; [reflexivity|]. intros i Hi. lia.
  - destruct IH as [Hlen Hnth]; [intros i Hi; apply Hval; lia|].
    destruct (build_counters cm types m) as [Hs [_ [Ha _]]].
    pose proof (Hval m (Nat.lt_succ_diag_r m)) as Hm.
    assert (Hpush : Phase1.newBasicVariables (Phase1.build cm types (S m)) =
              (Phase1.newBasicVariables (Phase1.build cm types m) ++
               [if Phase1.isLe (nth m types ""%string)
                then ("s" ++ numberToString (typeRank Phase1.isLe types m + 1))%string
                else ("a" ++ numberToString (typeRank needsArtificial types m + 1))%string])
              %list).
    { rewrite build_S. unfold Phase1.buildStep. cbv zeta.
      unfold typeRank. rewrite needsArtificial_count, <- Hs, <- Ha.
      unfold supportedType in Hm.
      destruct (Phase1.isLe (nth m types ""%string)); [reflexivity|].
      destruct (Phase1.isGe (nth m types ""%string)); [reflexivity|].
      destruct (Phase1.isEq (nth m types ""%string)); [reflexivity|discriminate]. }
    rewrite Hpush. split.
    + rewrite length_app. simpl. lia.
    + intros i Hi. destruct (Nat.eq_dec i m) as [-> | Hne].
      * rewrite app_nth2 by lia. rewrite Hlen, Nat.sub_diag. reflexivity.
      * rewrite app_nth1 by lia. apply Hnth. lia.
Qed.

Lemma phase1_initialTable_shape (objective : list Q) (cm : list (list Q)) (rhs : list Q)
  (types : list string) :
  problem_shape objective cm rhs ->
  let t := Phase1.initialTable objective cm rhs types in
  let m := length cm in
  length t = (m + 2)%nat /\
  (forall i, (i < m)%nat ->
     nth i t [] =
     (Phase1.augmentedRow cm (nth i types ""%string) (Phase1.slackCountOf types)
        (Phase1.surplusCountOf types) (Phase1.artificialCountOf types)
        (Phase1.build cm types i) i ++ [nth i rhs 0])%list) /\
  (forall i, (i < m + 2)%nat ->
     length (nth i t []) = S (length (Phase1.allVarsOf objective types))).
Proof.
  intros Hshape t m.
  destruct (problem_shape_inv _ _ _ Hshape) as [Hrows Hrhs].
  assert (Hlen : length t = (m + 2)%nat).
  { unfold t, Phase1.initialTable. cbv zeta.
    rewrite length_app, length_map, length_seq. reflexivity. }
  assert (Hrow : forall i, (i < m)%nat ->
     nth i t [] =
     (Phase1.augmentedRow cm (nth i types ""%string) (Phase1.slackCountOf types)
        (Phase1.surplusCountOf types) (Phase1.artificialCountOf types)
        (Phase1.build cm types i) i ++ [nth i rhs 0])%list).
  { intros i Hi. unfold t, Phase1.initialTable. cbv zeta.
    rewrite app_nth1 by (rewrite length_map, length_seq; exact Hi).
    rewrite (nth_map_seq
               (fun i => (nth i (Phase1.newConstraintsMatrix
                                   (Phase1.build cm types (length cm))) []
                          ++ [nth i rhs 0])%list)) by exact Hi.
    rewrite build_rows_prefix by exact Hi. reflexivity. }
  assert (Hvars : length (Phase1.allVarsOf objective types) =
            (length objective + Phase1.slackCountOf types + Phase1.surplusCountOf types
             + Phase1.artificialCountOf types)%nat).
  { unfold Phase1.allVarsOf. rewrite !length_app, !numberedNames_length. lia. }
  split; [exact Hlen|]. split; [exact Hrow|].
  intros i Hi. destruct (Nat.lt_ge_cases i m) as [Hlt | Hge].
  - rewrite Hrow by exact Hlt. unfold Phase1.augmentedRow.
    rewrite !length_app, !length_map, !length_seq, Hrows by exact Hlt.
    simpl. rewrite Hvars. lia.
  - unfold t, Phase1.initialTable. cbv zeta.
    rewrite app_nth2 by (rewrite length_map, length_seq; exact Hge).
    rewrite length_map, length_seq. fold m.
    destruct (i - m)%nat as [|[|j]] eqn:Ej; simpl.
    + rewrite repeat_length. reflexivity.
    + rewrite repeat_length. reflexivity.
    + lia.
Qed.

(** X11.  [createInitialPhase1Table] pushes one basis entry per constraint
    row whose type is one of the three operators and none for any other
    row, whatever the inputs are: the basis never has more entries than
    there are constraint rows.  The variable list has one name per decision
    variable, per [≤] type (slack), per [≥] type (surplus) and per [≥] or
    [=] type (artificial), and the Cj row has one entry per name. *)
Theorem phase1_basis_entries (objective : list Q) (constraintsMatrix : list (list Q))
  (rhs : list Q) (constraintTypes : list string) :
  let s := fst (Phase1.createInitialPhase1Table objective constraintsMatrix rhs
                                                constraintTypes) in
  length (Phase1.basicVariables s)
    = countIf supportedType (firstn (length constraintsMatrix) constraintTypes) /\
  (length (Phase1.basicVariables s) <= length constraintsMatrix)%nat /\
  length (Phase1.variables s)
    = (length objective + countIf Phase1.isLe constraintTypes
       + countIf Phase1.isGe constraintTypes
       + countIf needsArtificial constraintTypes)%nat /\
  length (Phase1.cj s) = length (Phase1.variables s).
Proof.
  intro s.
  assert (Hb : length (Phase1.basicVariables s)
               = countIf supportedType (firstn (length constraintsMatrix) constraintTypes)).
  { unfold s, Phase1.createInitialPhase1Table. simpl.
    destruct (build_counters constraintsMatrix constraintTypes (length constraintsMatrix))
      as [Hs [_ [Ha [Hl _]]]].
    rewrite Hl, Hs, Ha, supportedType_count. lia. }
  assert (Hv : length (Phase1.variables s)
    = (length objective + countIf Phase1.isLe constraintTypes
       + countIf Phase1.isGe constraintTypes
       + countIf needsArtificial constraintTypes)%nat).
  { unfold s, Phase1.createInitialPhase1Table. simpl. unfold Phase1.allVarsOf.
    rewrite !length_app, !numberedNames_length, needsArtificial_count.
    unfold Phase1.slackCountOf, Phase1.surplusCountOf, Phase1.artificialCountOf. lia. }
  split; [exact Hb|]. split; [|split; [exact Hv|]].
  - rewrite Hb. unfold countIf.
    pose proof (filter_length_le supportedType
                  (firstn (length constraintsMatrix) constraintTypes)) as H1.
    pose proof (firstn_le_length (length constraintsMatrix) constraintTypes) as H2.
    rewrite length_firstn in H1. lia.
  - rewrite Hv. unfold s, Phase1.createInitialPhase1Table. simpl.
    unfold Phase1.phase1Objective. rewrite !length_app, !repeat_length.
    rewrite needsArtificial_count.
    unfold Phase1.slackCountOf, Phase1.surplusCountOf, Phase1.artificialCountOf. lia.
Qed.

Lemma phase1_names_not_artificial (c : ascii) (n : nat) (name : string) :
  c <> "a"%char -> In name (numberedNames (String c "") n) ->
  Phase2.isArtificial name = false.
Proof.
  intros Hc Hin. unfold Phase2.isArtificial.
  rewrite (startsWith_numbered c "a"%char n name Hin).
  destruct (ascii_dec "a" c) as [E | _]; [congruence | reflexivity].
Qed.

Lemma phase1_created_invariants (objective : list Q) (cm : list (list Q)) (rhs : list Q)
  (types : list string) :
  problem_shape objective cm rhs -> types_valid cm types ->
  let s := fst (Phase1.createInitialPhase1Table objective cm rhs types) in
  wf_session1 s /\
  basis_in_variables (Phase1.basicVariables s) (Phase1.variables s).
Proof.
  intros Hshape Hvalid s.
  destruct (types_valid_inv _ _ Hvalid) as [Htl Hsup].
  destruct (phase1_initialTable_shape objective cm rhs types Hshape) as [Hlen [_ Hwidth]].
  destruct (build_basics cm types (length cm) Hsup) as [Hbl Hbn].
  split.
  - unfold wf_session1, s, Phase1.createInitialPhase1Table. simpl.
    unfold Phase1.computeZjAndCjMinusZj.
    apply computeWith_wf.
    + lia.
    + intros i Hi. apply Hwidth. lia.
    + apply Hwidth. lia.
    + rewrite Hbl. lia.
    + unfold Phase1.phase1Objective, Phase1.allVarsOf.
      rewrite !length_app, !repeat_length, !numberedNames_length. lia.
  - intros i Hi. unfold s, Phase1.createInitialPhase1Table in *. simpl in *.
    rewrite Hbl in Hi. rewrite Hbn by exact Hi.
    unfold Phase1.allVarsOf.
    pose proof (Hsup i Hi) as Hs. unfold supportedType in Hs.
    destruct (Phase1.isLe (nth i types ""%string)) eqn:Ele.
    + apply in_or_app. right. apply in_or_app. left.
      apply numberedNames_In. exists (typeRank Phase1.isLe types i).
      split; [|reflexivity].
      apply (typeRank_lt_total Phase1.isLe types i eq_refl Ele).
    + apply in_or_app. right. apply in_or_app. right. apply in_or_app. right.
      apply numberedNames_In. exists (typeRank needsArtificial types i).
      split; [|reflexivity].
      unfold Phase1.artificialCountOf. rewrite <- needsArtificial_count.
      apply (typeRank_lt_total needsArtificial types i eq_refl).
      unfold needsArtificial. simpl in Hs. exact Hs.
Qed.

Lemma phase1Objective_on_names (objective : list Q) (constraintTypes : list string)
  (k : nat) :
  (k < length (Phase1.allVarsOf objective constraintTypes))%nat ->
  nth k (Phase1.phase1Objective objective constraintTypes) 0 =
  if Phase2.isArtificial (nth k (Phase1.allVarsOf objective constraintTypes) ""%string)
  then 1 else 0.
Proof.
  intro Hk. unfold Phase1.allVarsOf, Phase1.phase1Objective in *.
  set (n := length objective) in *.
  set (sl := Phase1.slackCountOf constraintTypes) in *.
  set (su := Phase1.surplusCountOf constraintTypes) in *.
  set (ar := Phase1.artificialCountOf constraintTypes) in *.
  rewrite !length_app, !numberedNames_length in Hk.
  destruct (Nat.lt_ge_cases k n) as [H1 | H1].
  - rewrite !app_nth1 by (rewrite ?numberedNames_length, ?repeat_length; exact H1).
    rewrite (phase1_names_not_artificial "x" n) by
      (try discriminate; apply nth_In; rewrite numberedNames_length; exact H1).
    apply nth_repeat_lt. exact H1.
  - rewrite (app_nth2 (numberedNames "x" n)) by (rewrite numberedNames_length; exact H1).
    rewrite (app_nth2 (repeat 0 n)) by (rewrite repeat_length; exact H1).
    rewrite numberedNames_length, repeat_length.
    destruct (Nat.lt_ge_cases (k - n) sl) as [H2 | H2].
    + rewrite (app_nth1 (numberedNames "s" sl)) by (rewrite numberedNames_length; exact H2).
      rewrite (phase1_names_not_artificial "s" sl) by
        (try discriminate; apply nth_In; rewrite numberedNames_length; exact H2).
      rewrite app_nth1 by (rewrite repeat_length; lia).
      apply nth_repeat_lt. lia.
    + rewrite (app_nth2 (numberedNames "s" sl)) by (rewrite numberedNames_length; exact H2).
      rewrite numberedNames_length.
      destruct (Nat.lt_ge_cases (k - n - sl) su) as [H3 | H3].
      * rewrite (app_nth1 (numberedNames "e" su))
           by (rewrite numberedNames_length; exact H3).
        rewrite (phase1_names_not_artificial "e" su) by
           (try discriminate; apply nth_In; rewrite numberedNames_length; exact H3).
        rewrite app_nth1 by (rewrite repeat_length; lia).
        apply nth_repeat_lt. lia.
      * rewrite (app_nth2 (numberedNames "e" su))
           by (rewrite numberedNames_length; exact H3).
        rewrite numberedNames_length.
        assert (Ha : In (nth (k - n - sl - su) (numberedNames "a" ar) ""%string)
                         (numberedNames "a" ar))
           by (apply nth_In; rewrite numberedNames_length; lia).
        unfold Phase2.isArtificial.
        rewrite (startsWith_numbered "a" "a" ar _ Ha). simpl.
        rewrite app_nth2 by (rewrite repeat_length; lia).
        rewrite repeat_length. apply nth_repeat_lt. lia.
Qed.

(** X12.  For a well-shaped problem with one supported type per constraint
    row, [createInitialPhase1Table] commits a well-formed session at
    iteration 1, without message and not yet complete: the variable names
    are pairwise distinct, the Phase 1 objective is 1 exactly on the names
    that [createPhase2Table] will recognise as artificial (those starting
    with 'a') and 0 elsewhere, there is one basis entry per constraint row,
    and every basis entry names a variable of the list. *)
Theorem phase1_initial_shape (objective : list Q) (constraintsMatrix : list (list Q))
  (rhs : list Q) (constraintTypes : list string) :
  problem_shape objective constraintsMatrix rhs ->
  types_valid constraintsMatrix constraintTypes ->
  let s := fst (Phase1.createInitialPhase1Table objective constraintsMatrix rhs
                                                constraintTypes) in
  wf_session1 s /\
  Phase1.iteration s = 1%nat /\ Phase1.message s = None /\
  Phase1.phase1Complete s = false /\
  NoDup (Phase1.variables s) /\
  (forall k, (k < length (Phase1.variables s))%nat ->
     nth k (Phase1.cj s) 0 =
     if Phase2.isArtificial (nth k (Phase1.variables s) ""%string) then 1 else 0) /\
  length (Phase1.basicVariables s) = length constraintsMatrix /\
  basis_in_variables (Phase1.basicVariables s) (Phase1.variables s).
Proof.
  intros Hshape Hvalid s.
  destruct (phase1_created_invariants objective constraintsMatrix rhs constraintTypes
              Hshape Hvalid) as [Hwf Hbv].
  fold s in Hwf, Hbv.
  destruct (types_valid_inv _ _ Hvalid) as [Htl Hsup].
  destruct (build_basics constraintsMatrix constraintTypes (length constraintsMatrix) Hsup)
    as [Hbl _].
  split; [exact Hwf|]. split; [reflexivity|]. split; [reflexivity|].
  split; [reflexivity|].
  split; [|split; [|split; [exact Hbl | exact Hbv]]].
  - unfold s, Phase1.createInitialPhase1Table. simpl. unfold Phase1.allVarsOf.
    apply NoDup_app; [apply numberedNames_NoDup| |].
    + apply NoDup_app; [apply numberedNames_NoDup| |].
      * apply NoDup_app; [apply numberedNames_NoDup | apply numberedNames_NoDup |].
        intros name H1 H2.
        exact (numberedNames_disjoint "e" "a" _ _ name ltac:(discriminate) H1 H2).
      * intros name H1 H2. apply in_app_or in H2. destruct H2 as [H2 | H2].
        -- exact (numberedNames_disjoint "s" "e" _ _ name ltac:(discriminate) H1 H2).
        -- exact (numberedNames_disjoint "s" "a" _ _ name ltac:(discriminate) H1 H2).
    + intros name H1 H2. apply in_app_or in H2. destruct H2 as [H2 | H2].
      * exact (numberedNames_disjoint "x" "s" _ _ name ltac:(discriminate) H1 H2).
      * apply in_app_or in H2. destruct H2 as [H2 | H2].
        -- exact (numberedNames_disjoint "x" "e" _ _ name ltac:(discriminate) H1 H2).
        -- exact (numberedNames_disjoint "x" "a" _ _ name ltac:(discriminate) H1 H2).
  - intros k Hk. apply phase1Objective_on_names. exact Hk.
Qed.

Lemma phase1_initial_shape_witness :
  problem_shape [1; 1] [[1; 1]; [1; 1]] [2; 5] /\
  types_valid [[1; 1]; [1; 1]] ["≤"%string; "≥"%string] /\
  wf_session1
    (fst (Phase1.createInitialPhase1Table [1; 1] [[1; 1]; [1; 1]] [2; 5]
                                          ["≤"%string; "≥"%string])).
Proof.
  split; [reflexivity|]. split; [reflexivity|].
  apply (phase1_initial_shape [1; 1] [[1; 1]; [1; 1]] [2; 5] ["≤"%string; "≥"%string]);
    reflexivity.
Defined.

(** Entries of a row pushed by the build loop, segment by segment. *)
Lemma augmentedRow_cells (cm : list (list Q)) (ty : string) (sl su ar : nat)
  (st : Phase1.Build) (i : nat) (r : Q) (n : nat) :
  length (nth i cm []) = n ->
  let row := (Phase1.augmentedRow cm ty sl su ar st i ++ [r])%list in
  (forall j, (j < n)%nat -> nth j row 0 = nth j (nth i cm []) 0) /\
  (forall k, (k < sl)%nat ->
     nth (n + k) row 0 =
     if (Phase1.isLe ty && (k =? Phase1.slackIndex st)%nat)%bool then 1 else 0) /\
  (forall k, (k < su)%nat ->
     nth (n + sl + k) row 0 =
     if (Phase1.isGe ty && (k =? Phase1.surplusIndex st)%nat)%bool then - (1) else 0) /\
  (forall k, (k < ar)%nat ->
     nth (n + sl + su + k) row 0 =
     if (needsArtificial ty && (k =? Phase1.artificialIndex st)%nat)%bool then 1 else 0) /\
  nth (n + sl + su + ar) row 0 = r.
Proof.
  intros Hn row. unfold row, Phase1.augmentedRow.
  set (S1 := map (fun j => if (Phase1.isLe ty && (j =? Phase1.slackIndex st)%nat)%bool
                           then 1 else 0) (seq 0 sl)).
  set (S2 := map (fun j => if (Phase1.isGe ty && (j =? Phase1.surplusIndex st)%nat)%bool
                           then - (1) else 0) (seq 0 su)).
  set (S3 := map (fun j => if ((Phase1.isGe ty || Phase1.isEq ty)
                               && (j =? Phase1.artificialIndex st)%nat)%bool
                           then 1 else 0) (seq 0 ar)).
  assert (L1 : length S1 = sl) by (unfold S1; rewrite length_map, length_seq; reflexivity).
  assert (L2 : length S2 = su) by (unfold S2; rewrite length_map, length_seq; reflexivity).
  assert (L3 : length S3 = ar) by (unfold S3; rewrite length_map, length_seq; reflexivity).
  rewrite <- !app_assoc.
  split; [|split; [|split; [|split]]].
  - intros j Hj. rewrite app_nth1 by lia. reflexivity.
  - intros k Hk. rewrite app_nth2 by lia. rewrite Hn.
    replace (n + k - n)%nat with k by lia.
    rewrite app_nth1 by lia. unfold S1.
    apply (nth_map_seq (fun j => if (Phase1.isLe ty && (j =? Phase1.slackIndex st)%nat)%bool
                                 then 1 else 0)). exact Hk.
  - intros k Hk. rewrite app_nth2 by lia. rewrite Hn.
    rewrite app_nth2 by lia. rewrite L1.
    replace (n + sl + k - n - sl)%nat with k by lia.
    rewrite app_nth1 by lia. unfold S2.
    apply (nth_map_seq (fun j => if (Phase1.isGe ty && (j =? Phase1.surplusIndex st)%nat)%bool
                                 then - (1) else 0)). exact Hk.
  - intros k Hk. rewrite app_nth2 by lia. rewrite Hn.
    rewrite app_nth2 by lia. rewrite L1.
    rewrite app_nth2 by lia. rewrite L2.
    replace (n + sl + su + k - n - sl - su)%nat with k by lia.
    rewrite app_nth1 by lia. unfold S3.
    apply (nth_map_seq (fun j => if ((Phase1.isGe ty || Phase1.isEq ty)
                                     && (j =? Phase1.artificialIndex st)%nat)%bool
                                 then 1 else 0)). exact Hk.
  - rewrite app_nth2 by lia. rewrite Hn.
    rewrite app_nth2 by lia. rewrite L1.
    rewrite app_nth2 by lia. rewrite L2.
    rewrite app_nth2 by lia. rewrite L3.
    replace (n + sl + su + ar - n - sl - su - ar)%nat with 0%nat by lia. reflexivity.
Qed.

(** X13.  In the session committed by [createInitialPhase1Table] for a
    well-shaped problem with supported types, row i is basic in its own
    slack variable when its type is [≤] and in its own artificial variable
    otherwise; the column of that variable is the i-th unit vector over the
    constraint rows, a [≥] row has -1 in the column of its surplus
    variable, and row i keeps the coefficients of constraint i in the first
    n columns and its right-hand side in the last one. *)
Theorem phase1_initial_basis (objective : list Q) (constraintsMatrix : list (list Q))
  (rhs : list Q) (constraintTypes : list string) (i : nat) :
  problem_shape objective constraintsMatrix rhs ->
  types_valid constraintsMatrix constraintTypes ->
  (i < length constraintsMatrix)%nat ->
  let s := fst (Phase1.createInitialPhase1Table objective constraintsMatrix rhs
                                                constraintTypes) in
  let n := length objective in
  let col := basisColumn n constraintTypes i in
  (col < length (Phase1.variables s))%nat /\
  nth i (Phase1.basicVariables s) ""%string = nth col (Phase1.variables s) ""%string /\
  Phase2.isArtificial (nth i (Phase1.basicVariables s) ""%string)
    = negb (Phase1.isLe (nth i constraintTypes ""%string)) /\
  (forall i', (i' < length constraintsMatrix)%nat ->
     cell (Phase1.simplexTable s) i' col = if (i' =? i)%nat then 1 else 0) /\
  (Phase1.isGe (nth i constraintTypes ""%string) = true ->
     cell (Phase1.simplexTable s) i (surplusColumn n constraintTypes i) = - (1)) /\
  (forall j, (j < n)%nat ->
     cell (Phase1.simplexTable s) i j = nth j (nth i constraintsMatrix []) 0) /\
  cell (Phase1.simplexTable s) i (length (Phase1.variables s)) = nth i rhs 0.
Proof.
  intros Hshape Hvalid Hi s n col.
  destruct (problem_shape_inv _ _ _ Hshape) as [Hrows Hrhs].
  destruct (types_valid_inv _ _ Hvalid) as [Htl Hsup].
  destruct (phase1_initialTable_shape objective constraintsMatrix rhs constraintTypes Hshape)
    as [Hlen [Hrow _]].
  destruct (build_basics constraintsMatrix constraintTypes (length constraintsMatrix) Hsup)
    as [Hbl Hbn].
  set (m := length constraintsMatrix) in *.
  set (sl := Phase1.slackCountOf constraintTypes).
  set (su := Phase1.surplusCountOf constraintTypes).
  set (ar := Phase1.artificialCountOf constraintTypes).
  assert (Hvars : Phase1.variables s =
            (numberedNames "x" n ++ numberedNames "s" sl ++ numberedNames "e" su
             ++ numberedNames "a" ar)%list) by reflexivity.
  assert (Hvl : length (Phase1.variables s) = (n + sl + su + ar)%nat).
  { rewrite Hvars, !length_app, !numberedNames_length. lia. }
  assert (Hbas : Phase1.basicVariables s =
            Phase1.newBasicVariables (Phase1.build constraintsMatrix constraintTypes m))
    by reflexivity.
  assert (Hcell : forall i' j, (i' < m)%nat ->
            cell (Phase1.simplexTable s) i' j =
            nth j (Phase1.augmentedRow constraintsMatrix (nth i' constraintTypes ""%string)
                     sl su ar (Phase1.build constraintsMatrix constraintTypes i') i'
                   ++ [nth i' rhs 0])%list 0).
  { intros i' j Hi'. unfold cell, s, Phase1.createInitialPhase1Table. simpl.
    unfold Phase1.computeZjAndCjMinusZj.
    destruct (computeWith_cases Engine.enteringMin
                (Phase1.initialTable objective constraintsMatrix rhs constraintTypes)
                (Phase1.newBasicVariables
                   (Phase1.build constraintsMatrix constraintTypes m))
                (Phase1.phase1Objective objective constraintTypes)
                (Phase1.allVarsOf objective constraintTypes)) as [E _]; [lia|].
    fold m. rewrite E, derivedTable_row by lia. rewrite Hrow by exact Hi'. reflexivity. }
  assert (Hcells : forall i', (i' < m)%nat ->
     (forall j, (j < n)%nat ->
        cell (Phase1.simplexTable s) i' j = nth j (nth i' constraintsMatrix []) 0) /\
     (forall k, (k < sl)%nat ->
        cell (Phase1.simplexTable s) i' (n + k) =
        if (Phase1.isLe (nth i' constraintTypes ""%string)
            && (k =? typeRank Phase1.isLe constraintTypes i')%nat)%bool then 1 else 0) /\
     (forall k, (k < su)%nat ->
        cell (Phase1.simplexTable s) i' (n + sl + k) =
        if (Phase1.isGe (nth i' constraintTypes ""%string)
            && (k =? typeRank Phase1.isGe constraintTypes i')%nat)%bool
        then - (1) else 0) /\
     (forall k, (k < ar)%nat ->
        cell (Phase1.simplexTable s) i' (n + sl + su + k) =
        if (needsArtificial (nth i' constraintTypes ""%string)
            && (k =? typeRank needsArtificial constraintTypes i')%nat)%bool
        then 1 else 0) /\
     cell (Phase1.simplexTable s) i' (n + sl + su + ar) = nth i' rhs 0).
  { intros i' Hi'.
    destruct (build_counters constraintsMatrix constraintTypes i') as [Hs [Hu [Ha _]]].
    destruct (augmentedRow_cells constraintsMatrix (nth i' constraintTypes ""%string)
                sl su ar (Phase1.build constraintsMatrix constraintTypes i') i'
                (nth i' rhs 0) n (Hrows i' Hi')) as [C1 [C2 [C3 [C4 C5]]]].
    unfold typeRank. rewrite needsArtificial_count, <- Ha, <- Hs, <- Hu.
    split; [|split; [|split; [|split]]].
    - intros j Hj. rewrite Hcell by exact Hi'. apply C1. exact Hj.
    - intros k Hk. rewrite Hcell by exact Hi'. apply C2. exact Hk.
    - intros k Hk. rewrite Hcell by exact Hi'. apply C3. exact Hk.
    - intros k Hk. rewrite Hcell by exact Hi'. apply C4. exact Hk.
    - rewrite Hcell by exact Hi'. exact C5. }
  pose proof (Hsup i Hi) as Hty. unfold supportedType in Hty.
  assert (Hname : nth i (Phase1.basicVariables s) ""%string =
            if Phase1.isLe (nth i constraintTypes ""%string)
            then ("s" ++ numberToString (typeRank Phase1.isLe constraintTypes i + 1))%string
            else ("a" ++ numberToString
                           (typeRank needsArtificial constraintTypes i + 1))%string).
  { rewrite Hbas. apply Hbn. exact Hi. }
  assert (Hsurplus : Phase1.isGe (nth i constraintTypes ""%string) = true ->
            cell (Phase1.simplexTable s) i (surplusColumn n constraintTypes i) = - (1)).
  { intro Hge. unfold surplusColumn. fold sl.
    destruct (Hcells i Hi) as [_ [_ [C3 _]]].
    rewrite C3 by (apply (typeRank_lt_total Phase1.isGe constraintTypes i eq_refl Hge)).
    rewrite Hge, Nat.eqb_refl. reflexivity. }
  unfold col, basisColumn. fold sl su.
  destruct (Phase1.isLe (nth i constraintTypes ""%string)) eqn:Ele.
  - set (r := typeRank Phase1.isLe constraintTypes i) in *.
    assert (Hr : (r < sl)%nat)
      by (apply (typeRank_lt_total Phase1.isLe constraintTypes i eq_refl Ele)).
    split; [lia|]. split; [|split; [|split; [|split; [exact Hsurplus|split]]]].
    + rewrite Hname, Hvars.
      rewrite app_nth2 by (rewrite numberedNames_length; lia).
      rewrite numberedNames_length. replace (n + r - n)%nat with r by lia.
      rewrite app_nth1 by (rewrite numberedNames_length; exact Hr).
      rewrite numberedNames_nth by exact Hr. reflexivity.
    + rewrite Hname. apply (phase1_names_not_artificial "s" sl); [discriminate|].
      apply numberedNames_In. exists r. split; [exact Hr | reflexivity].
    + intros i' Hi'. destruct (Hcells i' Hi') as [_ [C2 _]].
      rewrite C2 by exact Hr.
      destruct (Nat.eqb_spec i' i) as [-> | Hne].
      * rewrite Ele. unfold r. rewrite Nat.eqb_refl. reflexivity.
      * destruct (Phase1.isLe (nth i' constraintTypes ""%string)) eqn:Ele'; [|reflexivity].
        destruct (Nat.eqb_spec r (typeRank Phase1.isLe constraintTypes i')) as [E | _];
          [|reflexivity].
        exfalso. apply Hne. symmetry.
        apply (typeRank_inj Phase1.isLe constraintTypes i i' eq_refl Ele Ele' E).
    + destruct (Hcells i Hi) as [C1 _]. exact C1.
    + rewrite Hvl. destruct (Hcells i Hi) as [_ [_ [_ [_ C5]]]]. exact C5.
  - simpl in Hty.
    assert (Hart : needsArtificial (nth i constraintTypes ""%string) = true) by exact Hty.
    set (r := typeRank needsArtificial constraintTypes i) in *.
    assert (Hr : (r < ar)%nat).
    { unfold ar, Phase1.artificialCountOf. rewrite <- needsArtificial_count.
      apply (typeRank_lt_total needsArtificial constraintTypes i eq_refl Hart). }
    split; [lia|]. split; [|split; [|split; [|split; [exact Hsurplus|split]]]].
    + rewrite Hname, Hvars.
      rewrite app_nth2 by (rewrite numberedNames_length; lia).
      rewrite numberedNames_length.
      rewrite app_nth2 by (rewrite numberedNames_length; lia).
      rewrite numberedNames_length.
      rewrite app_nth2 by (rewrite numberedNames_length; lia).
      rewrite numberedNames_length.
      replace (n + sl + su + r - n - sl - su)%nat with r by lia.
      rewrite numberedNames_nth by exact Hr. reflexivity.
    + rewrite Hname. unfold Phase2.isArtificial.
      rewrite (startsWith_numbered "a" "a" ar); [reflexivity|].
      apply numberedNames_In. exists r. split; [exact Hr | reflexivity].
    + intros i' Hi'. destruct (Hcells i' Hi') as [_ [_ [_ [C4 _]]]].
      rewrite C4 by exact Hr.
      destruct (Nat.eqb_spec i' i) as [-> | Hne].
      * rewrite Hart. unfold r. rewrite Nat.eqb_refl. reflexivity.
      * destruct (needsArtificial (nth i' constraintTypes ""%string)) eqn:Hart';
          [|reflexivity].
        destruct (Nat.eqb_spec r (typeRank needsArtificial constraintTypes i')) as [E | _];
          [|reflexivity].
        exfalso. apply Hne. symmetry.
        apply (typeRank_inj needsArtificial constraintTypes i i' eq_refl Hart Hart' E).
    + destruct (Hcells i Hi) as [C1 _]. exact C1.
    + rewrite Hvl. destruct (Hcells i Hi) as [_ [_ [_ [_ C5]]]]. exact C5.
Qed.

Lemma phase1_initial_basis_witness :
  problem_shape [1; 1] [[1; 1]; [1; 1]] [2; 5] /\
  types_valid [[1; 1]; [1; 1]] ["≤"%string; "≥"%string] /\
  (1 < length [[1; 1]; [1; 1]])%nat /\
  nth 1 (Phase1.basicVariables
           (fst (Phase1.createInitialPhase1Table [1; 1] [[1; 1]; [1; 1]] [2; 5]
                                                 ["≤"%string; "≥"%string]))) ""%string
  = nth (basisColumn 2 ["≤"%string; "≥"%string] 1)
        (Phase1.variables
           (fst (Phase1.createInitialPhase1Table [1; 1] [[1; 1]; [1; 1]] [2; 5]
                                                 ["≤"%string; "≥"%string]))) ""%string.
Proof.
  split; [reflexivity|]. split; [reflexivity|]. split; [simpl; lia|].
  apply (phase1_initial_basis [1; 1] [[1; 1]; [1; 1]] [2; 5] ["≤"%string; "≥"%string] 1).
  - reflexivity.
  - reflexivity.
  - simpl. lia.
Defined.

(** ** Invariants of a Phase 1 session *)

(** The steps of Phase 1 "Next Iteration": no pivot, or one pivot on a
    constraint row and a variable column. *)
Lemma phase1_handleNextIteration_cases (s : Phase1.Session) :
  let t := Phase1.simplexTable s in
  let s' := Phase1.handleNextIteration s in
  Phase1.variables s' = Phase1.variables s /\
  Phase1.cj s' = Phase1.cj s /\
  ((Phase1.simplexTable s' = t /\
    Phase1.basicVariables s' = Phase1.basicVariables s /\
    Phase1.iteration s' = Phase1.iteration s) \/
   (exists r k t1,
      (r < length t - 2)%nat /\ (k < length (Phase1.variables s))%nat /\
      eps10 < cell t r k /\
      Engine.performPivot t r k = inr t1 /\
      Phase1.basicVariables s' =
        setAt (Phase1.basicVariables s) r (nth k (Phase1.variables s) ""%string) /\
      Phase1.simplexTable s' =
        Engine.table (Phase1.computeZjAndCjMinusZj t1 (Phase1.basicVariables s')
                        (Phase1.cj s) (Phase1.variables s)) /\
      Phase1.iteration s' = S (Phase1.iteration s))).
Proof.
  intros t s'. subst s'. unfold Phase1.handleNextIteration. fold t.
  destruct (length t <? 2)%nat eqn:E2.
  { simpl. split; [reflexivity|]. split; [reflexivity|]. left. auto. }
  set (V := firstn (length (Phase1.variables s)) (nth (length t - 1) t [])).
  pose proof (enteringMin_spec V) as Hs.
  destruct (Engine.enteringMin V) as [[k|]|] eqn:Ee.
  - destruct Hs as [Hk _].
    assert (Hkv : (k < length (Phase1.variables s))%nat).
    { pose proof (firstn_le_length (length (Phase1.variables s))
                                   (nth (length t - 1) t [])). unfold V in Hk. lia. }
    pose proof (ratioTest_spec t (MaxScreen.rhsAt (length (nth 0 t []))) (length t - 2) k)
      as Hr.
    destruct (Engine.ratioTest t (MaxScreen.rhsAt (length (nth 0 t []))) (length t - 2) k)
      as [r|] eqn:Er.
    + destruct Hr as [Hrlt [[Hpos _] _]].
      destruct (selected_pivot_succeeds _ _ _ _ _ Er) as [t1 Ht1].
      unfold Phase1.tryPivot, Phase1.performPivot. fold t. rewrite Ht1. cbv zeta.
      destruct (Phase1.minAtLeastNegEps _).
      * match goal with
        | |- context [Phase1.concludePhase1 ?v ?s0] =>
            destruct (concludePhase1_fields v s0) as [F1 [F2 [F3 [F4 F5]]]]
        end.
        rewrite F1, F2, F3, F4, F5. simpl.
        split; [reflexivity|]. split; [reflexivity|]. right.
        exists r, k, t1. repeat split; auto.
      * simpl. split; [reflexivity|]. split; [reflexivity|]. right.
        exists r, k, t1. repeat split; auto.
    + simpl. split; [reflexivity|]. split; [reflexivity|]. left. auto.
  - destruct Hs.
  - match goal with
    | |- context [Phase1.concludePhase1 ?v ?s0] =>
        destruct (concludePhase1_fields v s0) as [F1 [F2 [F3 [F4 F5]]]]
    end.
    rewrite F1, F2, F3, F4, F5. simpl.
    split; [reflexivity|]. split; [reflexivity|]. left. auto.
Qed.

Lemma phase1_handleNextIteration_invariants (s : Phase1.Session) :
  wf_session1 s ->
  basis_in_variables (Phase1.basicVariables s) (Phase1.variables s) ->
  let s' := Phase1.handleNextIteration s in
  wf_session1 s' /\
  basis_in_variables (Phase1.basicVariables s') (Phase1.variables s') /\
  Phase1.variables s' = Phase1.variables s /\
  Phase1.cj s' = Phase1.cj s /\
  (Phase1.iteration s <= Phase1.iteration s')%nat.
Proof.
  intros Hwf Hbv s'. unfold wf_session1 in *.
  destruct (phase1_handleNextIteration_cases s)
    as [Hv [Hcj [[Ht [Hbs Hi]] | [r [k [t1 [Hr [Hk [_ [Hp [Hbs [Ht Hi]]]]]]]]]]]];
    fold s' in Hv, Hcj, Ht, Hbs, Hi.
  - rewrite Hv, Hcj, Ht, Hbs, Hi. auto.
  - destruct (pivot_invariants Engine.enteringMin _ _ _ _ _ _ _ Hwf Hbv Hr Hk Hp)
      as [Hwf1 Hbv1].
    rewrite Hv, Hcj, Ht, Hbs, Hi.
    split; [exact Hwf1|]. split; [exact Hbv1|].
    split; [reflexivity|]. split; [reflexivity|]. lia.
Qed.

(** One call of Phase 1 [solve] below the cap. *)
Lemma phase1_solveTurn_pivot (st : Phase1.Session) (t : Tableau) (b : list string)
  (it : nat) :
  match Phase1.solveTurn st t b it with
  | Phase1.Stop s' =>
      Phase1.simplexTable s' = Phase1.simplexTable st /\
      Phase1.basicVariables s' = Phase1.basicVariables st /\
      Phase1.variables s' = Phase1.variables st /\
      Phase1.cj s' = Phase1.cj st /\
      Phase1.iteration s' = Phase1.iteration st
  | Phase1.Continue s' t' b' =>
      exists r k t1,
        (r < length t - 2)%nat /\ (k < length (Phase1.variables st))%nat /\
        Engine.performPivot t r k = inr t1 /\
        b' = setAt b r (nth k (Phase1.variables st) ""%string) /\
        t' = Engine.table (Phase1.computeZjAndCjMinusZj t1 b' (Phase1.cj st)
                             (Phase1.variables st)) /\
        Phase1.simplexTable s' = t' /\ Phase1.basicVariables s' = b' /\
        Phase1.variables s' = Phase1.variables st /\
        Phase1.cj s' = Phase1.cj st /\
        Phase1.iteration s' = S it
  end.
Proof.
  unfold Phase1.solveTurn.
  set (V := firstn (length (Phase1.variables st)) (nth (length t - 1) t [])).
  pose proof (enteringMin_spec V) as Hs.
  destruct (Engine.enteringMin V) as [[k|]|] eqn:Ee.
  - destruct Hs as [Hk _].
    assert (Hkv : (k < length (Phase1.variables st))%nat).
    { pose proof (firstn_le_length (length (Phase1.variables st))
                                   (nth (length t - 1) t [])). unfold V in Hk. lia. }
    pose proof (ratioTest_spec t (MaxScreen.rhsAt (length (nth 0 t []))) (length t - 2) k)
      as Hr.
    destruct (Engine.ratioTest t (MaxScreen.rhsAt (length (nth 0 t []))) (length t - 2) k)
      as [r|] eqn:Er.
    + destruct Hr as [Hrlt _]. unfold Phase1.performPivot.
      destruct (selected_pivot_succeeds _ _ _ _ _ Er) as [t1 Ht1]. rewrite Ht1.
      exists r, k, t1. simpl. repeat split; auto.
    + simpl. repeat split; reflexivity.
  - destruct Hs.
  - match goal with
    | |- context [Phase1.concludePhase1 ?v ?s0] =>
        destruct (concludePhase1_fields v s0) as [F1 [F2 [F3 [F4 F5]]]]
    end.
    auto.
Qed.

(** One call of Phase 1 [solve] keeps the committed session fitting, and
    the timer it sets fits as well. *)
Lemma phase1_solveCall_invariants (V : list string) (C : list Q)
  (cur : Phase1.Session) (t : Tableau) (b : list string) (it : nat) :
  session1_ok V C cur -> wf_tableau t b C V -> basis_in_variables b V -> (1 <= it)%nat ->
  let r := Phase1.solveCall V C cur t b it in
  session1_ok V C (fst r) /\
  (forall pending, Forall (timer_ok V C) pending ->
                   Forall (timer_ok V C) (MaxScreen.schedule pending (snd r))).
Proof.
  intros [Hwf [Hbv [Hv [Hc Hi]]]] Hwt Hbt Hit r. subst r.
  unfold Phase1.solveCall.
  destruct (it <=? MaxScreen.maxIterations)%nat.
  - pose proof (phase1_solveTurn_pivot (Phase1.withNames V C cur) t b it) as Ht.
    destruct (Phase1.solveTurn (Phase1.withNames V C cur) t b it)
      as [s' | s' t' b']; cbn [fst snd MaxScreen.schedule].
    + destruct Ht as [T1 [T2 [_ [_ T5]]]].
      cbn [Phase1.withNames Phase1.simplexTable Phase1.basicVariables
           Phase1.iteration] in T1, T2, T5.
      split; [|intros pending Hp; exact Hp].
      unfold session1_ok, wf_session1.
      cbn [Phase1.withNames Phase1.simplexTable Phase1.basicVariables
           Phase1.variables Phase1.cj Phase1.iteration].
      rewrite T1, T2, T5.
      split; [exact Hwf|]. split; [exact Hbv|]. split; [exact Hv|].
      split; [exact Hc | exact Hi].
    + destruct Ht as [r [k [t1 [Hr [Hk [Hp [Hb' [Ht' [Hst [Hsb [_ [_ Hsi]]]]]]]]]]]].
      cbn [Phase1.withNames Phase1.variables Phase1.cj] in Hk, Hb', Ht'.
      destruct (pivot_invariants Engine.enteringMin t t1 b C V r k Hwt Hbt Hr Hk Hp)
        as [Hwf1 Hbv1].
      split.
      * unfold session1_ok, wf_session1.
        cbn [Phase1.withNames Phase1.simplexTable Phase1.basicVariables
             Phase1.variables Phase1.cj Phase1.iteration].
        rewrite Hst, Hsb, Hsi, Ht', Hb', Hv, Hc.
        split; [exact Hwf1|]. split; [exact Hbv1|]. split; [reflexivity|].
        split; [reflexivity | lia].
      * intros pending Hpend. apply Forall_app. split; [exact Hpend|].
        constructor; [|constructor]. unfold timer_ok.
        cbn [MaxScreen.closureVariables MaxScreen.closureCj MaxScreen.argTable
             MaxScreen.argBasics MaxScreen.argIteration].
        rewrite Ht', Hb'.
        split; [reflexivity|]. split; [reflexivity|]. split; [exact Hwf1|].
        split; [exact Hbv1 | lia].
  - cbn [fst snd MaxScreen.schedule]. split; [|intros pending Hp; exact Hp].
    unfold session1_ok, wf_session1. simpl.
    split; [exact Hwf|]. split; [exact Hbv|]. split; [exact Hv|].
    split; [exact Hc | exact Hi].
Qed.

Lemma phase1_step_invariants (init : option MaxScreen.Initial.State)
  (V : list string) (C : list Q) (sc : Phase1.Screen) (ev : MaxScreen.Event) :
  (forall x, session1_ok V C x -> session1_ok V C (Phase1.handleReset init x)) ->
  session1_ok V C (Phase1.shown sc) -> Forall (timer_ok V C) (Phase1.timers sc) ->
  let sc' := Phase1.step init sc ev in
  session1_ok V C (Phase1.shown sc') /\ Forall (timer_ok V C) (Phase1.timers sc').
Proof.
  intros Hreset Hs Ht sc'. subst sc'.
  destruct ev; cbn [Phase1.step Phase1.shown Phase1.timers].
  - split; [|exact Ht]. destruct Hs as [Hwf [Hbv [Hv [Hc Hi]]]].
    destruct (phase1_handleNextIteration_invariants _ Hwf Hbv) as [A [B [D [E F]]]].
    split; [exact A|]. split; [exact B|]. split; [congruence|].
    split; [congruence | lia].
  - assert (Hs' : session1_ok V C (Phase1.setMessage None (Phase1.shown sc))).
    { destruct Hs as [Hwf [Hbv [Hv [Hc Hi]]]]. unfold session1_ok, wf_session1. simpl.
      split; [exact Hwf|]. split; [exact Hbv|]. split; [exact Hv|].
      split; [exact Hc | exact Hi]. }
    destruct Hs as [Hwf [Hbv [Hv [Hc Hi]]]]. rewrite Hv, Hc.
    unfold wf_session1 in Hwf. rewrite Hv, Hc in Hwf. rewrite Hv in Hbv.
    destruct (phase1_solveCall_invariants V C _ _ _ _ Hs' Hwf Hbv Hi) as [A B].
    split; [exact A | apply B; exact Ht].
  - split; [apply Hreset; exact Hs | exact Ht].
  - destruct (Phase1.timers sc) as [|tm rest] eqn:Et.
    + split; [exact Hs | rewrite Et; exact Ht].
    + cbn [Phase1.shown Phase1.timers].
      apply Forall_cons_iff in Ht. destruct Ht as [[Hcv [Hcc [Hwt [Hbt Hit]]]] Hrest].
      rewrite Hcv, Hcc.
      destruct (phase1_solveCall_invariants V C _ _ _ _ Hs Hwt Hbt Hit) as [A B].
      split; [exact A | apply B; exact Hrest].
Qed.

Lemma phase1_run_invariants (init : option MaxScreen.Initial.State)
  (V : list string) (C : list Q) (events : list MaxScreen.Event) :
  (forall x, session1_ok V C x -> session1_ok V C (Phase1.handleReset init x)) ->
  forall sc,
  session1_ok V C (Phase1.shown sc) -> Forall (timer_ok V C) (Phase1.timers sc) ->
  let sc' := Phase1.run init events sc in
  session1_ok V C (Phase1.shown sc') /\ Forall (timer_ok V C) (Phase1.timers sc').
Proof.
  intro Hreset. unfold Phase1.run.
  induction events as [|ev events IH]; intros sc Hs Ht; simpl.
  - split; assumption.
  - destruct (phase1_step_invariants init V C sc ev Hreset Hs Ht) as [A B].
    apply IH; assumption.
Qed.

(** X14.  Whatever sequence of presses of "Next Iteration", "Solve to
    Optimal" and "Reset" and of firings of the timers that "Solve to
    Optimal" sets happens on the Phase 1 screen after
    [createInitialPhase1Table] has run on a well-shaped problem with
    supported types, the committed session stays well-formed, every basis
    entry names a variable of the list, the variable list and the Cj row are
    the created ones, the iteration counter is at least 1, and every pending
    call of [solve] holds the created names and Cj row, a table and a basis
    that are well-formed for them, and a counter of at least 1. *)
Theorem phase1_session_invariants (objective : list Q) (constraintsMatrix : list (list Q))
  (rhs : list Q) (constraintTypes : list string) (events : list MaxScreen.Event) :
  problem_shape objective constraintsMatrix rhs ->
  types_valid constraintsMatrix constraintTypes ->
  let created :=
    Phase1.createInitialPhase1Table objective constraintsMatrix rhs constraintTypes in
  let sc := Phase1.run (Some (snd created)) events (Phase1.mkScreen (fst created) []) in
  let s := Phase1.shown sc in
  wf_session1 s /\
  basis_in_variables (Phase1.basicVariables s) (Phase1.variables s) /\
  Phase1.variables s = Phase1.variables (fst created) /\
  Phase1.cj s = Phase1.cj (fst created) /\
  (1 <= Phase1.iteration s)%nat /\
  Forall (timer_ok (Phase1.variables (fst created)) (Phase1.cj (fst created)))
         (Phase1.timers sc).
Proof.
  intros Hshape Hvalid created sc s.
  destruct (phase1_created_invariants objective constraintsMatrix rhs constraintTypes
              Hshape Hvalid) as [Hwf0 Hbv0].
  fold created in Hwf0, Hbv0.
  assert (Hstart : session1_ok (Phase1.variables (fst created))
                               (Phase1.cj (fst created)) (fst created)).
  { split; [exact Hwf0|]. split; [exact Hbv0|]. split; [reflexivity|].
    split; [reflexivity|]. simpl. lia. }
  assert (Hreset : forall x, Phase1.handleReset (Some (snd created)) x = fst created).
  { intro x. unfold created.
    unfold Phase1.handleReset, Phase1.createInitialPhase1Table,
      Phase1.computeZjAndCjMinusZj.
    simpl snd. cbv beta iota zeta.
    unfold MaxScreen.Initial.table, MaxScreen.Initial.basics, MaxScreen.Initial.cj,
      MaxScreen.Initial.vars.
    rewrite computeWith_fixed. reflexivity. }
  destruct (phase1_run_invariants (Some (snd created))
              (Phase1.variables (fst created)) (Phase1.cj (fst created)) events
              (fun x _ => eq_ind_r (session1_ok _ _) Hstart (Hreset x))
              (Phase1.mkScreen (fst created) []) Hstart (Forall_nil _))
    as [[A [B [D [E F]]]] G].
  fold sc in A, B, D, E, F, G. fold s in A, B, D, E, F.
  split; [exact A|]. split; [exact B|]. split; [exact D|]. split; [exact E|].
  split; [exact F | exact G].
Qed.

Lemma phase1_session_invariants_witness :
  problem_shape [1; 1] [[2; 1]; [1; 2]] [4; 3] /\
  types_valid [[2; 1]; [1; 2]] ["="%string; "="%string] /\
  wf_session1
    (Phase1.shown
       (Phase1.run
          (Some (snd (Phase1.createInitialPhase1Table [1; 1] [[2; 1]; [1; 2]] [4; 3]
                        ["="%string; "="%string])))
          [MaxScreen.PressSolveToOptimal; MaxScreen.PressReset; MaxScreen.TimerFires;
           MaxScreen.PressNextIteration; MaxScreen.TimerFires]
          (Phase1.mkScreen
             (fst (Phase1.createInitialPhase1Table [1; 1] [[2; 1]; [1; 2]] [4; 3]
                     ["="%string; "="%string])) []))).
Proof.
  split; [reflexivity|]. split; [reflexivity|].
  exact (proj1 (phase1_session_invariants [1; 1] [[2; 1]; [1; 2]] [4; 3]
                  ["="%string; "="%string]
                  [MaxScreen.PressSolveToOptimal; MaxScreen.PressReset;
                   MaxScreen.TimerFires; MaxScreen.PressNextIteration;
                   MaxScreen.TimerFires]
                  eq_refl eq_refl)).
Defined.

(** ** From Phase 1 to Phase 2 *)

Lemma phase2ObjectiveFrom_length (optType : string) (obj : list Q) (vars : list string) :
  forall o, length (Phase2.phase2ObjectiveFrom optType obj o vars) = length vars.
Proof.
  induction vars as [|v vars IH]; intro o; simpl; [reflexivity|].
  destruct (startsWith "x" v); [destruct (o <? length obj)%nat|]; simpl; rewrite IH;
    reflexivity.
Qed.

Lemma createPhase2Table_wf (p : Phase2Params) :
  params_shape p -> wf_session (Phase2.createPhase2Table p).
Proof.
  intro Hshape. destruct (params_shape_inv p Hshape) as [H2 [Hrows Hb]].
  set (vars := phase1Variables p) in *.
  set (t := phase1Table p) in *.
  assert (Hkept : length (keptColumns vars) = length (Phase2.filteredVariables vars))
    by (rewrite filteredVariables_kept, length_map; reflexivity).
  assert (Hlen : length (Phase2.phase2Rows p) = (length t - 2)%nat).
  { unfold Phase2.phase2Rows. rewrite length_map, length_firstn. fold t. lia. }
  assert (Hrow : forall i, (i < length t - 2)%nat ->
            length (nth i (Phase2.phase2Rows p) []) =
            S (length (Phase2.filteredVariables vars))).
  { intros i Hi. unfold Phase2.phase2Rows. fold t vars.
    rewrite (nth_indep _ [] (Phase2.phase2Row vars [])) by
      (rewrite length_map, length_firstn; lia).
    rewrite map_nth, nth_firstn.
    rewrite (proj2 (Nat.ltb_lt _ _) Hi).
    rewrite phase2Row_kept by (apply Hrows; lia).
    rewrite length_app, length_map, Hkept. simpl. lia. }
  unfold wf_session, Phase2.createPhase2Table. simpl.
  unfold Phase2.computeZjAndCjMinusZj, MaxScreen.computeZjAndCjMinusZj.
  fold vars.
  apply computeWith_wf.
  - rewrite length_app. simpl. lia.
  - intros i Hi. rewrite length_app in Hi. simpl in Hi.
    rewrite app_nth1 by lia. apply Hrow. lia.
  - destruct (Nat.eq_dec (length t - 2) 0) as [E0 | Hne].
    + rewrite app_nth2 by lia. rewrite Hlen, E0. simpl. rewrite repeat_length. reflexivity.
    + rewrite app_nth1 by lia. apply Hrow. lia.
  - unfold Phase2.newBasicVariables. rewrite length_map, length_app, Hlen. simpl.
    fold t in Hb. lia.
  - unfold Phase2.phase2Objective. apply phase2ObjectiveFrom_length.
Qed.

(** X15.  "Proceed to Phase 2" pressed on a well-formed Phase 1 session
    whose [phase1Complete] flag is set navigates, and then the route
    parameters are the committed table, variables and basis together with
    the objective and the optimisation type of the screen, they have the
    shape Phase 2 expects, and [createPhase2Table] commits a well-formed
    session with as many rows as the Phase 1 table, whose variables are the
    Phase 1 variables whose name does not start with 'a', in their order. *)
Theorem proceed_to_phase2 (objective : list Q) (optType : string) (s : Phase1.Session) :
  wf_session1 s -> Phase1.phase1Complete s = true ->
  exists p,
    Phase1.handleProceedToPhase2 objective optType s = Some p /\
    p = mkPhase2Params objective (Phase1.simplexTable s) (Phase1.variables s)
                       (Phase1.basicVariables s) optType /\
    params_shape p /\
    wf_session (Phase2.createPhase2Table p) /\
    length (MaxScreen.simplexTable (Phase2.createPhase2Table p))
      = length (Phase1.simplexTable s) /\
    MaxScreen.variables (Phase2.createPhase2Table p)
      = filter (fun v => negb (startsWith "a" v)) (Phase1.variables s) /\
    MaxScreen.iteration (Phase2.createPhase2Table p) = 1%nat /\
    MaxScreen.message (Phase2.createPhase2Table p) = None.
Proof.
  intros Hwf Hc.
  set (p := mkPhase2Params objective (Phase1.simplexTable s) (Phase1.variables s)
                           (Phase1.basicVariables s) optType).
  exists p. unfold Phase1.handleProceedToPhase2. rewrite Hc. simpl negb. cbv iota.
  destruct (wf_tableau_inv _ _ _ _ Hwf) as [H2 [Hrows [Hb Hcj]]].
  assert (Hshape : params_shape p).
  { unfold params_shape, params_shapeb, p.
    cbn [phase1Table phase1Variables phase1BasicVariables].
    rewrite (proj2 (Nat.leb_le _ _) H2), (proj2 (Nat.eqb_eq _ _) Hb), !andb_true_r.
    apply forallb_forall. intros row Hin.
    destruct (In_nth _ _ [] Hin) as [i [Hi <-]].
    apply Nat.eqb_eq. apply Hrows. exact Hi. }
  split; [reflexivity|]. split; [reflexivity|].
  split; [exact Hshape|]. split; [apply createPhase2Table_wf; exact Hshape|].
  split; [|split; [reflexivity | split; reflexivity]].
  unfold Phase2.createPhase2Table. simpl.
  unfold Phase2.computeZjAndCjMinusZj, MaxScreen.computeZjAndCjMinusZj.
  rewrite computeWith_length by (rewrite length_app; simpl; lia).
  unfold Phase2.phase2Rows. simpl.
  rewrite length_app, length_map, length_firstn. simpl. lia.
Qed.

Lemma proceed_to_phase2_witness :
  wf_session1 ScenarioB.phase1Final /\
  Phase1.phase1Complete ScenarioB.phase1Final = true /\
  exists p,
    Phase1.handleProceedToPhase2 ScenarioB.objective "Minimize" ScenarioB.phase1Final
      = Some p /\
    wf_session (Phase2.createPhase2Table p).
Proof.
  assert (Hwf : wf_session1 ScenarioB.phase1Final) by (vm_compute; reflexivity).
  assert (Hc : Phase1.phase1Complete ScenarioB.phase1Final = true)
    by (vm_compute; reflexivity).
  split; [exact Hwf|]. split; [exact Hc|].
  destruct (proceed_to_phase2 ScenarioB.objective "Minimize" ScenarioB.phase1Final
              Hwf Hc) as [p [Hp [_ [_ [Hw _]]]]].
  exists p. split; [exact Hp | exact Hw].
Defined.

(** X16.  The basis of the Phase 2 session.  Every artificial entry of
    the Phase 1 basis is replaced by one and the same name, every other
    entry is kept.  When the Phase 1 basis entries name Phase 1 variables,
    each Phase 2 basis entry names a Phase 2 variable, except when an
    artificial variable is still basic and no remaining variable starts with
    's': the entry is then the literal "s1", which is not in the variable
    list and whose CB lookup yields 0. *)
Theorem phase2_basis_entries (p : Phase2Params) :
  basis_in_variables (phase1BasicVariables p) (phase1Variables p) ->
  let s := Phase2.createPhase2Table p in
  (forall i j,
     (i < length (phase1BasicVariables p))%nat ->
     (j < length (phase1BasicVariables p))%nat ->
     Phase2.isArtificial (nth i (phase1BasicVariables p) ""%string) = true ->
     Phase2.isArtificial (nth j (phase1BasicVariables p) ""%string) = true ->
     nth i (MaxScreen.basicVariables s) ""%string
     = nth j (MaxScreen.basicVariables s) ""%string) /\
  (forall i, (i < length (phase1BasicVariables p))%nat ->
     Phase2.isArtificial (nth i (phase1BasicVariables p) ""%string) = false ->
     nth i (MaxScreen.basicVariables s) ""%string
     = nth i (phase1BasicVariables p) ""%string) /\
  (forall i, (i < length (phase1BasicVariables p))%nat ->
     In (nth i (MaxScreen.basicVariables s) ""%string) (MaxScreen.variables s) \/
     (Phase2.isArtificial (nth i (phase1BasicVariables p) ""%string) = true /\
      (forall name, In name (MaxScreen.variables s) -> startsWith "s" name = false) /\
      nth i (MaxScreen.basicVariables s) ""%string = "s1"%string /\
      ~ In "s1"%string (MaxScreen.variables s) /\
      Engine.cbOf (MaxScreen.variables s) (MaxScreen.cj s) "s1" = 0)).
Proof.
  intros Hbv s.
  set (vars := Phase2.filteredVariables (phase1Variables p)).
  set (f := fun b : string =>
              if Phase2.isArtificial b then
                match jsFind (startsWith "s") vars with
                | Some availableSlack => availableSlack
                | None => "s1"%string
                end
              else b).
  assert (Hnth : forall i, (i < length (phase1BasicVariables p))%nat ->
            nth i (MaxScreen.basicVariables s) ""%string
            = f (nth i (phase1BasicVariables p) ""%string)).
  { intros i Hi. unfold s, Phase2.createPhase2Table. simpl.
    unfold Phase2.newBasicVariables. fold vars. fold f.
    rewrite (nth_indep _ ""%string (f ""%string)) by (rewrite length_map; exact Hi).
    apply map_nth. }
  split; [|split].
  - intros i j Hi Hj Ai Aj. rewrite (Hnth i Hi), (Hnth j Hj). unfold f.
    rewrite Ai, Aj. reflexivity.
  - intros i Hi Ai. rewrite (Hnth i Hi). unfold f. rewrite Ai. reflexivity.
  - intros i Hi. rewrite (Hnth i Hi). unfold f.
    change (MaxScreen.variables s) with vars.
    destruct (Phase2.isArtificial (nth i (phase1BasicVariables p) ""%string)) eqn:Ai.
    + unfold jsFind. destruct (find (startsWith "s") vars) as [a|] eqn:Ef.
      * left. apply find_some in Ef. destruct Ef as [Hin _]. exact Hin.
      * right. pose proof (find_none _ _ Ef) as Hnone.
        assert (Hnot : ~ In "s1"%string vars).
        { intro Hin. specialize (Hnone _ Hin). discriminate Hnone. }
        split; [reflexivity|]. split; [exact Hnone|]. split; [reflexivity|].
        split; [exact Hnot|].
        unfold Engine.cbOf. rewrite (indexOf_None _ _ Hnot). reflexivity.
    + left. unfold vars, Phase2.filteredVariables. apply filter_In.
      split; [apply Hbv; exact Hi | rewrite Ai; reflexivity].
Qed.

Lemma phase2_basis_entries_witness :
  basis_in_variables (phase1BasicVariables ScenarioFallback.params)
                     (phase1Variables ScenarioFallback.params) /\
  (In (nth 0 (MaxScreen.basicVariables ScenarioFallback.session) ""%string)
      (MaxScreen.variables ScenarioFallback.session) \/
   (Phase2.isArtificial (nth 0 (phase1BasicVariables ScenarioFallback.params) ""%string)
      = true /\
    (forall name, In name (MaxScreen.variables ScenarioFallback.session) ->
                  startsWith "s" name = false) /\
    nth 0 (MaxScreen.basicVariables ScenarioFallback.session) ""%string = "s1"%string /\
    ~ In "s1"%string (MaxScreen.variables ScenarioFallback.session) /\
    Engine.cbOf (MaxScreen.variables ScenarioFallback.session)
                (MaxScreen.cj ScenarioFallback.session) "s1" = 0)).
Proof.
  assert (Hbv : basis_in_variables (phase1BasicVariables ScenarioFallback.params)
                                   (phase1Variables ScenarioFallback.params)).
  { intros i Hi. simpl in Hi. destruct i as [|i]; [simpl; auto | lia]. }
  split; [exact Hbv|].
  destruct (phase2_basis_entries ScenarioFallback.params Hbv) as [_ [_ H]].
  apply (H 0%nat). simpl. lia.
Defined.

(** ** The pivot of the earlier screen (src/unnamed/part_003) *)

Lemma legacy_nth_normalizeRow (cols : nat) (pivotVal : Q) (row : list Q) (j : nat) :
  (j < cols)%nat ->
  nth j (Legacy.normalizeRow cols pivotVal row) 0 = nth j row 0 / pivotVal.
Proof.
  intro Hj. unfold Legacy.normalizeRow.
  rewrite app_nth1 by (rewrite length_map, length_seq; exact Hj).
  apply (nth_map_seq (fun j => nth j row 0 / pivotVal)). exact Hj.
Qed.

Lemma legacy_nth_eliminateRow (cols : nat) (factor : Q) (pivotRow row : list Q) (j : nat) :
  (j < cols)%nat ->
  nth j (Legacy.eliminateRow cols factor pivotRow row) 0 =
  nth j row 0 - factor * nth j pivotRow 0.
Proof.
  intro Hj. unfold Legacy.eliminateRow.
  rewrite app_nth1 by (rewrite length_map, length_seq; exact Hj).
  apply (nth_map_seq (fun j => nth j row 0 - factor * nth j pivotRow 0)). exact Hj.
Qed.

Lemma legacy_normalizeRow_length (cols : nat) (pv : Q) (row : list Q) :
  length row = cols -> length (Legacy.normalizeRow cols pv row) = cols.
Proof.
  intro H. unfold Legacy.normalizeRow.
  rewrite length_app, length_map, length_seq, length_skipn. lia.
Qed.

Lemma legacy_eliminateRow_length (cols : nat) (f : Q) (p row : list Q) :
  length row = cols -> length (Legacy.eliminateRow cols f p row) = cols.
Proof.
  intro H. unfold Legacy.eliminateRow.
  rewrite length_app, length_map, length_seq, length_skipn. lia.
Qed.

Lemma legacy_eliminate_loop_rows (cols pr pc : nat) (t1 : Tableau) (n : nat) :
  (n <= length t1)%nat ->
  let T := fold_left (Legacy.eliminateStep cols pr pc) (seq 0 n) t1 in
  length T = length t1 /\
  forall i,
    nth i T [] =
    if ((i <? n)%nat && negb (i =? pr)%nat
        && negb (Qltb (Qabs (cell t1 i pc)) eps12))%bool
    then Legacy.eliminateRow cols (cell t1 i pc) (nth pr t1 []) (nth i t1 [])
    else nth i t1 [].
Proof.
  intro Hn. induction n as [|n IH].
  - simpl. split; [reflexivity|]. intro i. reflexivity.
  - destruct IH as [Hlen Hrows]; [lia|].
    rewrite seq_S, fold_left_app. simpl.
    set (T := fold_left (Legacy.eliminateStep cols pr pc) (seq 0 n) t1) in *.
    assert (Hpr : nth pr T [] = nth pr t1 []).
    { rewrite Hrows. rewrite Nat.eqb_refl. simpl. rewrite andb_false_r. reflexivity. }
    assert (Hn' : nth n T [] = nth n t1 []).
    { rewrite Hrows. rewrite Nat.ltb_irrefl. reflexivity. }
    assert (Hlt : forall i, i <> n -> (i <? S n)%nat = (i <? n)%nat).
    { intros i Hne. destruct (i <? n)%nat eqn:E1.
      - apply Nat.ltb_lt in E1. apply Nat.ltb_lt. lia.
      - apply Nat.ltb_ge in E1. apply Nat.ltb_ge. lia. }
    unfold Legacy.eliminateStep.
    destruct (n =? pr)%nat eqn:En.
    + split; [exact Hlen|]. intro i. rewrite Hrows.
      destruct (Nat.eq_dec i n) as [-> | Hne].
      * rewrite Nat.ltb_irrefl, En. simpl. rewrite andb_false_r. reflexivity.
      * rewrite (Hlt i Hne). reflexivity.
    + assert (Hcell : cell T n pc = cell t1 n pc) by (unfold cell; rewrite Hn'; reflexivity).
      rewrite Hcell.
      destruct (Qltb (Qabs (cell t1 n pc)) eps12) eqn:Ef.
      * split; [exact Hlen|]. intro i. rewrite Hrows.
        destruct (Nat.eq_dec i n) as [-> | Hne].
        -- rewrite Nat.ltb_irrefl, Ef. simpl. rewrite andb_false_r. reflexivity.
        -- rewrite (Hlt i Hne). reflexivity.
      * split; [rewrite setAt_length; exact Hlen|]. intro i.
        destruct (Nat.eq_dec i n) as [-> | Hne].
        -- rewrite nth_setAt_eq by lia. rewrite Hpr, Hn'.
           rewrite (proj2 (Nat.ltb_lt n (S n))) by lia. rewrite En, Ef. reflexivity.
        -- rewrite nth_setAt_neq by lia. rewrite Hrows, (Hlt i Hne). reflexivity.
Qed.

(** The table returned by the earlier [performPivot], row by row. *)
Lemma legacy_pivot_rows (t t' : Tableau) (pr pc : nat) :
  (pr < length t)%nat ->
  Legacy.performPivot t pr pc = inr t' ->
  let cols := length (nth 0 t []) in
  let pivotRow := Legacy.normalizeRow cols (cell t pr pc) (nth pr t []) in
  ~ cell t pr pc == 0 /\
  length t' = length t /\
  nth pr t' [] = pivotRow /\
  forall i, i <> pr ->
    nth i t' [] =
    if ((i <? length t - 2)%nat && negb (Qltb (Qabs (cell t i pc)) eps12))%bool
    then Legacy.eliminateRow cols (cell t i pc) pivotRow (nth i t [])
    else nth i t [].
Proof.
  intros Hpr Hp cols pivotRow.
  unfold Legacy.performPivot in Hp. rewrite map_id in Hp.
  destruct (Qeq_bool (cell t pr pc) 0) eqn:E0; [discriminate|].
  injection Hp as Hp. fold cols in Hp. fold pivotRow in Hp.
  set (t1 := setAt t pr pivotRow) in *.
  assert (Hlen1 : length t1 = length t) by apply setAt_length.
  destruct (legacy_eliminate_loop_rows cols pr pc t1 (length t - 2)) as [Hlen Hrows]; [lia|].
  rewrite Hp in Hlen, Hrows.
  assert (Hprow : nth pr t1 [] = pivotRow) by (apply nth_setAt_eq; exact Hpr).
  split; [apply Qeq_bool_neq; exact E0|].
  split; [congruence|]. split.
  - rewrite Hrows, Nat.eqb_refl. simpl. rewrite andb_false_r. exact Hprow.
  - intros i Hne. rewrite Hrows.
    assert (Hi : nth i t1 [] = nth i t []) by (apply nth_setAt_neq; lia).
    assert (Hc : cell t1 i pc = cell t i pc) by (unfold cell; rewrite Hi; reflexivity).
    rewrite Hc, Hi, Hprow.
    rewrite (proj2 (Nat.eqb_neq i pr) Hne). simpl. rewrite andb_true_r. reflexivity.
Qed.



Lemma sumRows_eq (f g : nat -> Q) (n : nat) :
  (forall i, (i < n)%nat -> f i == g i) -> sumRows f n == sumRows g n.
Proof.
  induction n as [|n IH]; intro H; simpl; [reflexivity|].
  rewrite IH by (intros i Hi; apply H; lia). rewrite (H n) by lia. reflexivity.
Qed.

Lemma sumRows_div (f : nat -> Q) (c : Q) (n : nat) :
  ~ c == 0 -> sumRows (fun j => f j / c) n == sumRows f n / c.
Proof.
  intro Hc. induction n as [|n IH]; simpl.
  - field. exact Hc.
  - rewrite IH. field. exact Hc.
Qed.

Lemma sumRows_sub_scaled (f g : nat -> Q) (c : Q) (n : nat) :
  sumRows (fun j => f j - c * g j) n == sumRows f n - c * sumRows g n.
Proof.
  induction n as [|n IH]; simpl.
  - ring.
  - rewrite IH. ring.
Qed.

(** Dividing a row by a non-zero pivot keeps its equation. *)
Lemma rowHolds_normalize (x : list Q) (cols : nat) (pv : Q) (row : list Q) :
  length row = cols -> (0 < cols)%nat -> ~ pv == 0 ->
  (rowHolds x (Legacy.normalizeRow cols pv row) <-> rowHolds x row).
Proof.
  intros Hlen Hpos Hpv. unfold rowHolds, lastOf.
  rewrite (legacy_normalizeRow_length cols pv row Hlen), Hlen.
  rewrite legacy_nth_normalizeRow by lia.
  assert (Hsum : sumRows (fun j => nth j (Legacy.normalizeRow cols pv row) 0 * nth j x 0)
                         (cols - 1)
                 == sumRows (fun j => nth j row 0 * nth j x 0) (cols - 1) / pv).
  { rewrite <- sumRows_div by exact Hpv.
    apply sumRows_eq. intros j Hj.
    rewrite legacy_nth_normalizeRow by lia. field. exact Hpv. }
  rewrite Hsum.
  set (S := sumRows (fun j => nth j row 0 * nth j x 0) (cols - 1)).
  set (R := nth (cols - 1) row 0).
  split; intro H.
  - assert (E1 : S == S / pv * pv) by (field; exact Hpv).
    assert (E2 : R == R / pv * pv) by (field; exact Hpv).
    rewrite E1, E2, H. reflexivity.
  - rewrite H. reflexivity.
Qed.

(** Subtracting a multiple of a row whose equation holds keeps the
    equation of the other row. *)
Lemma rowHolds_eliminate (x : list Q) (cols : nat) (f : Q) (pivotRow row : list Q) :
  length row = cols -> length pivotRow = cols -> (0 < cols)%nat ->
  rowHolds x pivotRow ->
  (rowHolds x (Legacy.eliminateRow cols f pivotRow row) <-> rowHolds x row).
Proof.
  intros Hlen Hplen Hpos Hp. unfold rowHolds, lastOf in *.
  rewrite (legacy_eliminateRow_length cols f pivotRow row Hlen), Hlen.
  rewrite Hplen in Hp.
  rewrite legacy_nth_eliminateRow by lia.
  assert (Hsum : sumRows (fun j => nth j (Legacy.eliminateRow cols f pivotRow row) 0
                                   * nth j x 0) (cols - 1)
                 == sumRows (fun j => nth j row 0 * nth j x 0) (cols - 1)
                    - f * sumRows (fun j => nth j pivotRow 0 * nth j x 0) (cols - 1)).
  { rewrite <- sumRows_sub_scaled.
    apply sumRows_eq. intros j Hj.
    rewrite legacy_nth_eliminateRow by lia. ring. }
  rewrite Hsum, Hp.
  set (S := sumRows (fun j => nth j row 0 * nth j x 0) (cols - 1)).
  set (R := nth (cols - 1) row 0).
  set (P := nth (cols - 1) pivotRow 0).
  split; intro H.
  - assert (E : S == S - f * P + f * P) by ring.
    rewrite E, H. ring.
  - rewrite H. reflexivity.
Qed.

Lemma rectangular_inv (t : Tableau) :
  rectangular t ->
  forall i, (i < length t)%nat -> length (nth i t []) = length (nth 0 t []).
Proof.
  unfold rectangular. intros H i Hi. rewrite forallb_forall in H.
  apply Nat.eqb_eq. apply H. apply nth_In. exact Hi.
Qed.

(** X18.  The earlier [performPivot] works on the equations of the
    constraint rows without changing their solutions: on a rectangular
    table, with the pivot taken in a constraint row, an assignment of the
    variables satisfies every constraint row of the returned table exactly
    when it satisfies every constraint row of the table given (in exact
    arithmetic, the number model of this development). *)
Theorem legacy_pivot_preserves_solutions (t t' : Tableau) (pr pc : nat) (x : list Q) :
  rectangular t ->
  (pr < length t - 2)%nat -> (pc < length (nth 0 t []))%nat ->
  Legacy.performPivot t pr pc = inr t' ->
  (solves x t' <-> solves x t).
Proof.
  intros Hrect Hpr Hpc Hp.
  assert (Hprt : (pr < length t)%nat) by lia.
  destruct (legacy_pivot_rows t t' pr pc Hprt Hp) as [Hnz [Hlen [Hrow Hoth]]].
  pose proof (rectangular_inv t Hrect) as Hw.
  set (cols := length (nth 0 t [])) in *.
  set (pivotRow := Legacy.normalizeRow cols (cell t pr pc) (nth pr t [])) in *.
  assert (Hcols : (0 < cols)%nat) by lia.
  assert (Hpl : length pivotRow = cols)
    by (apply legacy_normalizeRow_length; apply Hw; exact Hprt).
  assert (Hpiv : rowHolds x pivotRow <-> rowHolds x (nth pr t []))
    by (apply rowHolds_normalize; [apply Hw; exact Hprt | exact Hcols | exact Hnz]).
  assert (Hrows : forall i, (i < length t - 2)%nat -> i <> pr ->
            rowHolds x pivotRow ->
            (rowHolds x (nth i t' []) <-> rowHolds x (nth i t []))).
  { intros i Hi Hne Hp'. rewrite (Hoth i Hne).
    rewrite (proj2 (Nat.ltb_lt _ _) Hi). simpl.
    destruct (Qltb (Qabs (cell t i pc)) eps12); simpl; [reflexivity|].
    apply rowHolds_eliminate; [apply Hw; lia | exact Hpl | exact Hcols | exact Hp']. }
  unfold solves. rewrite Hlen. split; intros H i Hi.
  - assert (Hp' : rowHolds x pivotRow) by (rewrite <- Hrow; apply H; exact Hpr).
    destruct (Nat.eq_dec i pr) as [-> | Hne].
    + apply Hpiv. exact Hp'.
    + apply (Hrows i Hi Hne Hp'). apply H. exact Hi.
  - assert (Hp' : rowHolds x pivotRow) by (apply Hpiv; apply H; exact Hpr).
    destruct (Nat.eq_dec i pr) as [-> | Hne].
    + rewrite Hrow. exact Hp'.
    + apply (Hrows i Hi Hne Hp'). apply H. exact Hi.
Qed.

Lemma legacy_pivot_preserves_solutions_witness :
  rectangular ScenarioA.table0 /\
  (1 < length ScenarioA.table0 - 2)%nat /\
  (1 < length (nth 0 ScenarioA.table0 []))%nat /\
  Legacy.performPivot ScenarioA.table0 1 1
    = inr [[1; 0; 1; 0; 0; 4];
           [0 / 2; 2 / 2; 0 / 2; 1 / 2; 0 / 2; 12 / 2];
           [3 - 2 * (0 / 2); 2 - 2 * (2 / 2); 0 - 2 * (0 / 2); 0 - 2 * (1 / 2);
            1 - 2 * (0 / 2); 18 - 2 * (12 / 2)];
           [0; 0; 0; 0; 0; 0];
           [0; 0; 0; 0; 0; 0]] /\
  (solves [2; 6; 2; 0; 0]
          [[1; 0; 1; 0; 0; 4];
           [0 / 2; 2 / 2; 0 / 2; 1 / 2; 0 / 2; 12 / 2];
           [3 - 2 * (0 / 2); 2 - 2 * (2 / 2); 0 - 2 * (0 / 2); 0 - 2 * (1 / 2);
            1 - 2 * (0 / 2); 18 - 2 * (12 / 2)];
           [0; 0; 0; 0; 0; 0];
           [0; 0; 0; 0; 0; 0]]
   <-> solves [2; 6; 2; 0; 0] ScenarioA.table0).
Proof.
  split; [reflexivity|]. split; [simpl; lia|]. split; [simpl; lia|].
  split; [reflexivity|].
  apply (legacy_pivot_preserves_solutions ScenarioA.table0 _ 1 1 [2; 6; 2; 0; 0]).
  - reflexivity.
  - simpl. lia.
  - simpl. lia.
  - reflexivity.
Defined.




(** ** The derived rows of the first Phase 1 table *)





(** ** "Solve to Optimal" against repeated "Next Iteration" *)

Lemma sameCore_refl (s : MaxScreen.Session) : sameCore s s.
Proof. unfold sameCore. auto. Qed.

Lemma sameCore_sym (s1 s2 : MaxScreen.Session) : sameCore s1 s2 -> sameCore s2 s1.
Proof. unfold sameCore. intros [A [B [C [D E]]]]. auto. Qed.

Lemma sameCore_trans (s1 s2 s3 : MaxScreen.Session) :
  sameCore s1 s2 -> sameCore s2 s3 -> sameCore s1 s3.
Proof.
  unfold sameCore. intros [A [B [C [D E]]]] [A' [B' [C' [D' E']]]].
  repeat split; congruence.
Qed.

(** What "Next Iteration" writes to the table, the basis and the counter
    depends only on those hooks and on the variable names and Cj. *)
Lemma handleNextIteration_sameCore (msgO msgU : string) (s1 s2 : MaxScreen.Session) :
  sameCore s1 s2 ->
  sameCore (MaxScreen.handleNextIteration msgO msgU s1)
           (MaxScreen.handleNextIteration msgO msgU s2).
Proof.
  destruct s1 as [t1 v1 c1 b1 e1 l1 i1 m1], s2 as [t2 v2 c2 b2 e2 l2 i2 m2].
  unfold sameCore. simpl. intros [<- [<- [<- [<- <-]]]].
  unfold MaxScreen.handleNextIteration. simpl.
  destruct (length t1 <? 2)%nat; [simpl; auto|].
  destruct (Engine.enteringMax _) as [[k|]|]; [|simpl; auto|simpl; auto].
  destruct (Engine.ratioTest _ _ _ _) as [r|]; [|simpl; auto].
  unfold MaxScreen.tryPivot. simpl.
  destruct (Engine.performPivot t1 r k) as [err|t']; [simpl; auto|].
  destruct (MaxScreen.maxAtMostEps _); simpl; auto.
Qed.

Lemma iter_sameCore (msgO msgU : string) (n : nat) (s1 s2 : MaxScreen.Session) :
  sameCore s1 s2 ->
  sameCore (Nat.iter n (MaxScreen.handleNextIteration msgO msgU) s1)
           (Nat.iter n (MaxScreen.handleNextIteration msgO msgU) s2).
Proof.
  intro H. induction n as [|n IH]; simpl; [exact H|].
  apply handleNextIteration_sameCore. exact IH.
Qed.

(** A turn of [solve] that pivots commits what "Next Iteration" commits;
    a turn that stops leaves the hooks as they were. *)
Lemma solveTurn_sameCore (msgO msgU : string) (st : MaxScreen.Session) :
  match MaxScreen.solveTurn msgO msgU st (MaxScreen.simplexTable st)
                            (MaxScreen.basicVariables st) (MaxScreen.iteration st) with
  | MaxScreen.Stop s' => sameCore s' st
  | MaxScreen.Continue s' t' b' =>
      sameCore s' (MaxScreen.handleNextIteration msgO msgU st) /\
      MaxScreen.simplexTable s' = t' /\ MaxScreen.basicVariables s' = b' /\
      MaxScreen.iteration s' = S (MaxScreen.iteration st)
  end.
Proof.
  destruct st as [t v c b e l i m].
  unfold MaxScreen.solveTurn, MaxScreen.handleNextIteration, sameCore. simpl.
  destruct (Engine.enteringMax _) as [[k|]|]; [|simpl; auto 6|simpl; auto 6].
  destruct (length t <? 2)%nat eqn:E2.
  - apply Nat.ltb_lt in E2.
    replace (length t - 2)%nat with 0%nat by lia.
    unfold Engine.ratioTest, Engine.ratioLoop. simpl. auto 6.
  - destruct (Engine.ratioTest _ _ _ _) as [r|]; [|simpl; auto 6].
    unfold MaxScreen.tryPivot. simpl.
    destruct (Engine.performPivot t r k) as [err|t']; [simpl; auto 6|].
    destruct (MaxScreen.maxAtMostEps _); simpl; auto 10.
Qed.

Lemma solve_sameCore (msgO msgU : string) (n : nat) :
  forall st : MaxScreen.Session,
  MaxScreen.remaining (MaxScreen.iteration st) = n ->
  let r := MaxScreen.solve msgO msgU st (MaxScreen.simplexTable st)
                           (MaxScreen.basicVariables st) (MaxScreen.iteration st) in
  sameCore (fst r) (Nat.iter (snd r) (MaxScreen.handleNextIteration msgO msgU) st).
Proof.
  induction n as [|n IH]; intros st Hrem r; subst r;
    rewrite solve_unfold; unfold MaxScreen.remaining, MaxScreen.maxIterations in *.
  - assert (E : (MaxScreen.iteration st <=? 100)%nat = false) by (apply Nat.leb_gt; lia).
    rewrite E. simpl. unfold sameCore. simpl. auto.
  - assert (E : (MaxScreen.iteration st <=? 100)%nat = true) by (apply Nat.leb_le; lia).
    rewrite E.
    pose proof (solveTurn_sameCore msgO msgU st) as Hc.
    destruct (MaxScreen.solveTurn msgO msgU st (MaxScreen.simplexTable st)
                (MaxScreen.basicVariables st) (MaxScreen.iteration st))
      as [s1 | s1 t' b'].
    + simpl. exact Hc.
    + destruct Hc as [Hcore [Ht [Hb Hi]]].
      simpl fst. simpl snd.
      rewrite Nat.iter_succ_r.
      assert (Hrem' : (101 - MaxScreen.iteration s1)%nat = n) by lia.
      pose proof (IH s1 Hrem') as H. cbv zeta in H.
      rewrite Ht, Hb, Hi in H.
      apply (sameCore_trans _ _ _ H).
      apply iter_sameCore. exact Hcore.
Qed.

(** X23.  "Solve to Optimal" commits the table, the basis and the
    iteration counter that pressing "Next Iteration" once per pivot it made
    would have committed, with the same variable names and Cj: the automatic
    run takes no step the manual one would not take. *)
Theorem solve_is_iterated_next (msgOptimal msgUnbounded : string)
  (s : MaxScreen.Session) :
  let r := MaxScreen.handleSolveToOptimal msgOptimal msgUnbounded s in
  sameCore (fst r)
           (Nat.iter (snd r) (MaxScreen.handleNextIteration msgOptimal msgUnbounded) s).
Proof.
  intro r. subst r. unfold MaxScreen.handleSolveToOptimal.
  pose proof (solve_sameCore msgOptimal msgUnbounded
                (MaxScreen.remaining (MaxScreen.iteration s))
                (MaxScreen.setMessage None s) eq_refl) as H.
  cbv zeta in H. simpl MaxScreen.simplexTable in H. simpl MaxScreen.basicVariables in H.
  simpl MaxScreen.iteration in H.
  apply (sameCore_trans _ _ _ H).
  apply iter_sameCore. unfold sameCore. simpl. auto.
Qed.

Lemma sameCore1_trans (s1 s2 s3 : Phase1.Session) :
  sameCore1 s1 s2 -> sameCore1 s2 s3 -> sameCore1 s1 s3.
Proof.
  unfold sameCore1. intros [A [B [C [D E]]]] [A' [B' [C' [D' E']]]].
  repeat split; congruence.
Qed.

Lemma concludePhase1_sameCore (value : Q) (s : Phase1.Session) :
  sameCore1 (Phase1.concludePhase1 value s) s.
Proof.
  destruct (concludePhase1_fields value s) as [A [B [C [D E]]]].
  unfold sameCore1. auto.
Qed.

Lemma sameCore1_via (a b a' b' : Phase1.Session) :
  sameCore1 a a' -> sameCore1 b b' -> sameCore1 a' b' -> sameCore1 a b.
Proof.
  unfold sameCore1. intros [A [B [C [D E]]]] [A' [B' [C' [D' E']]]] [F [G [H [I J]]]].
  repeat split; congruence.
Qed.

Lemma phase1_handleNextIteration_sameCore (s1 s2 : Phase1.Session) :
  sameCore1 s1 s2 ->
  sameCore1 (Phase1.handleNextIteration s1) (Phase1.handleNextIteration s2).
Proof.
  destruct s1 as [t1 v1 c1 b1 e1 l1 i1 m1 f1], s2 as [t2 v2 c2 b2 e2 l2 i2 m2 f2].
  unfold sameCore1 at 1. simpl. intros [<- [<- [<- [<- <-]]]].
  assert (Hconcl : forall v a b, sameCore1 a b ->
            sameCore1 (Phase1.concludePhase1 v a) (Phase1.concludePhase1 v b)).
  { intros v a b Hab.
    apply (sameCore1_via _ _ a b);
      [apply concludePhase1_sameCore | apply concludePhase1_sameCore | exact Hab]. }
  unfold Phase1.handleNextIteration. simpl.
  destruct (length t1 <? 2)%nat; [unfold sameCore1; simpl; auto|].
  destruct (Engine.enteringMin _) as [[k|]|].
  - destruct (Engine.ratioTest _ _ _ _) as [r|]; [|unfold sameCore1; simpl; auto].
    unfold Phase1.tryPivot. simpl.
    destruct (Phase1.performPivot t1 r k) as [err|t']; [unfold sameCore1; simpl; auto|].
    destruct (Phase1.minAtLeastNegEps _).
    + apply Hconcl. unfold sameCore1. simpl. auto.
    + unfold sameCore1. simpl. auto.
  - unfold sameCore1. simpl. auto.
  - apply Hconcl. unfold sameCore1. simpl. auto.
Qed.

Lemma phase1_iter_sameCore (n : nat) (s1 s2 : Phase1.Session) :
  sameCore1 s1 s2 ->
  sameCore1 (Nat.iter n Phase1.handleNextIteration s1)
            (Nat.iter n Phase1.handleNextIteration s2).
Proof.
  intro H. induction n as [|n IH]; simpl; [exact H|].
  apply phase1_handleNextIteration_sameCore. exact IH.
Qed.

Lemma phase1_solveTurn_sameCore (st : Phase1.Session) :
  match Phase1.solveTurn st (Phase1.simplexTable st) (Phase1.basicVariables st)
                         (Phase1.iteration st) with
  | Phase1.Stop s' => sameCore1 s' st
  | Phase1.Continue s' t' b' =>
      sameCore1 s' (Phase1.handleNextIteration st) /\
      Phase1.simplexTable s' = t' /\ Phase1.basicVariables s' = b' /\
      Phase1.iteration s' = S (Phase1.iteration st)
  end.
Proof.
  destruct st as [t v c b e l i m f].
  unfold Phase1.solveTurn, Phase1.handleNextIteration. simpl.
  destruct (Engine.enteringMin _) as [[k|]|].
  - destruct (length t <? 2)%nat eqn:E2.
    + apply Nat.ltb_lt in E2.
      replace (length t - 2)%nat with 0%nat by lia.
      unfold Engine.ratioTest, Engine.ratioLoop. simpl. unfold sameCore1. simpl. auto.
    + destruct (Engine.ratioTest _ _ _ _) as [r|]; [|unfold sameCore1; simpl; auto].
      unfold Phase1.tryPivot. simpl.
      destruct (Phase1.performPivot t r k) as [err|t']; [unfold sameCore1; simpl; auto|].
      split; [|simpl; auto].
      destruct (Phase1.minAtLeastNegEps _).
      * match goal with
        | |- sameCore1 ?a (Phase1.concludePhase1 ?v ?s0) =>
            apply (sameCore1_via a (Phase1.concludePhase1 v s0) a s0);
              [unfold sameCore1; auto | apply concludePhase1_sameCore
               | unfold sameCore1; simpl; auto]
        end.
      * unfold sameCore1. simpl. auto.
  - unfold sameCore1. simpl. auto.
  - apply concludePhase1_sameCore.
Qed.

Lemma phase1_solve_sameCore (n : nat) :
  forall st : Phase1.Session,
  MaxScreen.remaining (Phase1.iteration st) = n ->
  let r := Phase1.solve st (Phase1.simplexTable st) (Phase1.basicVariables st)
                        (Phase1.iteration st) in
  sameCore1 (fst r) (Nat.iter (snd r) Phase1.handleNextIteration st).
Proof.
  induction n as [|n IH]; intros st Hrem r; subst r;
    rewrite phase1_solve_unfold; unfold MaxScreen.remaining, MaxScreen.maxIterations in *.
  - assert (E : (Phase1.iteration st <=? 100)%nat = false) by (apply Nat.leb_gt; lia).
    rewrite E. simpl. unfold sameCore1. simpl. auto.
  - assert (E : (Phase1.iteration st <=? 100)%nat = true) by (apply Nat.leb_le; lia).
    rewrite E.
    pose proof (phase1_solveTurn_sameCore st) as Hc.
    destruct (Phase1.solveTurn st (Phase1.simplexTable st) (Phase1.basicVariables st)
                (Phase1.iteration st)) as [s1 | s1 t' b'].
    + simpl. exact Hc.
    + destruct Hc as [Hcore [Ht [Hb Hi]]].
      simpl fst. simpl snd.
      rewrite Nat.iter_succ_r.
      assert (Hrem' : (101 - Phase1.iteration s1)%nat = n) by lia.
      pose proof (IH s1 Hrem') as H. cbv zeta in H.
      rewrite Ht, Hb, Hi in H.
      apply (sameCore1_trans _ _ _ H).
      apply phase1_iter_sameCore. exact Hcore.
Qed.

(** X24.  The same on the Phase 1 screen: "Solve to Optimal" commits
    the table, the basis and the iteration counter that pressing "Next
    Iteration" once per pivot it made would have committed. *)
Theorem phase1_solve_is_iterated_next (s : Phase1.Session) :
  let r := Phase1.handleSolveToOptimal s in
  sameCore1 (fst r) (Nat.iter (snd r) Phase1.handleNextIteration s).
Proof.
  intro r. subst r. unfold Phase1.handleSolveToOptimal.
  pose proof (phase1_solve_sameCore (MaxScreen.remaining (Phase1.iteration s))
                (Phase1.setMessage None s) eq_refl) as H.
  cbv zeta in H. simpl Phase1.simplexTable in H. simpl Phase1.basicVariables in H.
  simpl Phase1.iteration in H.
  apply (sameCore1_trans _ _ _ H).
  apply phase1_iter_sameCore. unfold sameCore1. simpl. auto.
Qed.

(** ** Invariants of a Phase 2 session *)

(** X25.  Whatever sequence of presses of "Next Iteration", "Solve to
    Optimal" and "Reset" and of firings of the timers that "Solve to
    Optimal" sets happens on the Phase 2 screen after [createPhase2Table]
    has run on route parameters of the expected shape whose resulting basis
    names Phase 2 variables, the committed session stays well-formed, every
    basis entry names a variable of the list, the variable list stays the
    Phase 1 list without the names starting with 'a', the Cj row stays the
    Phase 2 objective, the iteration counter is at least 1, and every
    pending call of [solve] holds these names and this Cj row, a table and a
    basis that are well-formed for them, and a counter of at least 1. *)
Theorem phase2_session_invariants (p : Phase2Params) (events : list MaxScreen.Event) :
  params_shape p ->
  basis_in_variables (Phase2.newBasicVariables p)
                     (Phase2.filteredVariables (phase1Variables p)) ->
  let sc := Phase2.run (Some (Phase2.createdInitialState p)) events
                       (MaxScreen.mkScreen (Phase2.createPhase2Table p) []) in
  let s := MaxScreen.shown sc in
  wf_session s /\
  basis_in_variables (MaxScreen.basicVariables s) (MaxScreen.variables s) /\
  MaxScreen.variables s = Phase2.filteredVariables (phase1Variables p) /\
  MaxScreen.cj s = Phase2.phase2Objective p /\
  (1 <= MaxScreen.iteration s)%nat /\
  Forall (timer_ok (Phase2.filteredVariables (phase1Variables p))
                   (Phase2.phase2Objective p))
         (MaxScreen.timers sc).
Proof.
  intros Hshape Hbv sc s.
  assert (Hstart : session_ok (Phase2.filteredVariables (phase1Variables p))
                              (Phase2.phase2Objective p) (Phase2.createPhase2Table p)).
  { split; [apply createPhase2Table_wf; exact Hshape|]. split; [exact Hbv|].
    split; [reflexivity|]. split; [reflexivity|]. simpl. lia. }
  assert (Hreset : forall x,
            MaxScreen.handleReset (Some (Phase2.createdInitialState p)) x
            = Phase2.createPhase2Table p).
  { intro x.
    unfold MaxScreen.handleReset, Phase2.createdInitialState,
           Phase2.createPhase2Table, Phase2.computeZjAndCjMinusZj,
           MaxScreen.computeZjAndCjMinusZj.
    simpl. rewrite computeWith_fixed. reflexivity. }
  destruct (run_invariants Phase2.msgOptimal Phase2.msgUnbounded
              (Some (Phase2.createdInitialState p))
              (Phase2.filteredVariables (phase1Variables p))
              (Phase2.phase2Objective p) events
              (fun x _ => eq_ind_r (session_ok _ _) Hstart (Hreset x))
              (MaxScreen.mkScreen (Phase2.createPhase2Table p) []) Hstart (Forall_nil _))
    as [[A [B [D [E F]]]] G].
  fold (Phase2.run (Some (Phase2.createdInitialState p)) events
          (MaxScreen.mkScreen (Phase2.createPhase2Table p) [])) in A, B, D, E, F, G.
  fold sc in A, B, D, E, F, G. fold s in A, B, D, E, F.
  split; [exact A|]. split; [exact B|]. split; [exact D|]. split; [exact E|].
  split; [exact F | exact G].
Qed.

Lemma phase2_session_invariants_witness :
  params_shape ScenarioB.params /\
  basis_in_variables (Phase2.newBasicVariables ScenarioB.params)
                     (Phase2.filteredVariables (phase1Variables ScenarioB.params)) /\
  wf_session
    (MaxScreen.shown
       (Phase2.run (Some (Phase2.createdInitialState ScenarioB.params))
          [MaxScreen.PressSolveToOptimal; MaxScreen.PressNextIteration;
           MaxScreen.PressReset; MaxScreen.TimerFires]
          (MaxScreen.mkScreen (Phase2.createPhase2Table ScenarioB.params) []))).
Proof.
  assert (Hshape : params_shape ScenarioB.params) by (vm_compute; reflexivity).
  assert (Hbv : basis_in_variables
                  (Phase2.newBasicVariables ScenarioB.params)
                  (Phase2.filteredVariables (phase1Variables ScenarioB.params))).
  { intros i Hi. vm_compute in Hi.
    destruct i as [|[|i]]; [vm_compute; auto | vm_compute; auto | ].
    exfalso. apply Nat.succ_le_mono in Hi. apply Nat.succ_le_mono in Hi.
    inversion Hi. }
  split; [exact Hshape|]. split; [exact Hbv|].
  exact (proj1 (phase2_session_invariants ScenarioB.params
                  [MaxScreen.PressSolveToOptimal; MaxScreen.PressNextIteration;
                   MaxScreen.PressReset; MaxScreen.TimerFires]
                  Hshape Hbv)).
Defined.

(** ** "Solve to Optimal" left alone *)

Lemma withNames_same (s : MaxScreen.Session) :
  MaxScreen.withNames (MaxScreen.variables s) (MaxScreen.cj s) s = s.
Proof. destruct s; reflexivity. Qed.

(** A call of [solve] whose closure holds the committed names, made with
    the committed state: one turn of the recursive [solve]. *)
Lemma solveCall_own_names (msgO msgU : string) (st : MaxScreen.Session) (t : Tableau)
  (b : list string) (it : nat) :
  MaxScreen.solveCall msgO msgU (MaxScreen.variables st) (MaxScreen.cj st) st t b it =
  if (it <=? MaxScreen.maxIterations)%nat then
    match MaxScreen.solveTurn msgO msgU st t b it with
    | MaxScreen.Stop s' => (s', None)
    | MaxScreen.Continue s' t' b' =>
        (s', Some (MaxScreen.mkTimer (MaxScreen.variables s') (MaxScreen.cj s')
                                     t' b' (S it)))
    end
  else (MaxScreen.setMessage (Some MaxScreen.limitMessage) st, None).
Proof.
  unfold MaxScreen.solveCall. rewrite withNames_same.
  destruct (it <=? MaxScreen.maxIterations)%nat; [|reflexivity].
  pose proof (solveTurn_pivot msgO msgU st t b it) as H.
  destruct (MaxScreen.solveTurn msgO msgU st t b it) as [s' | s' t' b'].
  - destruct H as [_ [_ [Hv [Hc _]]]]. rewrite <- Hv, <- Hc, withNames_same. reflexivity.
  - destruct H as [r [k [t1 [_ [_ [_ [_ [_ [_ [_ [Hv [Hc _]]]]]]]]]]]].
    rewrite <- Hv, <- Hc, withNames_same. reflexivity.
Qed.

Lemma timers_run_solve (msgO msgU : string) (init : option MaxScreen.Initial.State)
  (n : nat) :
  forall (st : MaxScreen.Session) (t : Tableau) (b : list string) (it : nat),
  MaxScreen.remaining it = n ->
  MaxScreen.run msgO msgU init
    (repeat MaxScreen.TimerFires (S (snd (MaxScreen.solve msgO msgU st t b it))))
    (MaxScreen.mkScreen st
       [MaxScreen.mkTimer (MaxScreen.variables st) (MaxScreen.cj st) t b it])
  = MaxScreen.mkScreen (fst (MaxScreen.solve msgO msgU st t b it)) [].
Proof.
  induction n as [|n IH]; intros st t b it Hrem;
    rewrite solve_unfold; unfold MaxScreen.run;
    cbn [repeat fold_left MaxScreen.step MaxScreen.shown MaxScreen.timers
         MaxScreen.closureVariables MaxScreen.closureCj MaxScreen.argTable
         MaxScreen.argBasics MaxScreen.argIteration];
    rewrite solveCall_own_names;
    unfold MaxScreen.remaining, MaxScreen.maxIterations in *.
  - assert (E : (it <=? 100)%nat = false) by (apply Nat.leb_gt; lia).
    rewrite E. reflexivity.
  - assert (E : (it <=? 100)%nat = true) by (apply Nat.leb_le; lia).
    rewrite E.
    destruct (MaxScreen.solveTurn msgO msgU st t b it) as [s' | s' t' b'].
    + reflexivity.
    + cbn [fst snd MaxScreen.schedule app].
      apply (IH s' t' b' (S it)). lia.
Qed.

(** X26.  "Solve to Optimal" left alone.  When nothing is pressed while
    its timers are pending, the press followed by the firing of one timer
    per pivot leaves the screen in the state that the recursive [solve]
    returns, with no timer pending: the chain of [setTimeout] callbacks,
    uninterrupted, is the recursion. *)
Theorem solve_chain_uninterrupted (msgOptimal msgUnbounded : string)
  (init : option MaxScreen.Initial.State) (s : MaxScreen.Session) :
  let r := MaxScreen.handleSolveToOptimal msgOptimal msgUnbounded s in
  MaxScreen.run msgOptimal msgUnbounded init
    (MaxScreen.PressSolveToOptimal :: repeat MaxScreen.TimerFires (snd r))
    (MaxScreen.mkScreen s [])
  = MaxScreen.mkScreen (fst r) [].
Proof.
  intro r. subst r. unfold MaxScreen.handleSolveToOptimal.
  rewrite solve_unfold. unfold MaxScreen.run.
  cbn [fold_left MaxScreen.step MaxScreen.shown MaxScreen.timers].
  change (MaxScreen.variables s) with (MaxScreen.variables (MaxScreen.setMessage None s)).
  change (MaxScreen.cj s) with (MaxScreen.cj (MaxScreen.setMessage None s)).
  rewrite solveCall_own_names.
  destruct (MaxScreen.iteration s <=? MaxScreen.maxIterations)%nat; [|reflexivity].
  destruct (MaxScreen.solveTurn msgOptimal msgUnbounded (MaxScreen.setMessage None s)
              (MaxScreen.simplexTable s) (MaxScreen.basicVariables s)
              (MaxScreen.iteration s)) as [s' | s' t' b'].
  - reflexivity.
  - cbn [fst snd MaxScreen.schedule app].
    exact (timers_run_solve msgOptimal msgUnbounded init _ s' t' b'
             (S (MaxScreen.iteration s)) eq_refl).
Qed.

Lemma phase1_withNames_same (s : Phase1.Session) :
  Phase1.withNames (Phase1.variables s) (Phase1.cj s) s = s.
Proof. destruct s; reflexivity. Qed.

Lemma phase1_solveCall_own_names (st : Phase1.Session) (t : Tableau)
  (b : list string) (it : nat) :
  Phase1.solveCall (Phase1.variables st) (Phase1.cj st) st t b it =
  if (it <=? MaxScreen.maxIterations)%nat then
    match Phase1.solveTurn st t b it with
    | Phase1.Stop s' => (s', None)
    | Phase1.Continue s' t' b' =>
        (s', Some (MaxScreen.mkTimer (Phase1.variables s') (Phase1.cj s') t' b' (S it)))
    end
  else (Phase1.setMessage (Some MaxScreen.limitMessage) st, None).
Proof.
  unfold Phase1.solveCall. rewrite phase1_withNames_same.
  destruct (it <=? MaxScreen.maxIterations)%nat; [|reflexivity].
  pose proof (phase1_solveTurn_pivot st t b it) as H.
  destruct (Phase1.solveTurn st t b it) as [s' | s' t' b'].
  - destruct H as [_ [_ [Hv [Hc _]]]].
    rewrite <- Hv, <- Hc, phase1_withNames_same. reflexivity.
  - destruct H as [r [k [t1 [_ [_ [_ [_ [_ [_ [_ [Hv [Hc _]]]]]]]]]]]].
    rewrite <- Hv, <- Hc, phase1_withNames_same. reflexivity.
Qed.

Lemma phase1_timers_run_solve (init : option MaxScreen.Initial.State) (n : nat) :
  forall (st : Phase1.Session) (t : Tableau) (b : list string) (it : nat),
  MaxScreen.remaining it = n ->
  Phase1.run init
    (repeat MaxScreen.TimerFires (S (snd (Phase1.solve st t b it))))
    (Phase1.mkScreen st
       [MaxScreen.mkTimer (Phase1.variables st) (Phase1.cj st) t b it])
  = Phase1.mkScreen (fst (Phase1.solve st t b it)) [].
Proof.
  induction n as [|n IH]; intros st t b it Hrem;
    rewrite phase1_solve_unfold; unfold Phase1.run;
    cbn [repeat fold_left Phase1.step Phase1.shown Phase1.timers
         MaxScreen.closureVariables MaxScreen.closureCj MaxScreen.argTable
         MaxScreen.argBasics MaxScreen.argIteration];
    rewrite phase1_solveCall_own_names;
    unfold MaxScreen.remaining, MaxScreen.maxIterations in *.
  - assert (E : (it <=? 100)%nat = false) by (apply Nat.leb_gt; lia).
    rewrite E. reflexivity.
  - assert (E : (it <=? 100)%nat = true) by (apply Nat.leb_le; lia).
    rewrite E.
    destruct (Phase1.solveTurn st t b it) as [s' | s' t' b'].
    + reflexivity.
    + cbn [fst snd MaxScreen.schedule app].
      apply (IH s' t' b' (S it)). lia.
Qed.

(** X27.  The same on the Phase 1 screen: the press of "Solve to
    Optimal" followed, with nothing pressed in between, by the firing of
    one timer per pivot leaves the screen in the state that the recursive
    [solve] returns, with no timer pending. *)
Theorem phase1_solve_chain_uninterrupted (init : option MaxScreen.Initial.State)
  (s : Phase1.Session) :
  let r := Phase1.handleSolveToOptimal s in
  Phase1.run init
    (MaxScreen.PressSolveToOptimal :: repeat MaxScreen.TimerFires (snd r))
    (Phase1.mkScreen s [])
  = Phase1.mkScreen (fst r) [].
Proof.
  intro r. subst r. unfold Phase1.handleSolveToOptimal.
  rewrite phase1_solve_unfold. unfold Phase1.run.
  cbn [fold_left Phase1.step Phase1.shown Phase1.timers].
  change (Phase1.variables s) with (Phase1.variables (Phase1.setMessage None s)).
  change (Phase1.cj s) with (Phase1.cj (Phase1.setMessage None s)).
  rewrite phase1_solveCall_own_names.
  destruct (Phase1.iteration s <=? MaxScreen.maxIterations)%nat; [|reflexivity].
  destruct (Phase1.solveTurn (Phase1.setMessage None s)
              (Phase1.simplexTable s) (Phase1.basicVariables s)
              (Phase1.iteration s)) as [s' | s' t' b'].
  - reflexivity.
  - cbn [fst snd MaxScreen.schedule app].
    exact (phase1_timers_run_solve init _ s' t' b' (S (Phase1.iteration s)) eq_refl).
Qed.
